(** * Modbus/TCP slave simulator: register bank, request handlers,
      slave lifecycle, scenarios and unit-id assignment.

    A shallow embedding of the Go sources.  Go's fixed-width integers are
    integers of [Z] with the wrap-around written out, slices are lists
    indexed through [Z.to_nat], the metadata map is a [gmap], [float64] is
    IEEE-754 binary64 as specified by [SpecFloat] (precision 53, emax 1024),
    and a method on a pointer receiver takes the receiver and returns it
    next to the Go results. *)

From stdpp Require Import base option list gmap strings.
From Stdlib Require Import ZArith Lia.
From Stdlib Require Import Floats.SpecFloat.

Local Open Scope Z_scope.

(** ** Fixed-width integers *)

Definition wrap_uint8 (z : Z) : Z := z mod 2 ^ 8.
Definition wrap_uint16 (z : Z) : Z := z mod 2 ^ 16.
Definition wrap_uint32 (z : Z) : Z := z mod 2 ^ 32.
Definition wrap_uint64 (z : Z) : Z := z mod 2 ^ 64.

(** Two's complement reading of the low [w] bits. *)
Definition wrap_signed (w : Z) (z : Z) : Z :=
  (z + 2 ^ (w - 1)) mod 2 ^ w - 2 ^ (w - 1).

Definition wrap_int16 : Z -> Z := wrap_signed 16.
Definition wrap_int32 : Z -> Z := wrap_signed 32.
Definition wrap_int64 : Z -> Z := wrap_signed 64.

(** The integer types a [float64] is converted to in the register map. *)
Inductive IntType : Type := TUint16 | TInt16 | TUint32 | TInt32.

Definition int_wrap (t : IntType) : Z -> Z :=
  match t with
  | TUint16 => wrap_uint16
  | TInt16 => wrap_int16
  | TUint32 => wrap_uint32
  | TInt32 => wrap_int32
  end.

Definition int_fits (t : IntType) (z : Z) : bool :=
  match t with
  | TUint16 => (0 <=? z) && (z <=? 65535)
  | TInt16 => (-32768 <=? z) && (z <=? 32767)
  | TUint32 => (0 <=? z) && (z <=? 4294967295)
  | TInt32 => (-2147483648 <=? z) && (z <=? 2147483647)
  end.

(** ** float64 *)

Definition float64 : Type := spec_float.
Definition float32 : Type := spec_float.

Definition f64_mul : float64 -> float64 -> float64 := SFmul 53 1024.
Definition f64_div : float64 -> float64 -> float64 := SFdiv 53 1024.
Definition f64_add : float64 -> float64 -> float64 := SFadd 53 1024.
Definition f64_sub : float64 -> float64 -> float64 := SFsub 53 1024.
Definition f64_eqb : float64 -> float64 -> bool := SFeqb.
Definition f64_ltb : float64 -> float64 -> bool := SFltb.
Definition f64_leb : float64 -> float64 -> bool := SFleb.

(** [float64(z)] for an integer [z]; exact below 2^53. *)
Definition f64_of_Z (z : Z) : float64 := binary_normalize 53 1024 z 0 false.

(** A decimal literal [n / d], rounded once to the nearest float as the Go
    compiler rounds a constant. *)
Definition f64_lit (n d : Z) : float64 := f64_div (f64_of_Z n) (f64_of_Z d).

(** Truncation toward zero of a finite float; [None] for NaN and the
    infinities. *)
Definition f64_trunc (f : float64) : option Z :=
  match f with
  | S754_zero _ => Some 0
  | S754_finite s m e => Some (cond_Zopp s (Z.shiftl (Z.pos m) e))
  | S754_infinity _ | S754_nan => None
  end.

(** Rounding of a [float64] to binary32 and back. *)
Definition f32_of_f64 (f : float64) : float32 :=
  match f with
  | S754_finite s m e => binary_round 24 128 s m e
  | _ => f
  end.

Definition f64_of_f32 (f : float32) : float64 :=
  match f with
  | S754_finite s m e => binary_round 53 1024 s m e
  | _ => f
  end.

(** [math.Float32bits]: sign, biased exponent and fraction of a binary32
    value.  [spec_float] keeps no NaN payload; NaN is the quiet NaN
    0x7FC00000. *)
Definition Float32bits (f : float32) : Z :=
  match f with
  | S754_zero s => if s then 2 ^ 31 else 0
  | S754_infinity s => (if s then 2 ^ 31 else 0) + 2139095040
  | S754_nan => 2143289344
  | S754_finite s m e =>
      (if s then 2 ^ 31 else 0) +
      (if Z.pos m <? 2 ^ 23 then Z.pos m
       else Z.shiftl (e + 150) 23 + (Z.pos m - 2 ^ 23))
  end.

(** [math.Float32frombits]. *)
Definition Float32frombits (b : Z) : float32 :=
  let s := Z.testbit b 31 in
  let ex := Z.land (Z.shiftr b 23) 255 in
  let fr := Z.land b 8388607 in
  if ex =? 255 then (if fr =? 0 then S754_infinity s else S754_nan)
  else if ex =? 0 then
    match fr with
    | Z.pos m => S754_finite s m (-149)
    | _ => S754_zero s
    end
  else
    match fr + 2 ^ 23 with
    | Z.pos m => S754_finite s m (ex - 150)
    | _ => S754_zero s
    end.

(** ** Protocol constants and enumerations *)

Definition ExceptionCodeIllegalFunction : Z := 1.
Definition ExceptionCodeIllegalDataAddress : Z := 2.
Definition ExceptionCodeIllegalDataValue : Z := 3.
Definition ExceptionCodeSlaveDeviceFailure : Z := 4.

Inductive RegisterType : Type :=
| RegisterTypeCoil
| RegisterTypeDiscreteInput
| RegisterTypeInputRegister
| RegisterTypeHoldingRegister.

Inductive DataType : Type :=
| DataTypeUint16
| DataTypeInt16
| DataTypeUint32
| DataTypeInt32
| DataTypeFloat32.

Definition RegisterCount (dt : DataType) : Z :=
  match dt with
  | DataTypeUint32 | DataTypeInt32 | DataTypeFloat32 => 2
  | _ => 1
  end.

(** Go's [error] values met in this code: the [fmt.Errorf] messages of the
    register map, kept as the space they name and the numbers they print,
    and the handler's [*ModbusError]. *)
Inductive error : Type :=
| ErrAddress (space : RegisterType) (address : Z)
| ErrAddressRange (space : RegisterType) (first last : Z)
| ErrInvalidAddress (address : Z)
| ErrListen (cause : string)
| ErrAlreadyRunning
| ModbusError (Code : Z).

(** ** Slices *)

(** [l[lo:hi]] for [0 <= lo <= hi <= len l]. *)
Definition slice {A} (l : list A) (lo hi : Z) : list A :=
  take (Z.to_nat (hi - lo)) (drop (Z.to_nat lo) l).

(** The destination after [copy(dst, src)]: [min (len dst) (len src)]
    elements are copied. *)
Definition copy {A} (dst src : list A) : list A :=
  take (length dst) src ++ drop (length src) dst.

(** The backing array after [copy(l[lo:hi], src)]. *)
Definition copy_into {A} (l : list A) (lo hi : Z) (src : list A) : list A :=
  take (Z.to_nat lo) l ++ copy (slice l lo hi) src ++ drop (Z.to_nat hi) l.

Definition len {A} (l : list A) : Z := Z.of_nat (length l).

(** ** RegisterMap *)

Record RegisterMeta : Type := mkRegisterMeta {
  Address : Z;
  Name : string;
  MetaDataType : DataType;
  Scale : float64;
  Unit : string;
  Writable : bool;
  MinValue : float64;
  MaxValue : float64
}.

Record RegisterMap : Type := mkRegisterMap {
  coils : list bool;
  discreteInputs : list bool;
  inputRegisters : list Z;
  holdingRegisters : list Z;
  definitions : gmap Z RegisterMeta
}.

(** A method with receiver [*RegisterMap]: the Go results and the map
    afterwards. *)
Definition method (A : Type) : Type := RegisterMap -> A * RegisterMap.

Definition set_coils (rm : RegisterMap) (l : list bool) : RegisterMap :=
  mkRegisterMap l (discreteInputs rm) (inputRegisters rm) (holdingRegisters rm) (definitions rm).
Definition set_discreteInputs (rm : RegisterMap) (l : list bool) : RegisterMap :=
  mkRegisterMap (coils rm) l (inputRegisters rm) (holdingRegisters rm) (definitions rm).
Definition set_inputRegisters (rm : RegisterMap) (l : list Z) : RegisterMap :=
  mkRegisterMap (coils rm) (discreteInputs rm) l (holdingRegisters rm) (definitions rm).
Definition set_holdingRegisters (rm : RegisterMap) (l : list Z) : RegisterMap :=
  mkRegisterMap (coils rm) (discreteInputs rm) (inputRegisters rm) l (definitions rm).
Definition set_definitions (rm : RegisterMap) (d : gmap Z RegisterMeta) : RegisterMap :=
  mkRegisterMap (coils rm) (discreteInputs rm) (inputRegisters rm) (holdingRegisters rm) d.

Definition NewRegisterMap (coilSize discreteSize inputSize holdingSize : Z) : RegisterMap :=
  mkRegisterMap
    (replicate (Z.to_nat coilSize) false)
    (replicate (Z.to_nat discreteSize) false)
    (replicate (Z.to_nat inputSize) 0)
    (replicate (Z.to_nat holdingSize) 0)
    ∅.

Definition DefineRegister (address : Z) (name : string) (dataType : DataType)
    (scale : float64) (unit : string) (writable : bool) : method () := fun rm =>
  (tt, set_definitions rm
         (<[address := mkRegisterMeta address name dataType scale unit writable
                         (S754_zero false) (S754_zero false)]> (definitions rm))).

Definition GetDefinition (address : Z) : method (option RegisterMeta) := fun rm =>
  (definitions rm !! address, rm).

(** *** Coils (0x) *)

Definition ReadCoil (address : Z) : method (bool * option error) := fun rm =>
  if len (coils rm) <=? address
  then ((false, Some (ErrAddress RegisterTypeCoil address)), rm)
  else ((coils rm !!! Z.to_nat address, None), rm).

Definition ReadCoils (address quantity : Z) : method (option (list bool) * option error) := fun rm =>
  let end_ := address + quantity in
  if len (coils rm) <? end_
  then ((None, Some (ErrAddressRange RegisterTypeCoil address (end_ - 1))), rm)
  else
    let result := replicate (Z.to_nat quantity) false in
    ((Some (copy result (slice (coils rm) address end_)), None), rm).

Definition WriteCoil (address : Z) (value : bool) : method (option error) := fun rm =>
  if len (coils rm) <=? address
  then (Some (ErrAddress RegisterTypeCoil address), rm)
  else (None, set_coils rm (<[Z.to_nat address := value]> (coils rm))).

Definition WriteCoils (address : Z) (values : list bool) : method (option error) := fun rm =>
  let end_ := address + len values in
  if len (coils rm) <? end_
  then (Some (ErrAddressRange RegisterTypeCoil address (end_ - 1)), rm)
  else (None, set_coils rm (copy_into (coils rm) address end_ values)).

(** *** Discrete inputs (1x) *)

Definition ReadDiscreteInput (address : Z) : method (bool * option error) := fun rm =>
  if len (discreteInputs rm) <=? address
  then ((false, Some (ErrAddress RegisterTypeDiscreteInput address)), rm)
  else ((discreteInputs rm !!! Z.to_nat address, None), rm).

Definition ReadDiscreteInputs (address quantity : Z) : method (option (list bool) * option error) := fun rm =>
  let end_ := address + quantity in
  if len (discreteInputs rm) <? end_
  then ((None, Some (ErrAddressRange RegisterTypeDiscreteInput address (end_ - 1))), rm)
  else
    let result := replicate (Z.to_nat quantity) false in
    ((Some (copy result (slice (discreteInputs rm) address end_)), None), rm).

Definition SetDiscreteInput (address : Z) (value : bool) : method (option error) := fun rm =>
  if len (discreteInputs rm) <=? address
  then (Some (ErrAddress RegisterTypeDiscreteInput address), rm)
  else (None, set_discreteInputs rm (<[Z.to_nat address := value]> (discreteInputs rm))).

(** *** Input registers (3x) *)

Definition ReadInputRegister (address : Z) : method (Z * option error) := fun rm =>
  if len (inputRegisters rm) <=? address
  then ((0, Some (ErrAddress RegisterTypeInputRegister address)), rm)
  else ((inputRegisters rm !!! Z.to_nat address, None), rm).

Definition ReadInputRegisters (address quantity : Z) : method (option (list Z) * option error) := fun rm =>
  let end_ := address + quantity in
  if len (inputRegisters rm) <? end_
  then ((None, Some (ErrAddressRange RegisterTypeInputRegister address (end_ - 1))), rm)
  else
    let result := replicate (Z.to_nat quantity) 0 in
    ((Some (copy result (slice (inputRegisters rm) address end_)), None), rm).

Definition SetInputRegister (address value : Z) : method (option error) := fun rm =>
  if len (inputRegisters rm) <=? address
  then (Some (ErrAddress RegisterTypeInputRegister address), rm)
  else (None, set_inputRegisters rm (<[Z.to_nat address := value]> (inputRegisters rm))).

(** *** Holding registers (4x) *)

(** 40001 -> 0, 40002 -> 1, ...; an address below 40001 is its own index. *)
Definition holdingIndex (address : Z) : Z :=
  if 40001 <=? address then wrap_uint16 (address - 40001) else address.

Definition ReadHoldingRegister (address : Z) : method (Z * option error) := fun rm =>
  let idx := holdingIndex address in
  if (idx <? 0) || (len (holdingRegisters rm) <=? idx)
  then ((0, Some (ErrAddress RegisterTypeHoldingRegister address)), rm)
  else ((holdingRegisters rm !!! Z.to_nat idx, None), rm).

Definition ReadHoldingRegisters (address quantity : Z) : method (option (list Z) * option error) := fun rm =>
  let startIdx := holdingIndex address in
  let endIdx := startIdx + quantity in
  if (startIdx <? 0) || (len (holdingRegisters rm) <? endIdx)
  then ((None, Some (ErrAddressRange RegisterTypeHoldingRegister address
                       (wrap_uint16 (address + quantity - 1)))), rm)
  else
    let result := replicate (Z.to_nat quantity) 0 in
    ((Some (copy result (slice (holdingRegisters rm) startIdx endIdx)), None), rm).

Definition WriteHoldingRegister (address value : Z) : method (option error) := fun rm =>
  let idx := holdingIndex address in
  if (idx <? 0) || (len (holdingRegisters rm) <=? idx)
  then (Some (ErrAddress RegisterTypeHoldingRegister address), rm)
  else (None, set_holdingRegisters rm (<[Z.to_nat idx := value]> (holdingRegisters rm))).

Definition WriteHoldingRegisters (address : Z) (values : list Z) : method (option error) := fun rm =>
  let startIdx := holdingIndex address in
  let endIdx := startIdx + len values in
  if (startIdx <? 0) || (len (holdingRegisters rm) <? endIdx)
  then (Some (ErrAddressRange RegisterTypeHoldingRegister address
                (wrap_uint16 (address + wrap_uint16 (len values) - 1))), rm)
  else (None, set_holdingRegisters rm (copy_into (holdingRegisters rm) startIdx endIdx values)).

(** Sequencing of methods. *)
Definition method_ret {A} (a : A) : method A := fun rm => (a, rm).
Definition method_bind {A B} (m : method A) (k : A -> method B) : method B :=
  fun rm => let '(a, rm') := m rm in k a rm'.

Notation "m ';;;' k" := (method_bind m (fun _ => k))
  (at level 100, k at level 200, right associativity, only parsing).

(** *** Scaled values *)

(** [uint32(hi)<<16 | uint32(lo)]. *)
Definition word32 (hi lo : Z) : Z :=
  Z.lor (wrap_uint32 (Z.shiftl hi 16)) lo.

Definition store2 (l : list Z) (idx hi lo : Z) : list Z :=
  <[Z.to_nat (idx + 1) := lo]> (<[Z.to_nat idx := hi]> l).

Section ScaledValues.

(** Go converts a float to an integer by discarding the fraction.  When the
    truncated value does not fit the target type (or the float is a NaN or
    an infinity) the result is implementation-dependent; it is whatever
    [impl_conv] says, reduced to the target type. *)
Variable impl_conv : IntType -> float64 -> Z.

Definition float_to_int (t : IntType) (f : float64) : Z :=
  match f64_trunc f with
  | Some z => if int_fits t z then z else int_wrap t (impl_conv t f)
  | None => int_wrap t (impl_conv t f)
  end.

(** The 32-bit pattern [SetScaledValue] splits over two registers. *)
Definition raw32 (meta : RegisterMeta) (value : float64) : Z :=
  match MetaDataType meta with
  | DataTypeInt32 => wrap_uint32 (float_to_int TInt32 (f64_mul value (Scale meta)))
  | DataTypeFloat32 => Float32bits (f32_of_f64 value)
  | _ => float_to_int TUint32 (f64_mul value (Scale meta))
  end.

Definition SetScaledValue (address : Z) (value : float64) : method (option error) := fun rm =>
  match definitions rm !! address with
  | None =>
      let idx := holdingIndex address in
      if (idx <? 0) || (len (holdingRegisters rm) <=? idx)
      then (Some (ErrAddress RegisterTypeHoldingRegister address), rm)
      else (None, set_holdingRegisters rm
                    (<[Z.to_nat idx := float_to_int TUint16 value]> (holdingRegisters rm)))
  | Some meta =>
      let scaledValue := f64_mul value (Scale meta) in
      let idx := holdingIndex address in
      if idx <? 0 then (Some (ErrInvalidAddress address), rm)
      else
        match MetaDataType meta with
        | DataTypeUint16 =>
            if len (holdingRegisters rm) <=? idx
            then (Some (ErrAddress RegisterTypeHoldingRegister address), rm)
            else (None, set_holdingRegisters rm
                          (<[Z.to_nat idx := float_to_int TUint16 scaledValue]> (holdingRegisters rm)))
        | DataTypeInt16 =>
            if len (holdingRegisters rm) <=? idx
            then (Some (ErrAddress RegisterTypeHoldingRegister address), rm)
            else (None, set_holdingRegisters rm
                          (<[Z.to_nat idx := wrap_uint16 (float_to_int TInt16 scaledValue)]>
                             (holdingRegisters rm)))
        | DataTypeUint32 =>
            if len (holdingRegisters rm) <=? idx + 1
            then (Some (ErrAddress RegisterTypeHoldingRegister address), rm)
            else
              let u32 := float_to_int TUint32 scaledValue in
              (None, set_holdingRegisters rm
                       (store2 (holdingRegisters rm) idx
                          (wrap_uint16 (Z.shiftr u32 16)) (wrap_uint16 u32)))
        | DataTypeInt32 =>
            if len (holdingRegisters rm) <=? idx + 1
            then (Some (ErrAddress RegisterTypeHoldingRegister address), rm)
            else
              let i32 := float_to_int TInt32 scaledValue in
              (None, set_holdingRegisters rm
                       (store2 (holdingRegisters rm) idx
                          (wrap_uint16 (Z.shiftr i32 16)) (wrap_uint16 i32)))
        | DataTypeFloat32 =>
            if len (holdingRegisters rm) <=? idx + 1
            then (Some (ErrAddress RegisterTypeHoldingRegister address), rm)
            else
              let bits := Float32bits (f32_of_f64 value) in
              (None, set_holdingRegisters rm
                       (store2 (holdingRegisters rm) idx
                          (wrap_uint16 (Z.shiftr bits 16)) (wrap_uint16 bits)))
        end
  end.

Definition GetScaledValue (address : Z) : method (float64 * option error) := fun rm =>
  let hr := holdingRegisters rm in
  match definitions rm !! address with
  | None =>
      let idx := holdingIndex address in
      if (idx <? 0) || (len hr <=? idx)
      then ((S754_zero false, Some (ErrAddress RegisterTypeHoldingRegister address)), rm)
      else ((f64_of_Z (hr !!! Z.to_nat idx), None), rm)
  | Some meta =>
      let idx := holdingIndex address in
      if idx <? 0 then ((S754_zero false, Some (ErrInvalidAddress address)), rm)
      else
        match MetaDataType meta with
        | DataTypeUint16 =>
            if len hr <=? idx
            then ((S754_zero false, Some (ErrAddress RegisterTypeHoldingRegister address)), rm)
            else
              let rawValue := f64_of_Z (hr !!! Z.to_nat idx) in
              ((f64_div rawValue (Scale meta), None), rm)
        | DataTypeInt16 =>
            if len hr <=? idx
            then ((S754_zero false, Some (ErrAddress RegisterTypeHoldingRegister address)), rm)
            else
              let rawValue := f64_of_Z (wrap_int16 (hr !!! Z.to_nat idx)) in
              ((f64_div rawValue (Scale meta), None), rm)
        | DataTypeUint32 =>
            if len hr <=? idx + 1
            then ((S754_zero false, Some (ErrAddress RegisterTypeHoldingRegister address)), rm)
            else
              let u32 := word32 (hr !!! Z.to_nat idx) (hr !!! Z.to_nat (idx + 1)) in
              ((f64_div (f64_of_Z u32) (Scale meta), None), rm)
        | DataTypeInt32 =>
            if len hr <=? idx + 1
            then ((S754_zero false, Some (ErrAddress RegisterTypeHoldingRegister address)), rm)
            else
              let i32 := wrap_int32 (word32 (hr !!! Z.to_nat idx) (hr !!! Z.to_nat (idx + 1))) in
              ((f64_div (f64_of_Z i32) (Scale meta), None), rm)
        | DataTypeFloat32 =>
            if len hr <=? idx + 1
            then ((S754_zero false, Some (ErrAddress RegisterTypeHoldingRegister address)), rm)
            else
              let bits := word32 (hr !!! Z.to_nat idx) (hr !!! Z.to_nat (idx + 1)) in
              ((f64_of_f32 (Float32frombits bits), None), rm)
        end
  end.

Definition DefaultRegisterMap : RegisterMap :=
  snd (
    (DefineRegister 40001 "LineVoltage" DataTypeUint16 (f64_of_Z 10) "V" false ;;;
     DefineRegister 40002 "LineCurrent" DataTypeUint16 (f64_of_Z 100) "A" false ;;;
     DefineRegister 40003 "Frequency" DataTypeUint16 (f64_of_Z 100) "Hz" false ;;;
     DefineRegister 40004 "TotalEnergy" DataTypeUint32 (f64_of_Z 1) "kWh" false ;;;
     DefineRegister 40006 "PowerFactor" DataTypeUint16 (f64_of_Z 1000) "" false ;;;
     DefineRegister 40007 "ActivePower" DataTypeUint32 (f64_of_Z 10) "W" false ;;;
     SetScaledValue 40001 (f64_of_Z 220) ;;;
     SetScaledValue 40002 (f64_lit 1550 100) ;;;
     SetScaledValue 40003 (f64_of_Z 60) ;;;
     SetScaledValue 40004 (f64_of_Z 0) ;;;
     SetScaledValue 40006 (f64_lit 95 100) ;;;
     SetScaledValue 40007 (f64_of_Z 3300))
    (NewRegisterMap 10000 10000 10000 10000)).

End ScaledValues.

(** ** Scenario types and parameters *)

Inductive ScenarioType : Type :=
| ScenarioNormal
| ScenarioVoltageSag
| ScenarioJitter
| ScenarioPacketLoss.

(** Durations are [int64] nanoseconds. *)
Definition Millisecond : Z := 1000000.
Definition Second : Z := 1000000000.
Definition Hour : Z := 3600000000000.

Record ScenarioParams : Type := mkScenarioParams {
  Enabled : bool;
  Duration : Z;
  VoltageVariance : float64;
  FrequencyVariance : float64;
  JitterMin : Z;
  JitterMax : Z;
  PacketLossRate : float64
}.

(** ** Slave *)

Inductive SlaveState : Type :=
| SlaveStateStopped
| SlaveStateStarting
| SlaveStateRunning
| SlaveStateStopping.

Definition SlaveState_eqb (a b : SlaveState) : bool :=
  match a, b with
  | SlaveStateStopped, SlaveStateStopped
  | SlaveStateStarting, SlaveStateStarting
  | SlaveStateRunning, SlaveStateRunning
  | SlaveStateStopping, SlaveStateStopping => true
  | _, _ => false
  end.

Record SlaveStats : Type := mkSlaveStats {
  StartTime : Z;
  RequestCount : Z;
  ErrorCount : Z;
  LastRequestTime : Z;
  BytesReceived : Z;
  BytesSent : Z
}.

(** The embedded mbserver: the four banks it serves and whether its
    listener is open. *)
Record Server : Type := mkServer {
  srvHoldingRegisters : list Z;
  srvInputRegisters : list Z;
  srvCoils : list Z;
  srvDiscreteInputs : list Z;
  srvListening : bool
}.

Record Slave : Type := mkSlave {
  ID : string;
  Port : Z;
  UnitID : Z;
  state : SlaveState;
  registers : RegisterMap;
  server : option Server;
  stats : SlaveStats;
  scenario : ScenarioType;
  scenarioUpdater : bool
}.

Definition set_state (s : Slave) (st : SlaveState) : Slave :=
  mkSlave (ID s) (Port s) (UnitID s) st (registers s) (server s) (stats s)
          (scenario s) (scenarioUpdater s).
Definition set_registers (s : Slave) (rm : RegisterMap) : Slave :=
  mkSlave (ID s) (Port s) (UnitID s) (state s) rm (server s) (stats s)
          (scenario s) (scenarioUpdater s).
Definition set_server (s : Slave) (srv : option Server) : Slave :=
  mkSlave (ID s) (Port s) (UnitID s) (state s) (registers s) srv (stats s)
          (scenario s) (scenarioUpdater s).
Definition set_stats (s : Slave) (st : SlaveStats) : Slave :=
  mkSlave (ID s) (Port s) (UnitID s) (state s) (registers s) (server s) st
          (scenario s) (scenarioUpdater s).
Definition set_scenario (s : Slave) (sc : ScenarioType) : Slave :=
  mkSlave (ID s) (Port s) (UnitID s) (state s) (registers s) (server s) (stats s)
          sc (scenarioUpdater s).
Definition set_scenarioUpdater (s : Slave) (b : bool) : Slave :=
  mkSlave (ID s) (Port s) (UnitID s) (state s) (registers s) (server s) (stats s)
          (scenario s) b.

(** [atomic.Int32.CompareAndSwap] and [Store] on [s.state].  The slave
    comes with the log of the values stored into [s.state] so far, oldest
    first: every store that takes place appends the value stored. *)
Definition CompareAndSwap (old new : SlaveState) (sl : Slave * list SlaveState)
    : bool * (Slave * list SlaveState) :=
  if SlaveState_eqb (state (fst sl)) old
  then (true, (set_state (fst sl) new, snd sl ++ [new]))
  else (false, sl).

Definition Store (new : SlaveState) (sl : Slave * list SlaveState)
    : Slave * list SlaveState :=
  (set_state (fst sl) new, snd sl ++ [new]).

(** [bytes[i/8] |= 1 << (i % 8)] for every set bit [i]. *)
Definition pack_bits (l : list bool) : list Z :=
  foldl (fun bytes ib =>
           let i := fst ib in
           if snd ib : bool
           then <[(i / 8)%nat := Z.lor (bytes !!! (i / 8)%nat)
                                    (wrap_uint8 (Z.shiftl 1 (Z.of_nat (i mod 8))))]> bytes
           else bytes)
        (replicate ((length l + 7) / 8)%nat 0)
        (imap (fun i b => (i, b)) l).

Definition NewServer : Server :=
  let bank := replicate (Z.to_nat 65536) 0 in
  mkServer bank bank bank bank false.

Definition syncRegistersToServer (s : Slave) : Slave :=
  match server s with
  | None => s
  | Some srv =>
      let rm := registers s in
      set_server s (Some (mkServer
        (copy (replicate (length (holdingRegisters rm)) 0) (holdingRegisters rm))
        (copy (replicate (length (inputRegisters rm)) 0) (inputRegisters rm))
        (pack_bits (coils rm))
        (pack_bits (discreteInputs rm))
        (srvListening srv)))
  end.

Definition listen_on (s : Slave) : Slave :=
  match server s with
  | None => s
  | Some srv =>
      set_server s (Some (mkServer (srvHoldingRegisters srv) (srvInputRegisters srv)
                            (srvCoils srv) (srvDiscreteInputs srv) true))
  end.

Definition close_server (s : Slave) : Slave :=
  match server s with
  | None => s
  | Some srv =>
      set_server s (Some (mkServer (srvHoldingRegisters srv) (srvInputRegisters srv)
                            (srvCoils srv) (srvDiscreteInputs srv) false))
  end.

(** [Start].  [listen] is the result of [ListenTCP] ([None] when the bind
    succeeds, the cause otherwise) and [now] the clock.  Next to Go's
    results comes the log of the values the call stored into [s.state], in
    order. *)
Definition Start (listen : option string) (now : Z) (s : Slave)
    : option error * Slave * list SlaveState :=
  match CompareAndSwap SlaveStateStopped SlaveStateStarting (s, []) with
  | (false, (s, log)) => (Some ErrAlreadyRunning, s, log)
  | (true, (s, log)) =>
      let s := set_server s (Some NewServer) in
      let s := syncRegistersToServer s in
      let s := set_stats s (mkSlaveStats now (RequestCount (stats s)) (ErrorCount (stats s))
                              (LastRequestTime (stats s)) (BytesReceived (stats s))
                              (BytesSent (stats s))) in
      match listen with
      | Some cause =>
          let '(s, log) := Store SlaveStateStopped (s, log) in
          (Some (ErrListen cause), s, log)
      | None =>
          let s := listen_on s in
          let s := set_scenarioUpdater s true in
          let '(s, log) := Store SlaveStateRunning (s, log) in
          (None, s, log)
      end
  end.

(** [Stop], with the log of the values stored into [s.state]. *)
Definition Stop (s : Slave) : option error * Slave * list SlaveState :=
  match CompareAndSwap SlaveStateRunning SlaveStateStopping (s, []) with
  | (false, (s, log)) => (None, s, log)
  | (true, (s, log)) =>
      let s := set_scenarioUpdater s false in
      let s := close_server s in
      let '(s, log) := Store SlaveStateStopped (s, log) in
      (None, s, log)
  end.

Definition ApplyScenario (sc : ScenarioType) (s : Slave) : Slave := set_scenario s sc.

(** [recordRequest]; [now] is [time.Now().UnixNano()]. *)
Definition recordRequest (now bytesIn bytesOut : Z) (hasError : bool) (s : Slave) : Slave :=
  let st := stats s in
  set_stats s (mkSlaveStats
    (StartTime st)
    (wrap_uint64 (RequestCount st + 1))
    (if hasError then wrap_uint64 (ErrorCount st + 1) else ErrorCount st)
    now
    (wrap_uint64 (BytesReceived st + wrap_uint64 bytesIn))
    (wrap_uint64 (BytesSent st + wrap_uint64 bytesOut))).

(** ** RequestHandler *)

Record RequestHandler : Type := mkRequestHandler {
  slave : Slave;
  jitterEnabled : bool;
  jitterMin : Z;
  jitterMax : Z;
  packetLossRate : float64
}.

Definition NewRequestHandler (s : Slave) : RequestHandler :=
  mkRequestHandler s false 0 0 (S754_zero false).

Definition SetJitter (enabled : bool) (min max : Z) (h : RequestHandler) : RequestHandler :=
  mkRequestHandler (slave h) enabled min max (packetLossRate h).

Definition SetPacketLoss (rate : float64) (h : RequestHandler) : RequestHandler :=
  mkRequestHandler (slave h) (jitterEnabled h) (jitterMin h) (jitterMax h) rate.

Definition set_slave (h : RequestHandler) (s : Slave) : RequestHandler :=
  mkRequestHandler s (jitterEnabled h) (jitterMin h) (jitterMax h) (packetLossRate h).

(** What one handler call takes from its surroundings: the value the
    random source yields inside [rand.Int63n], the value of
    [rand.Float64()], and the clock. *)
Record CallEnv : Type := mkCallEnv {
  rand_Int63 : Z;
  rand_Float64 : float64;
  call_now : Z
}.

(** A call either returns or panics. *)
Inductive completion (A : Type) : Type :=
| Returns (a : A)
| Panics.
Arguments Returns {A} a.
Arguments Panics {A}.

(** [rand.Int63n] panics unless [n > 0]. *)
Definition Int63n (env : CallEnv) (n : Z) : completion Z :=
  if n <=? 0 then Panics else Returns (rand_Int63 env mod n).

(** [applyJitter]; the value returned is the duration slept. *)
Definition applyJitter (env : CallEnv) (h : RequestHandler) : completion Z :=
  if negb (jitterEnabled h) then Returns 0
  else
    match Int63n env (wrap_int64 (jitterMax h - jitterMin h)) with
    | Panics => Panics
    | Returns r => Returns (wrap_int64 (jitterMin h + r))
    end.

Definition shouldDropPacket (env : CallEnv) (h : RequestHandler) : bool :=
  if f64_leb (packetLossRate h) (S754_zero false) then false
  else f64_ltb (rand_Float64 env) (packetLossRate h).

Definition record (env : CallEnv) (bytesIn bytesOut : Z) (hasError : bool)
    (h : RequestHandler) : RequestHandler :=
  set_slave h (recordRequest (call_now env) bytesIn bytesOut hasError (slave h)).

Definition with_registers (h : RequestHandler) (rm : RegisterMap) : RequestHandler :=
  set_slave h (set_registers (slave h) rm).

(** [HandleReadCoils] (FC 01). *)
Definition HandleReadCoils (env : CallEnv) (address quantity : Z) (h : RequestHandler)
    : completion ((option (list bool) * option error) * RequestHandler) :=
  match applyJitter env h with
  | Panics => Panics
  | Returns _ =>
      if shouldDropPacket env h then Returns ((None, None), h)
      else
        let '((coils_, err), rm) := ReadCoils address quantity (registers (slave h)) in
        let h := with_registers h rm in
        match err with
        | Some e => Returns ((None, Some e), record env 0 0 true h)
        | None => Returns ((coils_, None), record env 8 (3 + Z.quot (quantity + 7) 8) false h)
        end
  end.

(** [HandleReadDiscreteInputs] (FC 02). *)
Definition HandleReadDiscreteInputs (env : CallEnv) (address quantity : Z) (h : RequestHandler)
    : completion ((option (list bool) * option error) * RequestHandler) :=
  match applyJitter env h with
  | Panics => Panics
  | Returns _ =>
      if shouldDropPacket env h then Returns ((None, None), h)
      else
        let '((inputs, err), rm) := ReadDiscreteInputs address quantity (registers (slave h)) in
        let h := with_registers h rm in
        match err with
        | Some e => Returns ((None, Some e), record env 0 0 true h)
        | None => Returns ((inputs, None), record env 8 (3 + Z.quot (quantity + 7) 8) false h)
        end
  end.

(** [HandleReadHoldingRegisters] (FC 03). *)
Definition HandleReadHoldingRegisters (env : CallEnv) (address quantity : Z) (h : RequestHandler)
    : completion ((option (list Z) * option error) * RequestHandler) :=
  match applyJitter env h with
  | Panics => Panics
  | Returns _ =>
      if shouldDropPacket env h then Returns ((None, None), h)
      else
        let '((registers_, err), rm) := ReadHoldingRegisters address quantity (registers (slave h)) in
        let h := with_registers h rm in
        match err with
        | Some e => Returns ((None, Some e), record env 0 0 true h)
        | None => Returns ((registers_, None), record env 8 (3 + quantity * 2) false h)
        end
  end.

(** [HandleReadInputRegisters] (FC 04). *)
Definition HandleReadInputRegisters (env : CallEnv) (address quantity : Z) (h : RequestHandler)
    : completion ((option (list Z) * option error) * RequestHandler) :=
  match applyJitter env h with
  | Panics => Panics
  | Returns _ =>
      if shouldDropPacket env h then Returns ((None, None), h)
      else
        let '((registers_, err), rm) := ReadInputRegisters address quantity (registers (slave h)) in
        let h := with_registers h rm in
        match err with
        | Some e => Returns ((None, Some e), record env 0 0 true h)
        | None => Returns ((registers_, None), record env 8 (3 + quantity * 2) false h)
        end
  end.

(** [HandleWriteSingleCoil] (FC 05). *)
Definition HandleWriteSingleCoil (env : CallEnv) (address : Z) (value : bool) (h : RequestHandler)
    : completion (option error * RequestHandler) :=
  match applyJitter env h with
  | Panics => Panics
  | Returns _ =>
      if shouldDropPacket env h then Returns (None, h)
      else
        let '(meta, rm) := GetDefinition address (registers (slave h)) in
        let h := with_registers h rm in
        if match meta with Some m => negb (Writable m) | None => false end
        then Returns (Some (ModbusError ExceptionCodeIllegalDataAddress), record env 0 0 true h)
        else
          let '(err, rm) := WriteCoil address value (registers (slave h)) in
          let h := with_registers h rm in
          match err with
          | Some e => Returns (Some e, record env 0 0 true h)
          | None => Returns (None, record env 8 8 false h)
          end
  end.

(** [HandleWriteSingleRegister] (FC 06). *)
Definition HandleWriteSingleRegister (env : CallEnv) (address : Z) (value : Z) (h : RequestHandler)
    : completion (option error * RequestHandler) :=
  match applyJitter env h with
  | Panics => Panics
  | Returns _ =>
      if shouldDropPacket env h then Returns (None, h)
      else
        let '(meta, rm) := GetDefinition address (registers (slave h)) in
        let h := with_registers h rm in
        if match meta with Some m => negb (Writable m) | None => false end
        then Returns (Some (ModbusError ExceptionCodeIllegalDataAddress), record env 0 0 true h)
        else
          let '(err, rm) := WriteHoldingRegister address value (registers (slave h)) in
          let h := with_registers h rm in
          match err with
          | Some e => Returns (Some e, record env 0 0 true h)
          | None => Returns (None, record env 8 8 false h)
          end
  end.

(** [HandleWriteMultipleCoils] (FC 15). *)
Definition HandleWriteMultipleCoils (env : CallEnv) (address : Z) (values : list bool) (h : RequestHandler)
    : completion (option error * RequestHandler) :=
  match applyJitter env h with
  | Panics => Panics
  | Returns _ =>
      if shouldDropPacket env h then Returns (None, h)
      else
        let '(err, rm) := WriteCoils address values (registers (slave h)) in
        let h := with_registers h rm in
        match err with
        | Some e => Returns (Some e, record env 0 0 true h)
        | None => Returns (None, record env (9 + Z.quot (len values + 7) 8) 8 false h)
        end
  end.

(** [HandleWriteMultipleRegisters] (FC 16). *)
Definition HandleWriteMultipleRegisters (env : CallEnv) (address : Z) (values : list Z) (h : RequestHandler)
    : completion (option error * RequestHandler) :=
  match applyJitter env h with
  | Panics => Panics
  | Returns _ =>
      if shouldDropPacket env h then Returns (None, h)
      else
        let '(err, rm) := WriteHoldingRegisters address values (registers (slave h)) in
        let h := with_registers h rm in
        match err with
        | Some e => Returns (Some e, record env 0 0 true h)
        | None => Returns (None, record env (9 + len values * 2) 8 false h)
        end
  end.

(** ** Scenarios *)

(** What one scenario tick takes from its surroundings, every read on its
    own: the three [rand.Float64()] draws of the normal update and the
    clock readings, in the order of the program.  [now_init] is the
    [time.Now()] of the initialisation of the normal scenario (read only
    while its base voltage is zero), [now_since] the clock inside
    [time.Since(s.lastUpdate)], [now_last] the [time.Now()] stored as the
    last update; [sag_now_start] is the [time.Now()] the voltage-sag
    scenario stores as its start (read only while it has none) and
    [sag_now_since] the clock inside its [time.Since(s.startTime)]. *)
Record TickEnv : Type := mkTickEnv {
  sag_now_start : Z;
  now_init : Z;
  rand_voltage : float64;
  rand_frequency : float64;
  rand_current : float64;
  now_since : Z;
  now_last : Z;
  sag_now_since : Z
}.

(** [time.Since]: the difference saturates at the ends of [int64]. *)
Definition time_Since (now t : Z) : Z :=
  Z.max (- 2 ^ 63) (Z.min (2 ^ 63 - 1) (now - t)).

(** [Duration.Hours]. *)
Definition Hours (d : Z) : float64 :=
  let hour := Z.quot d Hour in
  let nsec := Z.rem d Hour in
  f64_add (f64_of_Z hour) (f64_div (f64_of_Z nsec) (f64_of_Z 3600000000000)).

Definition f64_zero : float64 := S754_zero false.
Definition f64_one : float64 := f64_of_Z 1.

Record NormalScenario : Type := mkNormalScenario {
  baseVoltage : float64;
  baseCurrent : float64;
  baseFrequency : float64;
  basePower : float64;
  energy : float64;
  lastUpdate : Z
}.

Definition NormalScenario_zero : NormalScenario :=
  mkNormalScenario f64_zero f64_zero f64_zero f64_zero f64_zero 0.

Record VoltageSagScenario : Type := mkVoltageSagScenario {
  sag_normalScenario : NormalScenario;
  startTime : option Z;
  duration : Z;
  sagFactor : float64
}.

Record JitterScenario : Type := mkJitterScenario {
  jit_normalScenario : NormalScenario;
  jit_jitterMin : Z;
  jit_jitterMax : Z
}.

Record PacketLossScenario : Type := mkPacketLossScenario {
  pl_normalScenario : NormalScenario;
  lossRate : float64
}.

(** The process-wide registry: one handler per scenario type. *)
Record Handlers : Type := mkHandlers {
  hNormal : NormalScenario;
  hVoltageSag : VoltageSagScenario;
  hJitter : JitterScenario;
  hPacketLoss : PacketLossScenario
}.

Definition init_Handlers : Handlers :=
  mkHandlers NormalScenario_zero
             (mkVoltageSagScenario NormalScenario_zero None 0 f64_zero)
             (mkJitterScenario NormalScenario_zero 0 0)
             (mkPacketLossScenario NormalScenario_zero f64_zero).

Definition params_zero : ScenarioParams :=
  mkScenarioParams false 0 f64_zero f64_zero 0 0 f64_zero.

(** The parameters the other three scenarios hand to the normal update. *)
Definition params_inner : ScenarioParams :=
  mkScenarioParams false 0 (f64_lit 5 1000) (f64_lit 5 10000) 0 0 f64_zero.

Section Scenarios.

Variable impl_conv : IntType -> float64 -> Z.

(** [base * (1 + (r*2 - 1) * variance)]. *)
Definition fluctuate (base r variance : float64) : float64 :=
  f64_mul base
    (f64_add f64_one (f64_mul (f64_sub (f64_mul r (f64_of_Z 2)) f64_one) variance)).

Definition Normal_init (env : TickEnv) (s : NormalScenario) : NormalScenario :=
  if f64_eqb (baseVoltage s) f64_zero
  then mkNormalScenario (f64_of_Z 220) (f64_lit 155 10) (f64_of_Z 60) (f64_of_Z 3300)
                        (energy s) (now_init env)
  else s.

Definition Normal_voltage (env : TickEnv) (params : ScenarioParams) (s : NormalScenario) : float64 :=
  let voltageVariance :=
    if f64_eqb (VoltageVariance params) f64_zero then f64_lit 5 1000
    else VoltageVariance params in
  fluctuate (baseVoltage s) (rand_voltage env) voltageVariance.

Definition Normal_frequency (env : TickEnv) (params : ScenarioParams) (s : NormalScenario) : float64 :=
  let freqVariance :=
    if f64_eqb (FrequencyVariance params) f64_zero then f64_lit 5 10000
    else FrequencyVariance params in
  fluctuate (baseFrequency s) (rand_frequency env) freqVariance.

Definition Normal_current (env : TickEnv) (s : NormalScenario) : float64 :=
  fluctuate (baseCurrent s) (rand_current env) (f64_lit 2 100).

(** [voltage * current * 0.95], on the state after initialisation. *)
Definition Normal_power (env : TickEnv) (params : ScenarioParams) (s : NormalScenario) : float64 :=
  f64_mul (f64_mul (Normal_voltage env params s) (Normal_current env s)) (f64_lit 95 100).

(** [time.Since(s.lastUpdate).Hours()]. *)
Definition Normal_elapsed (env : TickEnv) (s : NormalScenario) : float64 :=
  Hours (time_Since (now_since env) (lastUpdate s)).

(** [s.energy + power * elapsed / 1000]. *)
Definition Normal_energy (env : TickEnv) (params : ScenarioParams) (s : NormalScenario) : float64 :=
  f64_add (energy s)
    (f64_div (f64_mul (Normal_power env params s) (Normal_elapsed env s)) (f64_of_Z 1000)).

Definition Normal_Update (env : TickEnv) (params : ScenarioParams)
    (s : NormalScenario) (registers : RegisterMap) : NormalScenario * RegisterMap :=
  let s := Normal_init env s in
  let voltage := Normal_voltage env params s in
  let frequency := Normal_frequency env params s in
  let current := Normal_current env s in
  let power := Normal_power env params s in
  let energy' := Normal_energy env params s in
  let s := mkNormalScenario (baseVoltage s) (baseCurrent s) (baseFrequency s) (basePower s)
                            energy' (now_last env) in
  (s, snd ((SetScaledValue impl_conv 40001 voltage ;;;
            SetScaledValue impl_conv 40002 current ;;;
            SetScaledValue impl_conv 40003 frequency ;;;
            SetScaledValue impl_conv 40004 energy' ;;;
            SetScaledValue impl_conv 40006 (f64_lit 95 100) ;;;
            SetScaledValue impl_conv 40007 power) registers)).

Definition Normal_Reset (now : Z) (s : NormalScenario) (registers : RegisterMap)
    : NormalScenario * RegisterMap :=
  (mkNormalScenario (baseVoltage s) (baseCurrent s) (baseFrequency s) (basePower s)
                    f64_zero now,
   snd ((SetScaledValue impl_conv 40001 (f64_of_Z 220) ;;;
         SetScaledValue impl_conv 40002 (f64_lit 155 10) ;;;
         SetScaledValue impl_conv 40003 (f64_of_Z 60) ;;;
         SetScaledValue impl_conv 40004 (f64_of_Z 0) ;;;
         SetScaledValue impl_conv 40006 (f64_lit 95 100) ;;;
         SetScaledValue impl_conv 40007 (f64_of_Z 3300)) registers)).

Definition VoltageSag_init (env : TickEnv) (params : ScenarioParams)
    (s : VoltageSagScenario) : VoltageSagScenario :=
  match startTime s with
  | Some _ => s
  | None =>
      let d := if Duration params =? 0 then 10 * Second else Duration params in
      let f := f64_sub f64_one (VoltageVariance params) in
      let f := if f64_leb f f64_zero || f64_leb f64_one f then f64_lit 8 10 else f in
      mkVoltageSagScenario (sag_normalScenario s) (Some (sag_now_start env)) d f
  end.

Definition VoltageSag_Update (env : TickEnv) (params : ScenarioParams)
    (s : VoltageSagScenario) (registers : RegisterMap) : VoltageSagScenario * RegisterMap :=
  let s := VoltageSag_init env params s in
  let '(n, registers) := Normal_Update env params_inner (sag_normalScenario s) registers in
  let s := mkVoltageSagScenario n (startTime s) (duration s) (sagFactor s) in
  let started := match startTime s with Some t => t | None => 0 end in
  if time_Since (sag_now_since env) started <? duration s
  then
    let voltage := fst (fst (GetScaledValue 40001 registers)) in
    let registers := snd (SetScaledValue impl_conv 40001 (f64_mul voltage (sagFactor s)) registers) in
    let power := fst (fst (GetScaledValue 40007 registers)) in
    let registers := snd (SetScaledValue impl_conv 40007 (f64_mul power (sagFactor s)) registers) in
    (s, registers)
  else (s, registers).

Definition Jitter_Update (env : TickEnv) (params : ScenarioParams)
    (s : JitterScenario) (registers : RegisterMap) : JitterScenario * RegisterMap :=
  let jmin := if JitterMin params =? 0 then 100 * Millisecond else JitterMin params in
  let jmax := if JitterMax params =? 0 then 500 * Millisecond else JitterMax params in
  let '(n, registers) := Normal_Update env params_inner (jit_normalScenario s) registers in
  (mkJitterScenario n jmin jmax, registers).

Definition PacketLoss_Update (env : TickEnv) (params : ScenarioParams)
    (s : PacketLossScenario) (registers : RegisterMap) : PacketLossScenario * RegisterMap :=
  let rate :=
    if f64_eqb (PacketLossRate params) f64_zero then f64_lit 5 100
    else PacketLossRate params in
  let '(n, registers) := Normal_Update env params_inner (pl_normalScenario s) registers in
  (mkPacketLossScenario n rate, registers).

(** [GetScenarioHandler(scenario).Update(registers, params)] on the
    registry. *)
Definition Update (ty : ScenarioType) (env : TickEnv) (params : ScenarioParams)
    (hs : Handlers) (registers : RegisterMap) : Handlers * RegisterMap :=
  match ty with
  | ScenarioNormal =>
      let '(n, rm) := Normal_Update env params (hNormal hs) registers in
      (mkHandlers n (hVoltageSag hs) (hJitter hs) (hPacketLoss hs), rm)
  | ScenarioVoltageSag =>
      let '(v, rm) := VoltageSag_Update env params (hVoltageSag hs) registers in
      (mkHandlers (hNormal hs) v (hJitter hs) (hPacketLoss hs), rm)
  | ScenarioJitter =>
      let '(j, rm) := Jitter_Update env params (hJitter hs) registers in
      (mkHandlers (hNormal hs) (hVoltageSag hs) j (hPacketLoss hs), rm)
  | ScenarioPacketLoss =>
      let '(p, rm) := PacketLoss_Update env params (hPacketLoss hs) registers in
      (mkHandlers (hNormal hs) (hVoltageSag hs) (hJitter hs) p, rm)
  end.

(** The accumulator a scenario type ticks. *)
Definition accumulator (ty : ScenarioType) (hs : Handlers) : NormalScenario :=
  match ty with
  | ScenarioNormal => hNormal hs
  | ScenarioVoltageSag => sag_normalScenario (hVoltageSag hs)
  | ScenarioJitter => jit_normalScenario (hJitter hs)
  | ScenarioPacketLoss => pl_normalScenario (hPacketLoss hs)
  end.

(** [updateByScenario]: the slave's scenario picks the handler, the
    configuration its parameters (the zero value when absent). *)
Definition updateByScenario (config : ScenarioType -> option ScenarioParams)
    (env : TickEnv) (hs : Handlers) (s : Slave) : Handlers * Slave :=
  let sc := scenario s in
  let params := match config sc with Some p => p | None => params_zero end in
  let '(hs, rm) := Update sc env params hs (registers s) in
  (hs, syncRegistersToServer (set_registers s rm)).

End Scenarios.

(** The raw TotalEnergy reading: registers 40004 and 40005, high word
    first. *)
Definition TotalEnergy_raw (rm : RegisterMap) : Z :=
  word32 (holdingRegisters rm !!! Z.to_nat 3) (holdingRegisters rm !!! Z.to_nat 4).

(** ** Engine: unit ids *)

(** [uint8((int(UnitIDStart) + idx - 1) % 255 + 1)]; [%] is Go's truncated
    remainder and [int] is 64 bits wide. *)
Definition unitID (UnitIDStart idx : Z) : Z :=
  wrap_uint8
    (wrap_int64 (Z.rem (wrap_int64 (wrap_int64 (UnitIDStart + idx) - 1)) 255 + 1)).

(** The options of [NewSlave].  The logger is not part of the model, so
    [WithLogger] leaves the slave as it is. *)
Definition SlaveOption : Type := Slave -> Slave.

Definition WithUnitID (id : Z) : SlaveOption := fun s =>
  mkSlave (ID s) (Port s) id (state s) (registers s) (server s) (stats s)
          (scenario s) (scenarioUpdater s).

Definition WithRegisters (rm : RegisterMap) : SlaveOption := fun s => set_registers s rm.

Definition WithLogger : SlaveOption := fun s => s.

(** [NewSlave]: [id] is the formatted ["ip:port"]; the options are applied
    in order to a slave with unit id 1. *)
Definition NewSlave (impl_conv : IntType -> float64 -> Z) (id : string) (port : Z)
    (opts : list SlaveOption) : Slave :=
  foldl (fun s opt => opt s)
        (mkSlave id port 1 SlaveStateStopped (DefaultRegisterMap impl_conv) None
                 (mkSlaveStats 0 0 0 0 0 0) ScenarioNormal false)
        opts.

(** The slaves [Engine.Start] creates over the bind addresses [ips], in
    the order of the loop, which stops at [Count]: the slave of index
    [idx] is made with [WithUnitID(unitID)] and [WithLogger(..)].
    [format_id ip port] is [fmt.Sprintf("%s:%d", ip.String(), port)]. *)
Definition Engine_newSlaves {IP : Type} (impl_conv : IntType -> float64 -> Z)
    (format_id : IP -> Z -> string) (UnitIDStart Port Count : Z) (ips : list IP)
    : list Slave :=
  imap (fun idx ip =>
          NewSlave impl_conv (format_id ip Port) Port
            [WithUnitID (unitID UnitIDStart (Z.of_nat idx)); WithLogger])
       (take (Z.to_nat Count) ips).

(** ** Requests *)

(** The eight operations of a [RequestHandler] as one type, and the error
    and handler each leaves behind. *)
Inductive request : Type :=
| ReqReadCoils (address quantity : Z)
| ReqReadDiscreteInputs (address quantity : Z)
| ReqReadHoldingRegisters (address quantity : Z)
| ReqReadInputRegisters (address quantity : Z)
| ReqWriteSingleCoil (address : Z) (value : bool)
| ReqWriteSingleRegister (address value : Z)
| ReqWriteMultipleCoils (address : Z) (values : list bool)
| ReqWriteMultipleRegisters (address : Z) (values : list Z).

Definition outcome_of {A} (c : completion ((A * option error) * RequestHandler))
    : completion (option error * RequestHandler) :=
  match c with
  | Panics => Panics
  | Returns (r, h) => Returns (snd r, h)
  end.

Definition handle (env : CallEnv) (req : request) (h : RequestHandler)
    : completion (option error * RequestHandler) :=
  match req with
  | ReqReadCoils a q => outcome_of (HandleReadCoils env a q h)
  | ReqReadDiscreteInputs a q => outcome_of (HandleReadDiscreteInputs env a q h)
  | ReqReadHoldingRegisters a q => outcome_of (HandleReadHoldingRegisters env a q h)
  | ReqReadInputRegisters a q => outcome_of (HandleReadInputRegisters env a q h)
  | ReqWriteSingleCoil a v => HandleWriteSingleCoil env a v h
  | ReqWriteSingleRegister a v => HandleWriteSingleRegister env a v h
  | ReqWriteMultipleCoils a vs => HandleWriteMultipleCoils env a vs h
  | ReqWriteMultipleRegisters a vs => HandleWriteMultipleRegisters env a vs h
  end.

(** The byte counts a handler passes to [recordRequest] when the request
    succeeds. *)
Definition recorded_sizes (req : request) : Z * Z :=
  match req with
  | ReqReadCoils _ q | ReqReadDiscreteInputs _ q => (8, 3 + Z.quot (q + 7) 8)
  | ReqReadHoldingRegisters _ q | ReqReadInputRegisters _ q => (8, 3 + q * 2)
  | ReqWriteSingleCoil _ _ | ReqWriteSingleRegister _ _ => (8, 8)
  | ReqWriteMultipleCoils _ vs => (9 + Z.quot (len vs + 7) 8, 8)
  | ReqWriteMultipleRegisters _ vs => (9 + len vs * 2, 8)
  end.

(** The length of the request PDU on the wire (function code and data), as
    the protocol tables give it. *)
Definition pdu_length (req : request) : Z :=
  match req with
  | ReqWriteMultipleCoils _ vs => 6 + Z.quot (len vs + 7) 8
  | ReqWriteMultipleRegisters _ vs => 6 + len vs * 2
  | _ => 5
  end.

(** What a request does to the register map once the handler processes
    it: the error it ends with and the map afterwards. *)
Definition apply_request (req : request) (rm : RegisterMap) : option error * RegisterMap :=
  let refused (a : Z) :=
    match definitions rm !! a with
    | Some m => negb (Writable m)
    | None => false
    end in
  match req with
  | ReqReadCoils a q => let '(r, rm') := ReadCoils a q rm in (snd r, rm')
  | ReqReadDiscreteInputs a q => let '(r, rm') := ReadDiscreteInputs a q rm in (snd r, rm')
  | ReqReadHoldingRegisters a q => let '(r, rm') := ReadHoldingRegisters a q rm in (snd r, rm')
  | ReqReadInputRegisters a q => let '(r, rm') := ReadInputRegisters a q rm in (snd r, rm')
  | ReqWriteSingleCoil a v =>
      if refused a then (Some (ModbusError ExceptionCodeIllegalDataAddress), rm)
      else WriteCoil a v rm
  | ReqWriteSingleRegister a v =>
      if refused a then (Some (ModbusError ExceptionCodeIllegalDataAddress), rm)
      else WriteHoldingRegister a v rm
  | ReqWriteMultipleCoils a vs => WriteCoils a vs rm
  | ReqWriteMultipleRegisters a vs => WriteHoldingRegisters a vs rm
  end.

(** ** Statements used by the properties *)

Definition elements_from {A} (bank l : list A) (start n : Z) : Prop :=
  len l = n /\
  forall i, 0 <= i < n -> l !! Z.to_nat i = bank !! Z.to_nat (start + i).

Definition bulk_read_spec {A} (space : RegisterType) (bank : list A) (start n : Z)
    (rm : RegisterMap) (r : (option (list A) * option error) * RegisterMap) : Prop :=
  snd r = rm /\
  (len bank < start + n ->
     fst (fst r) = None /\
     exists first last, snd (fst r) = Some (ErrAddressRange space first last)) /\
  (start + n <= len bank ->
     snd (fst r) = None /\
     exists l, fst (fst r) = Some l /\ elements_from bank l start n).

Definition bulk_reads_as_stated : Prop :=
  forall (rm : RegisterMap) (a n : Z),
    0 <= a < 65536 -> 0 <= n < 65536 ->
    len (holdingRegisters rm) < a + n ->
    exists e, snd (fst (ReadHoldingRegisters a n rm)) = Some e.


Definition int64_range (z : Z) : Prop := - 2 ^ 63 <= z < 2 ^ 63.

Definition stop_as_stated : Prop :=
  forall s : Slave, state s <> SlaveStateRunning ->
    exists e, fst (fst (Stop s)) = Some e.

Definition counters_sizes_as_stated : Prop :=
  forall env req h h',
    handle env req h = Returns (None, h') ->
    shouldDropPacket env h = false ->
    BytesReceived (stats (slave h')) =
      wrap_uint64 (BytesReceived (stats (slave h)) + (7 + pdu_length req)).

Definition counters_drop_as_stated : Prop :=
  forall env req h err h',
    handle env req h = Returns (err, h') ->
    shouldDropPacket env h = true ->
    ErrorCount (stats (slave h')) = wrap_uint64 (ErrorCount (stats (slave h)) + 1).

Definition write_protection_as_stated : Prop :=
  forall env h a v meta,
    definitions (registers (slave h)) !! a = Some meta ->
    Writable meta = false ->
    exists h',
      HandleWriteSingleRegister env a v h =
        Returns (Some (ModbusError ExceptionCodeIllegalDataAddress), h').

Definition jitter_as_stated : Prop :=
  forall env h,
    int64_range (jitterMin h) -> int64_range (jitterMax h) ->
    jitterEnabled h = true -> jitterMin h < jitterMax h ->
    applyJitter env h <> Panics.

Definition test_slave : Slave :=
  mkSlave "127.0.0.1:502" 502 1 SlaveStateStopped
    (snd (DefineRegister 40001 "LineVoltage" DataTypeUint16 (f64_of_Z 10) "V" false
            (NewRegisterMap 4 4 4 4)))
    None (mkSlaveStats 0 0 0 0 0 0) ScenarioNormal false.

Definition test_env : CallEnv := mkCallEnv 12345 (S754_zero false) 1000.

Definition lossy_handler : RequestHandler :=
  SetPacketLoss (f64_lit 1 2) (NewRequestHandler test_slave).

Definition int_in_range (t : IntType) (z : Z) : Prop :=
  match t with
  | TUint16 => 0 <= z < 2 ^ 16
  | TInt16 => - 2 ^ 15 <= z < 2 ^ 15
  | TUint32 => 0 <= z < 2 ^ 32
  | TInt32 => - 2 ^ 31 <= z < 2 ^ 31
  end.

Definition decode32 (meta : RegisterMeta) (raw : Z) : float64 :=
  match MetaDataType meta with
  | DataTypeInt32 => f64_div (f64_of_Z (wrap_int32 raw)) (Scale meta)
  | DataTypeFloat32 => f64_of_f32 (Float32frombits raw)
  | _ => f64_div (f64_of_Z raw) (Scale meta)
  end.

Definition multi_word_as_stated : Prop :=
  forall impl_conv (rm : RegisterMap) (a : Z) (meta : RegisterMeta) (v : float64),
    0 <= a < 65536 ->
    definitions rm !! a = Some meta ->
    RegisterCount (MetaDataType meta) = 2 ->
    holdingIndex a < len (holdingRegisters rm) ->
    let '(err, rm') := SetScaledValue impl_conv a v rm in
    err = None /\
    word32 (holdingRegisters rm' !!! Z.to_nat (holdingIndex a))
           (holdingRegisters rm' !!! Z.to_nat (holdingIndex a + 1)) = raw32 impl_conv meta v.

Definition edge_map : RegisterMap :=
  snd (DefineRegister 3 "Edge" DataTypeUint32 (f64_of_Z 1) "" true (NewRegisterMap 4 4 4 4)).

(** ** Rounding, for the float lemmas *)

Section FormatDefs.

Variables prec emax : Z.

(** What [binary_round_aux] returns from the integer [m2] it rounded to, at
    exponent [e1]. *)
Definition packed (sx : bool) (m2 e1 : Z) (r : spec_float) : Prop :=
  (m2 = 0 /\ r = S754_zero sx) \/
  (exists m3 e3,
     0 < m2 /\ Z.pos m3 * 2 ^ (e3 - e1) = m2 /\ e1 <= e3 /\
     canonical_mantissa prec emax m3 e3 = true /\
     ((r = S754_finite sx m3 e3 /\ e3 <= emax - prec) \/
      (r = S754_infinity sx /\ emax - prec < e3))).

End FormatDefs.

(** Rounding half away from zero ([math.Round]) of a finite float, as the
    specification's [round]. *)
Definition f64_round (f : float64) : option Z :=
  match f with
  | S754_zero _ => Some 0
  | S754_finite s m e => Some (cond_Zopp s ((Z.shiftl (Z.pos m) (e + 1) + 1) / 2))
  | S754_infinity _ | S754_nan => None
  end.

(** The result has sign [sx] and is not a NaN. *)
Definition signed_as (sx : bool) (r : spec_float) : Prop :=
  match r with
  | S754_zero s | S754_infinity s | S754_finite s _ _ => s = sx
  | S754_nan => False
  end.

Definition quantisation_as_stated : Prop :=
  forall impl_conv (rm : RegisterMap) (a : Z) (meta : RegisterMeta) (x : float64),
    0 <= a < 65536 ->
    definitions rm !! a = Some meta ->
    MetaDataType meta = DataTypeUint16 ->
    holdingIndex a < len (holdingRegisters rm) ->
    let s := Scale meta in
    f64_ltb f64_zero s = true ->
    f64_leb f64_zero x = true ->
    f64_leb (f64_mul x s) (f64_of_Z 65535) = true ->
    let rm' := snd (SetScaledValue impl_conv a x rm) in
    let got := fst (fst (GetScaledValue a rm')) in
    exists r, f64_round (f64_mul x s) = Some r /\
      f64_ltb (SFabs (f64_sub got (f64_div (f64_of_Z r) s))) (f64_div f64_one s) = true.

Definition unit_scale_map : RegisterMap :=
  snd (DefineRegister 2 "Raw" DataTypeUint16 (f64_of_Z 1) "" true (NewRegisterMap 4 4 4 4)).

(** Zero, a positive finite float or +infinity. *)
Definition f64_nonneg (f : float64) : bool :=
  match f with
  | S754_zero _ => true
  | S754_finite s _ _ | S754_infinity s => negb s
  | S754_nan => false
  end.

(** Zero or a positive finite float. *)
Definition f64_nonneg_fin (f : float64) : bool :=
  match f with
  | S754_zero _ => true
  | S754_finite s _ _ => negb s
  | _ => false
  end.

(** ** Runs of scenario ticks *)

(** One tick: what the surroundings give it and the configured
    parameters of the scenario. *)
Definition tick : Type := TickEnv * ScenarioParams.

(** The parameters the normal update receives under each scenario type. *)
Definition inner_params (ty : ScenarioType) (params : ScenarioParams) : ScenarioParams :=
  match ty with
  | ScenarioNormal => params
  | _ => params_inner
  end.

Section Runs.

Variable impl_conv : IntType -> float64 -> Z.

Definition step (ty : ScenarioType) (t : tick) (st : Handlers * RegisterMap)
    : Handlers * RegisterMap :=
  Update impl_conv ty (fst t) (snd t) (fst st) (snd st).

Definition run (ty : ScenarioType) (ticks : list tick) (st : Handlers * RegisterMap)
    : Handlers * RegisterMap :=
  foldl (fun st t => step ty t st) st ticks.

(** [P] holds of every tick of the run, at the state the tick starts
    from. *)
Fixpoint ticks_hold (P : ScenarioType -> tick -> Handlers -> bool) (ty : ScenarioType)
    (ticks : list tick) (st : Handlers * RegisterMap) : Prop :=
  match ticks with
  | [] => True
  | t :: rest => P ty t (fst st) = true /\ ticks_hold P ty rest (step ty t st)
  end.

End Runs.

(** [rand.Float64()] returns a float in [[0, 1)]. *)
Definition draw_ok (r : float64) : bool :=
  valid_binary 53 1024 r && f64_leb f64_zero r && f64_ltb r f64_one.

Definition draws_ok (env : TickEnv) : bool :=
  draw_ok (rand_voltage env) && draw_ok (rand_frequency env) && draw_ok (rand_current env).

(** The elapsed time of the tick is zero or positive: the clock read by
    [time.Since] is not before the last update. *)
Definition elapsed_ok (ty : ScenarioType) (t : tick) (hs : Handlers) : bool :=
  lastUpdate (Normal_init (fst t) (accumulator ty hs)) <=? now_since (fst t).

(** What the statement of the energy property takes for granted of a
    tick: draws in [[0, 1)] and a non-negative elapsed time. *)
Definition tick_given (ty : ScenarioType) (t : tick) (hs : Handlers) : bool :=
  draws_ok (fst t) && elapsed_ok ty t hs.

(** The voltage variance the normal scenario is configured with is a
    number from 0 to 1 (0 standing for the default); the other scenarios
    hand the normal update their own fixed variance. *)
Definition variance_ok (ty : ScenarioType) (params : ScenarioParams) : bool :=
  match ty with
  | ScenarioNormal =>
      let v := VoltageVariance params in
      valid_binary 53 1024 v && f64_leb f64_zero v && f64_leb v f64_one
  | _ => true
  end.

Definition tick_ok (ty : ScenarioType) (t : tick) (hs : Handlers) : bool :=
  tick_given ty t hs && variance_ok ty (snd t).

(** The base values of an accumulator are still unset, or are the ones
    the first update sets. *)
Definition standard_bases (n : NormalScenario) : Prop :=
  f64_eqb (baseVoltage n) f64_zero = true \/
  (baseVoltage n = f64_of_Z 220 /\ baseCurrent n = f64_lit 155 10).

(** Address 40004 is defined as the map's energy meter: U32, scale 1, both
    words inside the holding space. *)
Definition energy_register_defined (rm : RegisterMap) : Prop :=
  exists meta,
    definitions rm !! 40004 = Some meta /\
    MetaDataType meta = DataTypeUint32 /\
    Scale meta = f64_one /\
    4 < len (holdingRegisters rm).

(** The accumulator of the scenario holds a non-negative energy and the
    TotalEnergy register shows it. *)
Definition meter_state (impl_conv : IntType -> float64 -> Z) (ty : ScenarioType)
    (st : Handlers * RegisterMap) : Prop :=
  let e := energy (accumulator ty (fst st)) in
  valid_binary 53 1024 e = true /\
  f64_nonneg e = true /\
  energy_register_defined (snd st) /\
  TotalEnergy_raw (snd st) = float_to_int impl_conv TUint32 e.

Definition energy_as_stated : Prop :=
  forall impl_conv (ty : ScenarioType) (before ticks : list tick),
    let st0 := (init_Handlers, DefaultRegisterMap impl_conv) in
    let mid := run impl_conv ty before st0 in
    let final := run impl_conv ty ticks mid in
    ticks_hold impl_conv tick_given ty (before ++ ticks) st0 ->
    f64_leb (energy (accumulator ty (fst mid))) (energy (accumulator ty (fst final))) = true /\
    TotalEnergy_raw (snd mid) <= TotalEnergy_raw (snd final).

(** Ticks for the examples: the voltage draw and the clock in hours, the
    same at every reading of the tick. *)
Definition tick_at (rv : float64) (hours : Z) (params : ScenarioParams) : tick :=
  let now := hours * Hour in
  (mkTickEnv now now rv (f64_lit 1 2) (f64_lit 1 2) now now now, params).

Definition params_wide : ScenarioParams :=
  mkScenarioParams true 0 (f64_of_Z 2) f64_zero 0 0 f64_zero.

Definition impl_zero : IntType -> float64 -> Z := fun _ _ => 0.

(** ** Bounds on floats *)

(** [|x| <= 2^k], for a zero or finite [x]. *)
Definition le_pow2 (k : Z) (x : float64) : Prop :=
  match x with
  | S754_zero _ => True
  | S754_finite _ m e => e <= k /\ Z.pos m <= 2 ^ (k - e)
  | _ => False
  end.

(** [|x| < 2^k], for a zero or finite [x]. *)
Definition lt_pow2 (k : Z) (x : float64) : Prop :=
  match x with
  | S754_zero _ => True
  | S754_finite _ m e => Zdigits2 (Z.pos m) + e <= k
  | _ => False
  end.

(** ** Wire encodings of registers and coils *)

(** [binary.BigEndian.PutUint16(b[off:], v)]: [b[0] = byte(v >> 8)], then
    [b[1] = byte(v)]. *)
Definition PutUint16 (b : list Z) (off : nat) (v : Z) : list Z :=
  <[S off := wrap_uint8 v]> (<[off := wrap_uint8 (Z.shiftr v 8)]> b).

(** [binary.BigEndian.Uint16(b[off:])]: [uint16(b[1]) | uint16(b[0])<<8]. *)
Definition Uint16 (b : list Z) (off : nat) : Z :=
  Z.lor (b !!! S off) (wrap_uint16 (Z.shiftl (b !!! off) 8)).

Definition RegistersToBytes (registers : list Z) : list Z :=
  foldl (fun bytes ir => PutUint16 bytes (fst ir * 2)%nat (snd ir))
        (replicate (length registers * 2)%nat 0)
        (imap (fun i reg => (i, reg)) registers).

Definition BytesToRegisters (data : list Z) : list Z :=
  foldl (fun registers i => <[i := Uint16 data (i * 2)%nat]> registers)
        (replicate (length data / 2)%nat 0)
        (seq 0 (length data / 2)%nat).

Definition CoilsToByte (coils : list bool) : list Z :=
  foldl (fun bytes ic =>
           let i := fst ic in
           if snd ic : bool
           then <[(i / 8)%nat := Z.lor (bytes !!! (i / 8)%nat)
                                    (wrap_uint8 (Z.shiftl 1 (Z.of_nat (i mod 8))))]> bytes
           else bytes)
        (replicate ((length coils + 7) / 8)%nat 0)
        (imap (fun i coil => (i, coil)) coils).

(** [ByteToCoils]: [make] panics on a negative count and [data[i/8]] past
    the end of [data]. *)
Definition ByteToCoils (data : list Z) (count : Z) : completion (list bool) :=
  if count <? 0 then Panics
  else
    foldl (fun acc i =>
             match acc with
             | Panics => Panics
             | Returns coils =>
                 match data !! (i / 8)%nat with
                 | None => Panics
                 | Some b =>
                     Returns (<[i := negb (Z.land b (wrap_uint8 (Z.shiftl 1 (Z.of_nat (i mod 8))))
                                           =? 0)]> coils)
                 end
             end)
          (Returns (replicate (Z.to_nat count) false))
          (seq 0 (Z.to_nat count)).

(** Bit [j] of byte [q] of a packed image of [coils]. *)
Definition coil_bit (coils : list bool) (q : nat) (j : Z) : bool :=
  (0 <=? j) && (j <? 8) && default false (coils !! (q * 8 + Z.to_nat j)%nat).

(** The request counters of two statistics agree. *)
Definition same_counters (a b : SlaveStats) : Prop :=
  RequestCount a = RequestCount b /\ ErrorCount a = ErrorCount b /\
  LastRequestTime a = LastRequestTime b /\
  BytesReceived a = BytesReceived b /\ BytesSent a = BytesSent b.

(** The read function codes (FC 01 to FC 04). *)
Definition is_read (req : request) : bool :=
  match req with
  | ReqReadCoils _ _ | ReqReadDiscreteInputs _ _
  | ReqReadHoldingRegisters _ _ | ReqReadInputRegisters _ _ => true
  | _ => false
  end.

(** ** Scenario names and resets *)

(** The [iota] value of a scenario type. *)
Definition ScenarioType_code (s : ScenarioType) : Z :=
  match s with
  | ScenarioNormal => 0
  | ScenarioVoltageSag => 1
  | ScenarioJitter => 2
  | ScenarioPacketLoss => 3
  end.

(** [ScenarioType.String], on any value of the underlying [int]. *)
Definition ScenarioType_String (s : Z) : string :=
  match s with
  | 0 => "normal"
  | 1 => "voltage_sag"
  | 2 => "jitter"
  | 3 => "packet_loss"
  | _ => "unknown"
  end.

Definition ParseScenarioType (s : string) : Z :=
  if String.eqb s "normal" then 0
  else if String.eqb s "voltage_sag" then 1
  else if String.eqb s "jitter" then 2
  else if String.eqb s "packet_loss" then 3
  else 0.

Section Resets.

Variable impl_conv : IntType -> float64 -> Z.

Definition VoltageSag_Reset (now : Z) (s : VoltageSagScenario) (registers : RegisterMap)
    : VoltageSagScenario * RegisterMap :=
  let s := mkVoltageSagScenario (sag_normalScenario s) None (duration s) (sagFactor s) in
  let '(n, registers) := Normal_Reset impl_conv now (sag_normalScenario s) registers in
  (mkVoltageSagScenario n (startTime s) (duration s) (sagFactor s), registers).

Definition Jitter_Reset (now : Z) (s : JitterScenario) (registers : RegisterMap)
    : JitterScenario * RegisterMap :=
  let '(n, registers) := Normal_Reset impl_conv now (jit_normalScenario s) registers in
  (mkJitterScenario n (jit_jitterMin s) (jit_jitterMax s), registers).

Definition PacketLoss_Reset (now : Z) (s : PacketLossScenario) (registers : RegisterMap)
    : PacketLossScenario * RegisterMap :=
  let '(n, registers) := Normal_Reset impl_conv now (pl_normalScenario s) registers in
  (mkPacketLossScenario n (lossRate s), registers).

(** [GetScenarioHandler(scenario).Reset(registers)] on the registry. *)
Definition Reset (ty : ScenarioType) (now : Z) (hs : Handlers) (registers : RegisterMap)
    : Handlers * RegisterMap :=
  match ty with
  | ScenarioNormal =>
      let '(n, rm) := Normal_Reset impl_conv now (hNormal hs) registers in
      (mkHandlers n (hVoltageSag hs) (hJitter hs) (hPacketLoss hs), rm)
  | ScenarioVoltageSag =>
      let '(v, rm) := VoltageSag_Reset now (hVoltageSag hs) registers in
      (mkHandlers (hNormal hs) v (hJitter hs) (hPacketLoss hs), rm)
  | ScenarioJitter =>
      let '(j, rm) := Jitter_Reset now (hJitter hs) registers in
      (mkHandlers (hNormal hs) (hVoltageSag hs) j (hPacketLoss hs), rm)
  | ScenarioPacketLoss =>
      let '(p, rm) := PacketLoss_Reset now (hPacketLoss hs) registers in
      (mkHandlers (hNormal hs) (hVoltageSag hs) (hJitter hs) p, rm)
  end.

End Resets.

(** The four names [ScenarioType.String] gives to the defined types. *)
Definition scenario_names : list string :=
  ["normal"; "voltage_sag"; "jitter"; "packet_loss"].

(** [rm'] differs from [rm] at most in the holding registers below offset
    [k]. *)
Definition same_outside (k : nat) (rm rm' : RegisterMap) : Prop :=
  coils rm' = coils rm /\ discreteInputs rm' = discreteInputs rm /\
  inputRegisters rm' = inputRegisters rm /\ definitions rm' = definitions rm /\
  length (holdingRegisters rm') = length (holdingRegisters rm) /\
  forall j : nat, (k <= j)%nat -> holdingRegisters rm' !! j = holdingRegisters rm !! j.

(** ** IP ranges *)

(** [incIP]: from the last byte down, [ip[j]++], stopping at the first
    byte that did not wrap to 0.  [n] is [j + 1]. *)
Fixpoint incIP_from (n : nat) (ip : list Z) : list Z :=
  match n with
  | O => ip
  | S j =>
      let ip := <[j := wrap_uint8 (ip !!! j + 1)]> ip in
      if 0 <? ip !!! j then ip else incIP_from j ip
  end.

Definition incIP (ip : list Z) : list Z := incIP_from (length ip) ip.

(** The loop of [expandRange]: a copy of [ip] is appended and [ip]
    incremented until it equals [endIP]. *)
Fixpoint expandRange_loop (fuel : nat) (ip endIP : list Z) (ips : list (list Z))
    : option (list (list Z)) :=
  match fuel with
  | O => None
  | S fuel =>
      if bool_decide (ip = endIP) then Some ips
      else expandRange_loop fuel (incIP ip) endIP (ips ++ [ip])
  end.

(** What [expandRange] returns: the addresses, or its error. *)
Inductive expanded : Type :=
| Addresses (ips : list (list Z))
| InvalidRange.

(** [expandRange]; [startIP] and [endIP] are the results of
    [net.ParseIP(..).To4()], [None] for nil.  The result is [None] when
    the fuel runs out. *)
Definition expandRange (fuel : nat) (startIP endIP : option (list Z)) : option expanded :=
  match startIP, endIP with
  | Some s, Some e =>
      match expandRange_loop fuel s e [] with
      | Some ips => Some (Addresses (ips ++ [e]))
      | None => None
      end
  | _, _ => Some InvalidRange
  end.

(** An address as a number, first byte most significant. *)
Definition ip_value (ip : list Z) : Z := foldl (fun acc b => acc * 256 + b) 0 ip.

(** An IPv4 address in its 4-byte form. *)
Definition is_ipv4 (ip : list Z) : Prop :=
  length ip = 4%nat /\ Forall (fun b => 0 <= b < 256) ip.

(** ** Bind addresses *)

Section BindIPs.

Context {IP : Type}.

(** One pass over the local addresses: each is appended until [Count] are
    there. *)
Fixpoint fill_pass (localIPs ips : list IP) (Count : Z) : list IP :=
  match localIPs with
  | [] => ips
  | ip :: rest =>
      if Count <=? len ips then ips else fill_pass rest (ips ++ [ip]) Count
  end.

(** [for len(ips) < Count { ...one pass...; if len(ips) == 0 { break } }]. *)
Fixpoint fill_loop (fuel : nat) (localIPs ips : list IP) (Count : Z) : option (list IP) :=
  match fuel with
  | O => None
  | S fuel =>
      if len ips <? Count
      then
        let ips := fill_pass localIPs ips Count in
        if len ips =? 0 then Some ips else fill_loop fuel localIPs ips Count
      else Some ips
  end.

(** [getBindIPs] when no IP range is configured, from the addresses
    [getLocalIPs] returned; [anyIP] is [0.0.0.0].  [make] panics on a
    negative capacity.  [None] when the fuel runs out. *)
Definition getBindIPs_local (fuel : nat) (anyIP : IP) (localIPs : list IP) (Count : Z)
    : option (completion (list IP)) :=
  if len localIPs =? 0 then Some (Returns [anyIP])
  else if Count <? 0 then Some Panics
  else
    match fill_loop fuel localIPs [] Count with
    | Some ips => Some (Returns ips)
    | None => None
    end.

(** Address [i] of [ips] is local address [i mod k]. *)
Definition cyclic (localIPs ips : list IP) : Prop :=
  forall i : nat, (i < length ips)%nat ->
    ips !! i = localIPs !! (i mod length localIPs)%nat.

End BindIPs.

(** ** Validation *)

(** [IPRange]; the fields [Start], [End] and [CIDR] carry the prefix
    [Range_], [Start] being the slave's method and [End] a keyword. *)
Record IPRange : Type := mkIPRange {
  Range_Start : string;
  Range_End : string;
  Range_CIDR : string
}.

(** The fields of [Config] that [Validate] reads. *)
Record Config : Type := mkConfig {
  Server_Port : Z;
  Slaves_Count : Z;
  Network_IPRanges : list IPRange
}.

Inductive range_error : Type :=
| ErrInvalidCIDR (cidr : string)
| ErrStartEndRequired
| ErrInvalidStartIP (start : string)
| ErrInvalidEndIP (end_ : string).

Inductive config_error : Type :=
| ErrInvalidPort (port : Z)
| ErrCountTooSmall
| ErrCountTooLarge
| ErrIPRange (e : range_error).

Section Validation.

(** [net.ParseCIDR] returned no error; [net.ParseIP] returned an
    address. *)
Variable ParseCIDR_ok : string -> bool.
Variable ParseIP_ok : string -> bool.

Definition IPRange_Validate (r : IPRange) : option range_error :=
  if negb (String.eqb (Range_CIDR r) "")
  then
    if ParseCIDR_ok (Range_CIDR r) then None else Some (ErrInvalidCIDR (Range_CIDR r))
  else if String.eqb (Range_Start r) "" || String.eqb (Range_End r) "" then Some ErrStartEndRequired
  else if negb (ParseIP_ok (Range_Start r)) then Some (ErrInvalidStartIP (Range_Start r))
  else if negb (ParseIP_ok (Range_End r)) then Some (ErrInvalidEndIP (Range_End r))
  else None.

(** The loop over the ranges: the first error ends it. *)
Fixpoint validate_ranges (ranges : list IPRange) : option range_error :=
  match ranges with
  | [] => None
  | r :: rest =>
      match IPRange_Validate r with
      | Some e => Some e
      | None => validate_ranges rest
      end
  end.

Definition Config_Validate (c : Config) : option config_error :=
  if (Server_Port c <? 1) || (65535 <? Server_Port c)
  then Some (ErrInvalidPort (Server_Port c))
  else if Slaves_Count c <? 1 then Some ErrCountTooSmall
  else if 10000 <? Slaves_Count c then Some ErrCountTooLarge
  else
    match validate_ranges (Network_IPRanges c) with
    | Some e => Some (ErrIPRange e)
    | None => None
    end.

(** [BaseProvisioner.Validate]. *)
Definition BaseProvisioner_Validate (ranges : list IPRange) : option range_error :=
  validate_ranges ranges.

(** What makes a range acceptable. *)
Definition range_ok (r : IPRange) : Prop :=
  (Range_CIDR r <> "" /\ ParseCIDR_ok (Range_CIDR r) = true) \/
  (Range_CIDR r = "" /\ Range_Start r <> "" /\ Range_End r <> "" /\
   ParseIP_ok (Range_Start r) = true /\ ParseIP_ok (Range_End r) = true).

End Validation.

(** * Properties *)

Lemma len_nonneg {A} (l : list A) : 0 <= len l.
Proof. unfold len. lia. Qed.

Lemma holdingIndex_range a : 0 <= a < 65536 -> 0 <= holdingIndex a < 65536.
Proof.
  intros Ha. unfold holdingIndex, wrap_uint16.
  destruct (40001 <=? a) eqn:E.
  - apply Z.leb_le in E. rewrite Z.mod_small by lia. lia.
  - lia.
Qed.

Lemma copy_make {A} (z : A) (src : list A) :
  copy (replicate (length src) z) src = src.
Proof.
  unfold copy. rewrite length_replicate, firstn_all.
  rewrite drop_ge by (rewrite length_replicate; lia).
  apply app_nil_r.
Qed.

Lemma slice_length {A} (l : list A) lo hi :
  0 <= lo -> lo <= hi -> hi <= len l -> len (slice l lo hi) = hi - lo.
Proof.
  unfold len, slice. intros. rewrite length_take, length_drop. lia.
Qed.

Lemma slice_lookup {A} (l : list A) lo hi i :
  0 <= lo -> 0 <= i < hi - lo ->
  slice l lo hi !! Z.to_nat i = l !! Z.to_nat (lo + i).
Proof.
  unfold slice. intros. rewrite lookup_take_lt by lia.
  rewrite lookup_drop. f_equal. lia.
Qed.

Lemma bulk_read_make {A} (z : A) (bank : list A) start n :
  0 <= start -> 0 <= n -> start + n <= len bank ->
  elements_from bank
    (copy (replicate (Z.to_nat n) z) (slice bank start (start + n))) start n.
Proof.
  intros Hs Hn Hb.
  assert (Hl : len (slice bank start (start + n)) = n)
    by (rewrite slice_length; lia).
  assert (Z.to_nat n = length (slice bank start (start + n))) as ->
    by (unfold len in Hl; lia).
  rewrite copy_make. split; [exact Hl|].
  intros i Hi. apply slice_lookup; lia.
Qed.

(** C1. On every map, a single write to an accepted holding address
    succeeds, reading the same address back returns the value written and
    every other cell of the map is as before; and, on every map, the same
    holds of a single write to an in-range coil.  Each of the two holds on
    its own, whatever the size of the other space. *)
Theorem read_back_round_trip (rm : RegisterMap) :
  (forall a v : Z,
     0 <= a < 65536 -> 0 <= v <= 65535 ->
     holdingIndex a < len (holdingRegisters rm) ->
     exists rm',
       WriteHoldingRegister a v rm = (None, rm') /\
       ReadHoldingRegister a rm' = ((v, None), rm') /\
       coils rm' = coils rm /\ discreteInputs rm' = discreteInputs rm /\
       inputRegisters rm' = inputRegisters rm /\ definitions rm' = definitions rm /\
       length (holdingRegisters rm') = length (holdingRegisters rm) /\
       forall j : nat, j <> Z.to_nat (holdingIndex a) ->
         holdingRegisters rm' !! j = holdingRegisters rm !! j) /\
  (forall (ac : Z) (b : bool),
     0 <= ac < 65536 -> ac < len (coils rm) ->
     exists rm',
       WriteCoil ac b rm = (None, rm') /\
       ReadCoil ac rm' = ((b, None), rm') /\
       holdingRegisters rm' = holdingRegisters rm /\ discreteInputs rm' = discreteInputs rm /\
       inputRegisters rm' = inputRegisters rm /\ definitions rm' = definitions rm /\
       length (coils rm') = length (coils rm) /\
       forall j : nat, j <> Z.to_nat ac -> coils rm' !! j = coils rm !! j).
Proof.
  split.
  - intros a v Ha Hv Hidx.
    pose proof (holdingIndex_range a Ha) as Hr.
    eexists. unfold WriteHoldingRegister, ReadHoldingRegister.
    replace (holdingIndex a <? 0) with false by (symmetry; apply Z.ltb_ge; lia).
    replace (len (holdingRegisters rm) <=? holdingIndex a) with false
      by (symmetry; apply Z.leb_gt; lia).
    cbn [orb]. split; [reflexivity|]. cbn [holdingRegisters set_holdingRegisters].
    unfold len. rewrite length_insert.
    replace (Z.of_nat (length (holdingRegisters rm)) <=? holdingIndex a) with false
      by (symmetry; apply Z.leb_gt; unfold len in Hidx; lia).
    cbn [orb].
    rewrite list_lookup_total_insert_eq by (unfold len in Hidx; lia).
    repeat split; try reflexivity.
    intros j Hj. apply list_lookup_insert_ne. congruence.
  - intros ac b Hac Hlen.
    eexists. unfold WriteCoil, ReadCoil.
    replace (len (coils rm) <=? ac) with false by (symmetry; apply Z.leb_gt; lia).
    split; [reflexivity|]. cbn [coils set_coils].
    unfold len. rewrite length_insert.
    replace (Z.of_nat (length (coils rm)) <=? ac) with false
      by (symmetry; apply Z.leb_gt; unfold len in Hlen; lia).
    rewrite list_lookup_total_insert_eq by (unfold len in Hlen; lia).
    repeat split; try reflexivity.
    intros j Hj. apply list_lookup_insert_ne. congruence.
Qed.

Lemma read_back_round_trip_witness :
  (exists rm',
     WriteHoldingRegister 40002 4660 (NewRegisterMap 0 4 4 4) = (None, rm') /\
     ReadHoldingRegister 40002 rm' = ((4660, None), rm')) /\
  (exists rm',
     WriteCoil 0 true (NewRegisterMap 4 4 4 0) = (None, rm') /\
     ReadCoil 0 rm' = ((true, None), rm')).
Proof.
  destruct (read_back_round_trip (NewRegisterMap 0 4 4 4)) as [H1 _].
  destruct (read_back_round_trip (NewRegisterMap 4 4 4 0)) as [_ H2].
  destruct (H1 40002 4660) as (rm1 & W1 & R1 & _); [lia | lia | vm_compute; reflexivity|].
  destruct (H2 0 true) as (rm2 & W2 & R2 & _); [lia | vm_compute; reflexivity|].
  split; [exists rm1 | exists rm2]; split; assumption.
Defined.

Lemma bulk_read_generic {A} (z : A) space (bank : list A) start n rm first last :
  0 <= start -> 0 <= n ->
  bulk_read_spec space bank start n rm
    (if len bank <? start + n
     then ((None, Some (ErrAddressRange space first last)), rm)
     else ((Some (copy (replicate (Z.to_nat n) z) (slice bank start (start + n))), None), rm)).
Proof.
  intros Hs Hn. unfold bulk_read_spec.
  destruct (len bank <? start + n) eqn:E; cbn [fst snd].
  - apply Z.ltb_lt in E. split; [reflexivity|]. split.
    + intros _. split; [reflexivity|]. eauto.
    + lia.
  - apply Z.ltb_ge in E. split; [reflexivity|]. split.
    + lia.
    + intros _. split; [reflexivity|]. eexists. split; [reflexivity|].
      apply bulk_read_make; lia.
Qed.

Lemma bulk_reads_as_stated_fails : ~ bulk_reads_as_stated.
Proof.
  intros H.
  destruct (H (NewRegisterMap 10000 10000 10000 10000) 40001 1) as [e He];
    [lia | lia | vm_compute; reflexivity | ].
  vm_compute in He. discriminate He.
Qed.

(** C2 (amended). Each bulk read leaves the map as it is.  Coils, discrete
    inputs and input registers are bounded by [a + n] against the size of
    their space; holding registers are bounded by [holdingIndex a + n], the
    address being translated first.  Out of range the read returns the
    map's address-range error and no data; in range it returns exactly the
    [n] stored elements from the (translated) offset on. *)
Theorem bulk_reads_bounds (rm : RegisterMap) (a n : Z) :
  0 <= a < 65536 -> 0 <= n < 65536 ->
  bulk_read_spec RegisterTypeCoil (coils rm) a n rm (ReadCoils a n rm) /\
  bulk_read_spec RegisterTypeDiscreteInput (discreteInputs rm) a n rm
    (ReadDiscreteInputs a n rm) /\
  bulk_read_spec RegisterTypeInputRegister (inputRegisters rm) a n rm
    (ReadInputRegisters a n rm) /\
  bulk_read_spec RegisterTypeHoldingRegister (holdingRegisters rm) (holdingIndex a) n rm
    (ReadHoldingRegisters a n rm).
Proof.
  intros Ha Hn. pose proof (holdingIndex_range a Ha) as Hr.
  split; [|split; [|split]].
  1-3: apply bulk_read_generic; lia.
  unfold ReadHoldingRegisters.
  replace (holdingIndex a <? 0) with false by (symmetry; apply Z.ltb_ge; lia).
  cbn [orb]. apply bulk_read_generic; lia.
Qed.

Lemma bulk_reads_bounds_witness :
  bulk_read_spec RegisterTypeHoldingRegister
    (holdingRegisters (NewRegisterMap 4 4 4 4)) (holdingIndex 40002) 2
    (NewRegisterMap 4 4 4 4) (ReadHoldingRegisters 40002 2 (NewRegisterMap 4 4 4 4)).
Proof.
  apply (bulk_reads_bounds (NewRegisterMap 4 4 4 4) 40002 2); lia.
Defined.

Lemma len_app {A} (l k : list A) : len (l ++ k) = len l + len k.
Proof. unfold len. rewrite length_app. lia. Qed.

Lemma copy_same_length {A} (dst src : list A) :
  length dst = length src -> copy dst src = src.
Proof.
  intros H. unfold copy. rewrite H, firstn_all, <- H, drop_all. apply app_nil_r.
Qed.

Lemma copy_into_slice {A} (l : list A) lo (src : list A) :
  0 <= lo -> lo + len src <= len l ->
  slice (copy_into l lo (lo + len src) src) lo (lo + len src) = src /\
  length (copy_into l lo (lo + len src) src) = length l.
Proof.
  unfold len. intros Hlo Hhi. unfold copy_into.
  assert (Hs : length (slice l lo (lo + Z.of_nat (length src))) = length src).
  { unfold slice. rewrite length_take, length_drop. lia. }
  rewrite (copy_same_length _ _ Hs).
  assert (Ht : length (take (Z.to_nat lo) l) = Z.to_nat lo)
    by (rewrite length_take; lia).
  split.
  - unfold slice. rewrite drop_app_length' by (symmetry; exact Ht).
    replace (Z.to_nat (lo + Z.of_nat (length src) - lo)) with (length src) by lia.
    apply take_app_length.
  - rewrite !length_app, Ht, length_drop. lia.
Qed.

Lemma with_registers_twice h rm rm' :
  with_registers (with_registers h rm) rm' = with_registers h rm'.
Proof. reflexivity. Qed.

Lemma handle_frame env req h :
  handle env req h =
  match applyJitter env h with
  | Panics => Panics
  | Returns _ =>
      if shouldDropPacket env h then Returns (None, h)
      else
        let '(err, rm) := apply_request req (registers (slave h)) in
        match err with
        | Some e => Returns (Some e, record env 0 0 true (with_registers h rm))
        | None =>
            Returns (None, record env (fst (recorded_sizes req)) (snd (recorded_sizes req))
                             false (with_registers h rm))
        end
  end.
Proof.
  destruct req; cbn [handle apply_request recorded_sizes fst snd];
    unfold HandleReadCoils, HandleReadDiscreteInputs, HandleReadHoldingRegisters,
      HandleReadInputRegisters, HandleWriteSingleCoil, HandleWriteSingleRegister,
      HandleWriteMultipleCoils, HandleWriteMultipleRegisters;
    (destruct (applyJitter env h) as [d|]; [|reflexivity]);
    (destruct (shouldDropPacket env h); [reflexivity|]).
  - destruct (ReadCoils address quantity (registers (slave h))) as [[r [e|]] rm]; reflexivity.
  - destruct (ReadDiscreteInputs address quantity (registers (slave h))) as [[r [e|]] rm];
      reflexivity.
  - destruct (ReadHoldingRegisters address quantity (registers (slave h))) as [[r [e|]] rm];
      reflexivity.
  - destruct (ReadInputRegisters address quantity (registers (slave h))) as [[r [e|]] rm];
      reflexivity.
  - unfold GetDefinition.
    destruct (definitions (registers (slave h)) !! address) as [m|];
      [destruct (negb (Writable m)); [reflexivity|]|];
      cbn [registers slave with_registers set_slave set_registers];
      destruct (WriteCoil address value (registers (slave h))) as [[e|] rm]; reflexivity.
  - unfold GetDefinition.
    destruct (definitions (registers (slave h)) !! address) as [m|];
      [destruct (negb (Writable m)); [reflexivity|]|];
      cbn [registers slave with_registers set_slave set_registers];
      destruct (WriteHoldingRegister address value (registers (slave h))) as [[e|] rm];
      reflexivity.
  - destruct (WriteCoils address values (registers (slave h))) as [[e|] rm]; reflexivity.
  - destruct (WriteHoldingRegisters address values (registers (slave h))) as [[e|] rm];
      reflexivity.
Qed.

Lemma handle_panics_iff env req h :
  handle env req h = Panics <-> applyJitter env h = Panics.
Proof.
  rewrite handle_frame. destruct (applyJitter env h) as [d|]; [|tauto].
  split; [|discriminate].
  destruct (shouldDropPacket env h); [discriminate|].
  destruct (apply_request req (registers (slave h))) as [[e|] rm]; discriminate.
Qed.

Lemma applyJitter_panics_iff env h :
  applyJitter env h = Panics <->
  jitterEnabled h = true /\ wrap_int64 (jitterMax h - jitterMin h) <= 0.
Proof.
  unfold applyJitter, Int63n.
  destruct (jitterEnabled h); cbn [negb].
  - destruct (wrap_int64 (jitterMax h - jitterMin h) <=? 0) eqn:E.
    + apply Z.leb_le in E. split; [intros _; split; [reflexivity | exact E] | reflexivity].
    + apply Z.leb_gt in E. split; [discriminate | intros [_ ?]; lia].
  - split; [discriminate | intros [? _]; discriminate].
Qed.

Lemma wrap_int64_small z : - 2 ^ 63 <= z < 2 ^ 63 -> wrap_int64 z = z.
Proof.
  intros H. unfold wrap_int64, wrap_signed.
  change (64 - 1) with 63. rewrite Z.mod_small; lia.
Qed.

(** C6 (amended). [Start] from Stopped writes Starting then Running when
    the bind succeeds, Starting then Stopped (and returns the listen error)
    when it fails; from any other state it returns an error and changes
    nothing.  [Stop] from Running writes Stopping then Stopped; from any
    other state it changes nothing, and it returns no error in every
    case. *)
Theorem lifecycle_transitions (s : Slave) (listen : option string) (now : Z) :
  (let '(err, s', writes) := Start listen now s in
   match state s, listen with
   | SlaveStateStopped, None =>
       err = None /\ state s' = SlaveStateRunning /\
       writes = [SlaveStateStarting; SlaveStateRunning]
   | SlaveStateStopped, Some cause =>
       err = Some (ErrListen cause) /\ state s' = SlaveStateStopped /\
       writes = [SlaveStateStarting; SlaveStateStopped]
   | _, _ => err = Some ErrAlreadyRunning /\ s' = s /\ writes = []
   end) /\
  (let '(err, s', writes) := Stop s in
   err = None /\
   match state s with
   | SlaveStateRunning =>
       state s' = SlaveStateStopped /\ writes = [SlaveStateStopping; SlaveStateStopped]
   | _ => s' = s /\ writes = []
   end).
Proof.
  unfold Start, Stop, CompareAndSwap, Store.
  destruct s as [id port uid st rm srv sts sc upd].
  destruct st, listen; cbn; repeat split; try reflexivity.
  all: destruct srv; cbn; reflexivity.
Qed.

Lemma stop_as_stated_fails : ~ stop_as_stated.
Proof.
  intros H. destruct (H test_slave) as [e He]; [discriminate|].
  vm_compute in He. discriminate He.
Qed.

Lemma unitID_closed_form (start i : Z) :
  1 <= start <= 255 -> 0 <= i <= 2 ^ 63 - 256 ->
  unitID start i = (start - 1 + i) mod 255 + 1 /\ 1 <= unitID start i <= 255.
Proof.
  intros Hs Hi. unfold unitID.
  rewrite (wrap_int64_small (start + i)) by lia.
  rewrite (wrap_int64_small (start + i - 1)) by lia.
  rewrite Z.rem_mod_nonneg by lia.
  pose proof (Z.mod_pos_bound (start + i - 1) 255 ltac:(lia)) as Hm.
  rewrite wrap_int64_small by lia.
  unfold wrap_uint8. rewrite (Z.mod_small _ (2 ^ 8)) by lia.
  replace (start - 1 + i) with (start + i - 1) by lia. lia.
Qed.

(** C9. With [unit_id_start] in [1, 255], the slave that the start loop
    creates at index [i] is made by [NewSlave] with the unit id
    [((unit_id_start - 1 + i) mod 255) + 1], a value in [1, 255], for the
    address of that index.  (The index of a Go slice stays far below the
    bound that keeps [int] from wrapping.) *)
Theorem unit_id_assignment {IP : Type} (impl_conv : IntType -> float64 -> Z)
    (format_id : IP -> Z -> string) (start port Count : Z) (ips : list IP)
    (i : nat) (ip : IP) :
  1 <= start <= 255 ->
  take (Z.to_nat Count) ips !! i = Some ip ->
  Z.of_nat i <= 2 ^ 63 - 256 ->
  exists s,
    Engine_newSlaves impl_conv format_id start port Count ips !! i = Some s /\
    UnitID s = (start - 1 + Z.of_nat i) mod 255 + 1 /\
    1 <= UnitID s <= 255 /\
    ID s = format_id ip port /\ Port s = port /\ state s = SlaveStateStopped.
Proof.
  intros Hs Hl Hi. unfold Engine_newSlaves.
  rewrite list_lookup_imap, Hl. cbn [fmap option_fmap option_map].
  eexists. split; [reflexivity|].
  unfold NewSlave, WithUnitID, WithLogger. cbn [foldl UnitID ID Port state].
  destruct (unitID_closed_form start (Z.of_nat i) Hs ltac:(lia)) as [E B].
  rewrite E in *. repeat split; try reflexivity; lia.
Qed.

Lemma unit_id_assignment_witness :
  UnitID <$> (Engine_newSlaves (fun _ _ => 0) (fun (ip : string) (_ : Z) => ip) 254 502 3
                ["10.0.0.1"; "10.0.0.2"; "10.0.0.3"; "10.0.0.4"] !! 2%nat) = Some 1.
Proof.
  destruct (unit_id_assignment (fun _ _ => 0) (fun (ip : string) (_ : Z) => ip) 254 502 3
              ["10.0.0.1"; "10.0.0.2"; "10.0.0.3"; "10.0.0.4"] 2%nat "10.0.0.3")
    as (s & Hs & Hu & _); [lia | reflexivity | vm_compute; discriminate |].
  rewrite Hs. cbn. rewrite Hu. reflexivity.
Defined.

(** C10 (amended). A handler call panics exactly when [applyJitter] does,
    and [applyJitter] panics exactly when jitter is enabled and
    [jitterMax - jitterMin], computed in [int64], is not positive.  When
    the difference fits [int64] this is [jitterMax <= jitterMin]. *)
Theorem jitter_precondition (env : CallEnv) (req : request) (h : RequestHandler) :
  (handle env req h = Panics <-> applyJitter env h = Panics) /\
  (applyJitter env h = Panics <->
     jitterEnabled h = true /\ wrap_int64 (jitterMax h - jitterMin h) <= 0) /\
  (- 2 ^ 63 <= jitterMax h - jitterMin h < 2 ^ 63 ->
     (applyJitter env h = Panics <->
        jitterEnabled h = true /\ jitterMax h <= jitterMin h)).
Proof.
  split; [apply handle_panics_iff|]. split; [apply applyJitter_panics_iff|].
  intros Hr. rewrite applyJitter_panics_iff, wrap_int64_small by exact Hr.
  split; intros [? ?]; split; try assumption; lia.
Qed.

Lemma jitter_as_stated_fails : ~ jitter_as_stated.
Proof.
  intros H.
  apply (H test_env (SetJitter true (- 2 ^ 63) 1 (NewRequestHandler test_slave)));
    cbn; unfold int64_range; try lia; reflexivity.
Qed.

Lemma jitter_precondition_witness :
  applyJitter test_env (SetJitter true (500 * Millisecond) (100 * Millisecond)
                          (NewRequestHandler test_slave)) = Panics.
Proof.
  destruct (jitter_precondition test_env (ReqReadCoils 0 1)
              (SetJitter true (500 * Millisecond) (100 * Millisecond)
                 (NewRequestHandler test_slave))) as (_ & _ & H3).
  apply H3.
  - vm_compute. split; [discriminate | reflexivity].
  - split; [reflexivity | vm_compute; discriminate].
Defined.

(** C8 (amended). A call that returns after a drop leaves the handler, and
    so every counter, as it was.  Otherwise the request counter goes up by
    one and the last-request time is the clock; on an error the error
    counter goes up by one and the byte counters by zero; on success the
    error counter stays and the byte counters go up by the sizes the
    handler records for that function code ([recorded_sizes]).  Counters
    wrap at 2^64. *)
Theorem request_counters (env : CallEnv) (req : request) (h : RequestHandler) :
  match handle env req h with
  | Panics => applyJitter env h = Panics
  | Returns (err, h') =>
      let st := stats (slave h) in
      let st' := stats (slave h') in
      if shouldDropPacket env h then err = None /\ h' = h
      else
        RequestCount st' = wrap_uint64 (RequestCount st + 1) /\
        LastRequestTime st' = call_now env /\
        match err with
        | Some _ =>
            ErrorCount st' = wrap_uint64 (ErrorCount st + 1) /\
            BytesReceived st' = wrap_uint64 (BytesReceived st + 0) /\
            BytesSent st' = wrap_uint64 (BytesSent st + 0)
        | None =>
            ErrorCount st' = ErrorCount st /\
            BytesReceived st' =
              wrap_uint64 (BytesReceived st + wrap_uint64 (fst (recorded_sizes req))) /\
            BytesSent st' =
              wrap_uint64 (BytesSent st + wrap_uint64 (snd (recorded_sizes req)))
        end
  end.
Proof.
  rewrite handle_frame.
  destruct (applyJitter env h) as [d|]; [|reflexivity].
  destruct (shouldDropPacket env h); [split; reflexivity|].
  destruct (apply_request req (registers (slave h))) as [[e|] rm]; cbn;
    repeat split; reflexivity.
Qed.

Lemma request_counters_as_stated_fail :
  ~ counters_sizes_as_stated /\ ~ counters_drop_as_stated.
Proof.
  split; intros H.
  - pose (h0 := NewRequestHandler test_slave).
    pose (h1 := match handle test_env (ReqReadCoils 0 1) h0 with
                | Returns (_, h') => h'
                | Panics => h0
                end).
    assert (E : handle test_env (ReqReadCoils 0 1) h0 = Returns (None, h1))
      by (vm_compute; reflexivity).
    specialize (H test_env (ReqReadCoils 0 1) h0 h1 E eq_refl).
    vm_compute in H. discriminate H.
  - assert (E : handle test_env (ReqReadCoils 0 1) lossy_handler = Returns (None, lossy_handler))
      by (vm_compute; reflexivity).
    specialize (H test_env (ReqReadCoils 0 1) lossy_handler None lossy_handler E eq_refl).
    vm_compute in H. discriminate H.
Qed.

(** C3 (amended). When the jitter step returns and the request is not
    dropped, a single write (FC 05, FC 06) to an address whose definition
    is not writable returns [ModbusError] with code 0x02 and leaves the
    registers as they are; the multiple writes (FC 15, FC 16) have no such
    check: in bounds they return no error and store the values. *)
Theorem write_protection (env : CallEnv) (h : RequestHandler) (a v : Z) (b : bool)
    (meta : RegisterMeta) (d : Z) :
  definitions (registers (slave h)) !! a = Some meta ->
  Writable meta = false ->
  applyJitter env h = Returns d ->
  shouldDropPacket env h = false ->
  let rm := registers (slave h) in
  (exists h',
     HandleWriteSingleCoil env a b h =
       Returns (Some (ModbusError ExceptionCodeIllegalDataAddress), h') /\
     registers (slave h') = rm) /\
  (exists h',
     HandleWriteSingleRegister env a v h =
       Returns (Some (ModbusError ExceptionCodeIllegalDataAddress), h') /\
     registers (slave h') = rm) /\
  (forall values : list bool,
     0 <= a -> a + len values <= len (coils rm) ->
     exists h',
       HandleWriteMultipleCoils env a values h = Returns (None, h') /\
       slice (coils (registers (slave h'))) a (a + len values) = values) /\
  (forall values : list Z,
     0 <= a < 65536 -> holdingIndex a + len values <= len (holdingRegisters rm) ->
     exists h',
       HandleWriteMultipleRegisters env a values h = Returns (None, h') /\
       slice (holdingRegisters (registers (slave h')))
         (holdingIndex a) (holdingIndex a + len values) = values).
Proof.
  intros Hdef Hw Hj Hd rm.
  pose proof (handle_frame env (ReqWriteSingleCoil a b) h) as F1.
  pose proof (handle_frame env (ReqWriteSingleRegister a v) h) as F2.
  cbn [handle apply_request] in F1, F2.
  rewrite Hj, Hd, Hdef, Hw in F1, F2. cbn [negb] in F1, F2.
  split; [eexists; split; [exact F1 | destruct h as [[]]; reflexivity]|].
  split; [eexists; split; [exact F2 | destruct h as [[]]; reflexivity]|].
  split.
  - intros values Ha Hb.
    pose proof (handle_frame env (ReqWriteMultipleCoils a values) h) as F.
    cbn [handle apply_request] in F. rewrite Hj, Hd in F.
    unfold WriteCoils in F. fold rm in F.
    replace (len (coils rm) <? a + len values) with false in F
      by (symmetry; apply Z.ltb_ge; lia).
    eexists. split; [exact F|].
    destruct h as [[]]. cbn. apply copy_into_slice; assumption.
  - intros values Ha Hb. pose proof (holdingIndex_range a Ha) as Hr.
    pose proof (handle_frame env (ReqWriteMultipleRegisters a values) h) as F.
    cbn [handle apply_request] in F. rewrite Hj, Hd in F.
    unfold WriteHoldingRegisters in F. fold rm in F.
    replace (holdingIndex a <? 0) with false in F by (symmetry; apply Z.ltb_ge; lia).
    replace (len (holdingRegisters rm) <? holdingIndex a + len values) with false in F
      by (symmetry; apply Z.ltb_ge; lia).
    cbn [orb] in F.
    eexists. split; [exact F|].
    destruct h as [[]]. cbn. apply copy_into_slice; [lia | assumption].
Qed.

Lemma write_protection_as_stated_fails : ~ write_protection_as_stated.
Proof.
  intros H.
  destruct (H test_env lossy_handler 40001 7
              (mkRegisterMeta 40001 "LineVoltage" DataTypeUint16 (f64_of_Z 10) "V" false
                 (S754_zero false) (S754_zero false)))
    as [h' Hh']; [vm_compute; reflexivity | reflexivity |].
  vm_compute in Hh'. discriminate Hh'.
Qed.

Lemma write_protection_witness :
  exists h',
    HandleWriteSingleRegister test_env 40001 7 (NewRequestHandler test_slave) =
      Returns (Some (ModbusError ExceptionCodeIllegalDataAddress), h') /\
    registers (slave h') = registers (slave (NewRequestHandler test_slave)).
Proof.
  refine (proj1 (proj2 (write_protection test_env (NewRequestHandler test_slave) 40001 7 true
           (mkRegisterMeta 40001 "LineVoltage" DataTypeUint16 (f64_of_Z 10) "V" false
              (S754_zero false) (S754_zero false)) 0 _ _ _ _)));
    [vm_compute; reflexivity | reflexivity | reflexivity | reflexivity].
Defined.

(** ** Digits *)

Lemma digits2_pos_size p : digits2_pos p = Pos.size p.
Proof. induction p; cbn; congruence. Qed.

Lemma Zdigits2_log2 m : 0 < m -> Zdigits2 m = Z.log2 m + 1.
Proof.
  destruct m as [|p|p]; try lia. intros _. cbn [Zdigits2].
  rewrite digits2_pos_size.
  destruct p; cbn [Pos.size Z.log2]; lia.
Qed.

Lemma Zdigits2_bounds m : 0 < m -> 2 ^ (Zdigits2 m - 1) <= m < 2 ^ Zdigits2 m.
Proof.
  intros H. rewrite Zdigits2_log2 by exact H.
  replace (Z.log2 m + 1 - 1) with (Z.log2 m) by lia.
  apply Z.log2_spec. exact H.
Qed.

Lemma Zdigits2_unique m d : 2 ^ (d - 1) <= m < 2 ^ d -> 0 < m -> Zdigits2 m = d.
Proof.
  intros H Hm. rewrite Zdigits2_log2 by exact Hm.
  assert (0 <= d - 1).
  { destruct (Z.le_gt_cases 0 (d - 1)) as [?|Hn]; [assumption|].
    destruct H as [_ H].
    destruct (Z.eq_dec d 0) as [->|Hd]; [cbn in H; lia|].
    rewrite (Z.pow_neg_r 2 d) in H by lia. lia. }
  rewrite (Z.log2_unique m (d - 1)); [lia| lia |].
  replace (Z.succ (d - 1)) with d by lia. exact H.
Qed.

Lemma Zdigits2_nonneg m : 0 <= Zdigits2 m.
Proof. destruct m; cbn; lia. Qed.

Lemma Zdigits2_pos m : 0 < m -> 0 < Zdigits2 m.
Proof. destruct m; cbn; lia. Qed.

Lemma Zdigits2_mono m n : 0 < m -> m <= n -> Zdigits2 m <= Zdigits2 n.
Proof.
  intros Hm Hn. rewrite !Zdigits2_log2 by lia.
  pose proof (Z.log2_le_mono m n Hn). lia.
Qed.

Lemma Zdigits2_div_pow2 m k :
  0 < m -> 0 <= k -> 0 < m / 2 ^ k -> Zdigits2 (m / 2 ^ k) = Zdigits2 m - k.
Proof.
  intros Hm Hk Hq. rewrite !Zdigits2_log2 by lia.
  rewrite <- Z.shiftr_div_pow2 by lia.
  rewrite Z.log2_shiftr by lia.
  assert (k <= Z.log2 m).
  { destruct (Z.le_gt_cases k (Z.log2 m)) as [?|Hn]; [assumption|].
    exfalso. pose proof (Z.log2_spec m Hm) as [_ Hs].
    assert (m < 2 ^ k).
    { eapply Z.lt_le_trans; [exact Hs|]. apply Z.pow_le_mono_r; lia. }
    rewrite Z.div_small in Hq by lia. lia. }
  lia.
Qed.

Lemma Zdigits2_mul_pow2 m k :
  0 < m -> 0 <= k -> Zdigits2 (m * 2 ^ k) = Zdigits2 m + k.
Proof.
  intros Hm Hk.
  assert (0 < 2 ^ k) by (apply Z.pow_pos_nonneg; lia).
  rewrite !Zdigits2_log2 by nia.
  rewrite Z.log2_mul_pow2 by lia. lia.
Qed.

(** ** Shifting right *)

Lemma iter_pos_nat {A} (f : A -> A) p x :
  iter_pos f p x = Nat.iter (Pos.to_nat p) f x.
Proof.
  revert x. induction p as [p IH|p IH|]; intros x; cbn [iter_pos].
  - rewrite !IH, Pos2Nat.inj_xI.
    replace (S (2 * Pos.to_nat p)) with (Pos.to_nat p + (Pos.to_nat p + 1))%nat by lia.
    rewrite !Nat.iter_add. reflexivity.
  - rewrite !IH, Pos2Nat.inj_xO.
    replace (2 * Pos.to_nat p)%nat with (Pos.to_nat p + Pos.to_nat p)%nat by lia.
    rewrite Nat.iter_add. reflexivity.
  - reflexivity.
Qed.

Lemma shr_1_m mrs : 0 <= shr_m mrs -> shr_m (shr_1 mrs) = shr_m mrs / 2.
Proof.
  destruct mrs as [m r s]. cbn [shr_m shr_1]. intros Hm.
  destruct m as [|[p|p|]|p]; cbn [shr_m].
  all: try (exfalso; lia).
  all: try reflexivity.
  - change (Z.pos p~1) with (2 * Z.pos p + 1). Z.div_mod_to_equations. lia.
  - change (Z.pos p~0) with (2 * Z.pos p). Z.div_mod_to_equations. lia.
Qed.

Lemma shr_nat_m n mrs :
  0 <= shr_m mrs -> shr_m (Nat.iter n shr_1 mrs) = shr_m mrs / 2 ^ Z.of_nat n.
Proof.
  intros Hm. induction n as [|n IH].
  - cbn. rewrite Z.div_1_r. reflexivity.
  - rewrite Nat.iter_succ, shr_1_m.
    + rewrite IH, Nat2Z.inj_succ, Z.pow_succ_r by lia.
      rewrite Z.div_div by (try apply Z.pow_pos_nonneg; lia).
      f_equal. lia.
    + rewrite IH. apply Z.div_pos; [lia | apply Z.pow_pos_nonneg; lia].
Qed.

Lemma shr_m_spec mrs e n :
  0 <= shr_m mrs ->
  shr_m (fst (shr mrs e n)) = shr_m mrs / 2 ^ Z.max 0 n /\
  snd (shr mrs e n) = e + Z.max 0 n.
Proof.
  intros Hm. unfold shr. destruct n as [|p|p]; cbn [fst snd].
  - cbn. rewrite Z.div_1_r. split; [reflexivity | lia].
  - rewrite iter_pos_nat, shr_nat_m by exact Hm.
    rewrite positive_nat_Z. replace (Z.max 0 (Z.pos p)) with (Z.pos p) by lia.
    split; reflexivity.
  - replace (Z.max 0 (Z.neg p)) with 0 by lia. cbn. rewrite Z.div_1_r.
    split; [reflexivity | lia].
Qed.

Lemma shr_record_of_loc_m m l : shr_m (shr_record_of_loc m l) = m.
Proof. destruct l as [|[]]; reflexivity. Qed.

Lemma round_nearest_even_bounds m l :
  m <= round_nearest_even m l <= m + 1.
Proof.
  unfold round_nearest_even. destruct l as [|[]]; try lia.
  destruct (Z.even m); lia.
Qed.

(** ** Rounding to a format *)

Section Format.

Variables prec emax : Z.
Hypothesis Hprec : 0 < prec.

Local Abbreviation fexp := (fexp prec emax).
Local Abbreviation emin := (emin prec emax).

Lemma fexp_mono a b : a <= b -> fexp a <= fexp b.
Proof. unfold SpecFloat.fexp. lia. Qed.

Lemma fexp_succ a : fexp (a + 1) <= fexp a + 1.
Proof. unfold SpecFloat.fexp. lia. Qed.

Lemma fexp_ge_emin a : emin <= fexp a.
Proof. unfold SpecFloat.fexp. lia. Qed.

Lemma fexp_small a : a <= fexp a -> fexp a = emin.
Proof. unfold SpecFloat.fexp. lia. Qed.

Lemma shr_fexp_spec m e l :
  0 <= m ->
  let k := Z.max 0 (fexp (Zdigits2 m + e) - e) in
  shr_m (fst (shr_fexp prec emax m e l)) = m / 2 ^ k /\
  snd (shr_fexp prec emax m e l) = e + k.
Proof.
  intros Hm k. unfold shr_fexp.
  pose proof (shr_m_spec (shr_record_of_loc m l) e (fexp (Zdigits2 m + e) - e)) as H.
  rewrite shr_record_of_loc_m in H. apply H. exact Hm.
Qed.

Lemma binary_round_aux_spec sx mx ex lx :
  0 <= mx -> ex <= fexp (Zdigits2 mx + ex) ->
  let e1 := fexp (Zdigits2 mx + ex) in
  let m1 := mx / 2 ^ (e1 - ex) in
  exists m2, m1 <= m2 <= m1 + 1 /\
    packed prec emax sx m2 e1 (binary_round_aux prec emax sx mx ex lx).
Proof.
  intros Hmx Hex e1 m1.
  assert (He1d : e1 = fexp (Zdigits2 mx + ex)) by reflexivity.
  clearbody e1. rewrite <- He1d in Hex. unfold binary_round_aux.
  destruct (shr_fexp_spec mx ex lx Hmx) as [S1m S1e].
  destruct (shr_fexp prec emax mx ex lx) as [mrs' e'] eqn:E1.
  cbn [fst snd] in S1m, S1e.
  rewrite <- He1d in S1m, S1e.
  replace (Z.max 0 (e1 - ex)) with (e1 - ex) in S1m, S1e by lia.
  fold m1 in S1m. replace (ex + (e1 - ex)) with e1 in S1e by lia. subst e'.
  rewrite S1m.
  set (m2 := round_nearest_even m1 (loc_of_shr_record mrs')).
  pose proof (round_nearest_even_bounds m1 (loc_of_shr_record mrs')) as Hm2.
  fold m2 in Hm2.
  assert (Hpow : 0 < 2 ^ (e1 - ex)) by (apply Z.pow_pos_nonneg; lia).
  assert (Hm1 : 0 <= m1) by (apply Z.div_pos; lia).
  exists m2. split; [exact Hm2|].
  assert (Hm2' : 0 <= m2) by lia.
  destruct (shr_fexp_spec m2 e1 loc_Exact Hm2') as [S2m S2e].
  destruct (shr_fexp prec emax m2 e1 loc_Exact) as [mrs'' e''] eqn:E2.
  cbn [fst snd] in S2m, S2e.
  set (k2 := fexp (Zdigits2 m2 + e1) - e1) in *.
  destruct (Z.eq_dec m2 0) as [Hz|Hnz].
  { left. split; [exact Hz|]. rewrite S2m, Hz. rewrite Z.div_0_l; [reflexivity|].
    apply Z.pow_nonzero; lia. }
  right.
  (* the exponent of the first shift is canonical for [m1], or is [emin] *)
  assert (Hk2 : (k2 = 0) \/ (k2 = 1 /\ exists q, m2 = 2 * q)).
  { destruct (Z.eq_dec m1 0) as [Hm10|Hm10].
    - (* everything was shifted out *)
      assert (m2 = 1) by lia. subst k2.
      assert (He1 : e1 = emin).
      { rewrite He1d. apply fexp_small. rewrite <- He1d.
        destruct (Z.eq_dec mx 0) as [Hmx0|Hmx0].
        - rewrite Hmx0. cbn [Zdigits2]. lia.
        - assert (mx < 2 ^ (e1 - ex)).
          { destruct (Z.lt_ge_cases mx (2 ^ (e1 - ex))) as [?|Hge]; [assumption|].
            exfalso. unfold m1 in Hm10.
            pose proof (Z.div_le_mono _ _ (2 ^ (e1 - ex)) Hpow Hge) as Hd.
            rewrite Z.div_same in Hd by lia. lia. }
          assert (Zdigits2 mx <= e1 - ex).
          { destruct (Z.le_gt_cases (Zdigits2 mx) (e1 - ex)) as [?|Hgt]; [assumption|].
            exfalso. pose proof (Zdigits2_bounds mx ltac:(lia)) as [Hlo _].
            assert (2 ^ (e1 - ex) <= 2 ^ (Zdigits2 mx - 1))
              by (apply Z.pow_le_mono_r; lia).
            lia. }
          lia. }
      left. rewrite H. cbn [Zdigits2 digits2_pos]. rewrite He1.
      unfold SpecFloat.fexp. lia.
    - assert (Hm1p : 0 < m1) by lia.
      assert (Hd1 : Zdigits2 m1 = Zdigits2 mx - (e1 - ex)).
      { unfold m1. apply Zdigits2_div_pow2; try lia.
        destruct (Z.eq_dec mx 0) as [->|?]; [|lia].
        unfold m1 in Hm1p. rewrite Z.div_0_l in Hm1p by lia. lia. }
      assert (Hc1 : fexp (Zdigits2 m1 + e1) = e1).
      { rewrite Hd1. replace (Zdigits2 mx - (e1 - ex) + e1) with (Zdigits2 mx + ex) by lia.
        symmetry. exact He1d. }
      pose proof (Zdigits2_bounds m1 Hm1p) as [Hlo Hhi].
      destruct (Z.eq_dec m2 (2 ^ Zdigits2 m1)) as [Hcarry|Hnc].
      + assert (Hd2 : Zdigits2 m2 = Zdigits2 m1 + 1).
        { apply Zdigits2_unique; [|lia].
          replace (Zdigits2 m1 + 1 - 1) with (Zdigits2 m1) by lia.
          rewrite Hcarry. split; [lia|].
          pose proof (Zdigits2_nonneg m1).
          apply Z.pow_lt_mono_r; lia. }
        pose proof (Zdigits2_pos m1 Hm1p) as Hdp.
        pose proof (fexp_succ (Zdigits2 m1 + e1)) as Hs.
        pose proof (fexp_mono (Zdigits2 m1 + e1) (Zdigits2 m1 + e1 + 1) ltac:(lia)) as Hmo.
        unfold k2. rewrite Hd2.
        replace (Zdigits2 m1 + 1 + e1) with (Zdigits2 m1 + e1 + 1) by lia.
        destruct (Z.eq_dec (fexp (Zdigits2 m1 + e1 + 1)) e1) as [?|?]; [left; lia|].
        right. split; [lia|]. exists (2 ^ (Zdigits2 m1 - 1)).
        rewrite Hcarry. rewrite <- Z.pow_succ_r by lia. f_equal. lia.
      + assert (Hd2 : Zdigits2 m2 = Zdigits2 m1).
        { apply Zdigits2_unique; lia. }
        left. unfold k2. rewrite Hd2. lia. }
  assert (Hex3 : exists m3z, 0 < m3z /\ m3z * 2 ^ k2 = m2 /\ shr_m mrs'' = m3z /\
                   Zdigits2 m3z = Zdigits2 m2 - k2 /\ 0 <= k2).
  { destruct Hk2 as [Hk0|[Hk1 [q Hq]]].
    - exists m2. rewrite S2m, Hk0. cbn. rewrite Z.div_1_r. repeat split; lia.
    - exists q. rewrite S2m, Hk1. change (2 ^ Z.max 0 1) with 2. change (2 ^ 1) with 2.
      assert (Hq2 : m2 / 2 = q) by (rewrite Hq; Z.div_mod_to_equations; lia).
      pose proof (Zdigits2_div_pow2 m2 1 ltac:(lia) ltac:(lia)) as Hd.
      change (2 ^ 1) with 2 in Hd. rewrite Hq2 in Hd.
      split; [lia|]. split; [lia|]. split; [exact Hq2|]. split; [apply Hd; lia | lia]. }
  destruct Hex3 as (m3z & Hm3p & Hm3e & Hm3s & Hm3d & Hk2p).
  destruct m3z as [|m3|m3]; try lia.
  rewrite Hm3s.
  assert (He3 : e'' = e1 + k2) by lia.
  exists m3, e''. split; [lia|]. split.
  { rewrite He3. replace (e1 + k2 - e1) with k2 by lia. exact Hm3e. }
  split; [lia|]. split.
  { unfold canonical_mantissa. apply Z.eqb_eq.
    change (Z.pos (digits2_pos m3)) with (Zdigits2 (Z.pos m3)).
    rewrite Hm3d, He3. unfold k2.
    replace (Zdigits2 m2 - (fexp (Zdigits2 m2 + e1) - e1) + (e1 + (fexp (Zdigits2 m2 + e1) - e1)))
      with (Zdigits2 m2 + e1) by lia.
    lia. }
  destruct (e'' <=? emax - prec) eqn:Eo.
  - left. split; [reflexivity | apply Z.leb_le; exact Eo].
  - right. split; [reflexivity | apply Z.leb_gt; exact Eo].
Qed.

Lemma packed_valid sx m2 e1 r : packed prec emax sx m2 e1 r -> valid_binary prec emax r = true.
Proof.
  intros [[_ ->]|(m3 & e3 & _ & _ & _ & Hc & [[-> Hb]|[-> _]])]; cbn; try reflexivity.
  unfold bounded. rewrite Hc. cbn. apply Z.leb_le. exact Hb.
Qed.

Lemma pos_iter_xO m d : Z.pos (Pos.iter xO m d) = Z.pos m * 2 ^ Z.pos d.
Proof.
  induction d as [|d IH] using Pos.peano_ind.
  - cbn. lia.
  - rewrite Pos.iter_succ, Pos2Z.inj_succ, Z.pow_succ_r by lia.
    change (Z.pos (Pos.iter xO m d)~0) with (2 * Z.pos (Pos.iter xO m d)).
    rewrite IH. lia.
Qed.

Lemma shl_align_spec mx ex ex' :
  let '(mz, ez) := shl_align mx ex ex' in
  ez = Z.min ex ex' /\ Z.pos mz = Z.pos mx * 2 ^ (ex - ez).
Proof.
  unfold shl_align. destruct (ex' - ex) as [|d|d] eqn:E.
  - split; [lia|]. replace (ex - ex) with 0 by lia. lia.
  - split; [lia|]. replace (ex - ex) with 0 by lia. lia.
  - split; [lia|]. rewrite pos_iter_xO. f_equal. f_equal. lia.
Qed.

(** [binary_round] first aligns the mantissa so that nothing is lost, then
    rounds. *)
Lemma binary_round_spec sx mx ex :
  let e1 := fexp (Zdigits2 (Z.pos mx) + ex) in
  let m1 := if ex <=? e1 then Z.pos mx / 2 ^ (e1 - ex) else Z.pos mx * 2 ^ (ex - e1) in
  exists m2, m1 <= m2 <= m1 + 1 /\
    packed prec emax sx m2 e1 (binary_round prec emax sx mx ex).
Proof.
  intros e1 m1. unfold binary_round.
  pose proof (shl_align_spec mx ex (fexp (Z.pos (digits2_pos mx) + ex))) as Hs.
  change (Z.pos (digits2_pos mx)) with (Zdigits2 (Z.pos mx)) in *.
  fold e1 in Hs |- *.
  destruct (shl_align mx ex e1) as [mz ez]. destruct Hs as [Hez Hmz].
  assert (Hd : Zdigits2 (Z.pos mz) + ez = Zdigits2 (Z.pos mx) + ex).
  { rewrite Hmz, Zdigits2_mul_pow2 by lia. lia. }
  pose proof (binary_round_aux_spec sx (Z.pos mz) ez loc_Exact ltac:(lia)) as H.
  rewrite Hd in H. fold e1 in H. specialize (H ltac:(lia)). cbv zeta in H.
  destruct H as (m2 & Hm2 & Hp). exists m2. split; [|exact Hp].
  unfold m1. destruct (ex <=? e1) eqn:E.
  - apply Z.leb_le in E. replace ez with ex in * by lia.
    replace (ex - ex) with 0 in Hmz by lia. rewrite Z.mul_1_r in Hmz.
    rewrite <- Hmz. exact Hm2.
  - apply Z.leb_gt in E. replace ez with e1 in * by lia.
    replace (e1 - e1) with 0 in Hm2 by lia. rewrite Z.div_1_r in Hm2.
    rewrite <- Hmz. exact Hm2.
Qed.

Lemma binary_round_valid sx mx ex :
  valid_binary prec emax (binary_round prec emax sx mx ex) = true.
Proof.
  destruct (binary_round_spec sx mx ex) as (m2 & _ & Hp).
  eapply packed_valid. exact Hp.
Qed.

Lemma binary_normalize_valid m e sz :
  valid_binary prec emax (binary_normalize prec emax m e sz) = true.
Proof. destruct m; cbn [binary_normalize]; [reflexivity| |]; apply binary_round_valid. Qed.

End Format.

Lemma wrap_uint16_range z : 0 <= wrap_uint16 z < 65536.
Proof. unfold wrap_uint16. apply Z.mod_pos_bound. lia. Qed.

Lemma wrap_uint32_range z : 0 <= wrap_uint32 z < 4294967296.
Proof. unfold wrap_uint32. apply Z.mod_pos_bound. lia. Qed.

Lemma word32_split (u : Z) :
  0 <= u < 2 ^ 32 ->
  word32 (wrap_uint16 (Z.shiftr u 16)) (wrap_uint16 u) = u.
Proof.
  intros Hu. unfold word32, wrap_uint16, wrap_uint32.
  rewrite Z.shiftr_div_pow2 by lia.
  assert (Hq : 0 <= u / 2 ^ 16 < 2 ^ 16) by (Z.div_mod_to_equations; lia).
  rewrite (Z.mod_small (u / 2 ^ 16)) by lia.
  rewrite Z.shiftl_mul_pow2 by lia.
  rewrite (Z.mod_small (u / 2 ^ 16 * 2 ^ 16)) by (Z.div_mod_to_equations; lia).
  rewrite <- Z.shiftl_mul_pow2 by lia.
  rewrite <- Z.land_ones by lia.
  rewrite <- Z.shiftr_div_pow2 by lia.
  rewrite <- Z.ldiff_ones_r by lia.
  apply Z.lor_ldiff_and.
Qed.

Lemma word32_split_signed (i : Z) :
  - 2 ^ 31 <= i < 2 ^ 31 ->
  word32 (wrap_uint16 (Z.shiftr i 16)) (wrap_uint16 i) = wrap_uint32 i.
Proof.
  intros Hi.
  rewrite <- (word32_split (wrap_uint32 i)) by apply wrap_uint32_range.
  f_equal; unfold wrap_uint16, wrap_uint32.
  - rewrite !Z.shiftr_div_pow2 by lia. Z.div_mod_to_equations. lia.
  - Z.div_mod_to_equations. lia.
Qed.

Lemma wrap_signed_range w z : 0 < w -> - 2 ^ (w - 1) <= wrap_signed w z < 2 ^ (w - 1).
Proof.
  intros Hw. unfold wrap_signed.
  assert (H2 : 2 ^ w = 2 * 2 ^ (w - 1)).
  { rewrite <- Z.pow_succ_r by lia. f_equal. lia. }
  assert (0 < 2 ^ (w - 1)) by (apply Z.pow_pos_nonneg; lia).
  pose proof (Z.mod_pos_bound (z + 2 ^ (w - 1)) (2 ^ w) ltac:(lia)). lia.
Qed.

Lemma int_wrap_range t z : int_in_range t (int_wrap t z).
Proof.
  destruct t; cbn [int_wrap int_in_range].
  - apply wrap_uint16_range.
  - apply (wrap_signed_range 16). lia.
  - apply wrap_uint32_range.
  - apply (wrap_signed_range 32). lia.
Qed.

Lemma int_fits_range t z : int_fits t z = true -> int_in_range t z.
Proof. destruct t; cbn [int_fits int_in_range]; lia. Qed.

Lemma float_to_int_range impl_conv t f : int_in_range t (float_to_int impl_conv t f).
Proof.
  unfold float_to_int. destruct (f64_trunc f) as [z|]; [|apply int_wrap_range].
  destruct (int_fits t z) eqn:E; [apply int_fits_range; exact E | apply int_wrap_range].
Qed.

Lemma Float32bits_range f : valid_binary 24 128 f = true -> 0 <= Float32bits f < 2 ^ 32.
Proof.
  destruct f as [s|s| |s m e]; cbn [Float32bits valid_binary]; intros Hv.
  1-2: destruct s; lia.
  1: lia.
  unfold bounded, canonical_mantissa in Hv. apply andb_true_iff in Hv as [Hc Hb].
  apply Z.eqb_eq in Hc. apply Z.leb_le in Hb.
  change (Z.pos (digits2_pos m)) with (Zdigits2 (Z.pos m)) in Hc.
  unfold fexp, emin in Hc.
  pose proof (Zdigits2_bounds (Z.pos m) ltac:(lia)) as [Hlo Hhi].
  assert (Hd : Zdigits2 (Z.pos m) <= 24) by lia.
  assert (Hm : Z.pos m < 2 ^ 24).
  { eapply Z.lt_le_trans; [exact Hhi|]. apply Z.pow_le_mono_r; lia. }
  assert (He : -149 <= e <= 104) by lia.
  destruct (Z.pos m <? 2 ^ 23) eqn:E.
  - apply Z.ltb_lt in E. destruct s; lia.
  - apply Z.ltb_ge in E. rewrite Z.shiftl_mul_pow2 by lia.
    destruct s; lia.
Qed.

Lemma f32_of_f64_valid f : valid_binary 24 128 (f32_of_f64 f) = true.
Proof.
  destruct f; cbn [f32_of_f64 valid_binary]; try reflexivity.
  apply binary_round_valid. lia.
Qed.

Lemma raw32_range impl_conv meta v : 0 <= raw32 impl_conv meta v < 2 ^ 32.
Proof.
  unfold raw32. destruct (MetaDataType meta).
  1-3: apply (float_to_int_range impl_conv TUint32).
  - apply wrap_uint32_range.
  - apply Float32bits_range, f32_of_f64_valid.
Qed.

Lemma store2_lookup_hi (l : list Z) idx hi lo :
  0 <= idx -> idx + 1 < len l -> store2 l idx hi lo !! Z.to_nat idx = Some hi.
Proof.
  unfold store2, len. intros H0 H1.
  rewrite list_lookup_insert_ne by lia.
  apply list_lookup_insert_eq. lia.
Qed.

Lemma store2_lookup_lo (l : list Z) idx hi lo :
  0 <= idx -> idx + 1 < len l -> store2 l idx hi lo !! Z.to_nat (idx + 1) = Some lo.
Proof.
  unfold store2, len. intros H0 H1.
  apply list_lookup_insert_eq. rewrite length_insert. lia.
Qed.

Lemma store2_lookup_other (l : list Z) idx hi lo (j : nat) :
  j <> Z.to_nat idx -> j <> Z.to_nat (idx + 1) -> store2 l idx hi lo !! j = l !! j.
Proof.
  unfold store2. intros H0 H1.
  rewrite !list_lookup_insert_ne by congruence. reflexivity.
Qed.

Lemma store2_length (l : list Z) idx hi lo : length (store2 l idx hi lo) = length l.
Proof. unfold store2. rewrite !length_insert. reflexivity. Qed.

Lemma lookup_total_of_lookup (l : list Z) i x : l !! i = Some x -> l !!! i = x.
Proof. intros H. apply list_lookup_total_correct. exact H. Qed.

Lemma stored_words impl_conv meta v (two : RegisterCount (MetaDataType meta) = 2) :
  let raw := raw32 impl_conv meta v in
  match MetaDataType meta with
  | DataTypeUint32 =>
      let u32 := float_to_int impl_conv TUint32 (f64_mul v (Scale meta)) in
      wrap_uint16 (Z.shiftr u32 16) = Z.shiftr raw 16 /\ wrap_uint16 u32 = wrap_uint16 raw
  | DataTypeInt32 =>
      let i32 := float_to_int impl_conv TInt32 (f64_mul v (Scale meta)) in
      wrap_uint16 (Z.shiftr i32 16) = Z.shiftr raw 16 /\ wrap_uint16 i32 = wrap_uint16 raw
  | DataTypeFloat32 =>
      let bits := Float32bits (f32_of_f64 v) in
      wrap_uint16 (Z.shiftr bits 16) = Z.shiftr raw 16 /\ wrap_uint16 bits = wrap_uint16 raw
  | _ => True
  end.
Proof.
  intros raw. pose proof (raw32_range impl_conv meta v) as Hr. fold raw in Hr.
  assert (Hs : wrap_uint16 (Z.shiftr raw 16) = Z.shiftr raw 16).
  { unfold wrap_uint16. rewrite Z.shiftr_div_pow2 by lia.
    apply Z.mod_small. Z.div_mod_to_equations. lia. }
  unfold raw32 in raw.
  destruct (MetaDataType meta); try exact I; cbv zeta.
  - split; [exact Hs | reflexivity].
  - pose proof (float_to_int_range impl_conv TInt32 (f64_mul v (Scale meta))) as Hi.
    cbn [int_in_range] in Hi. subst raw.
    set (i32 := float_to_int impl_conv TInt32 (f64_mul v (Scale meta))) in *.
    unfold wrap_uint16, wrap_uint32.
    rewrite !Z.shiftr_div_pow2 by lia. split; Z.div_mod_to_equations; lia.
  - split; [exact Hs | reflexivity].
Qed.

Lemma SetScaledValue_two_words (impl_conv : IntType -> float64 -> Z) (rm : RegisterMap)
    (a : Z) (meta : RegisterMeta) (v : float64) :
  0 <= a < 65536 ->
  definitions rm !! a = Some meta ->
  RegisterCount (MetaDataType meta) = 2 ->
  holdingIndex a + 1 < len (holdingRegisters rm) ->
  let idx := holdingIndex a in
  let raw := raw32 impl_conv meta v in
  0 <= raw < 2 ^ 32 /\
  (MetaDataType meta = DataTypeFloat32 -> raw = Float32bits (f32_of_f64 v)) /\
  exists rm',
    SetScaledValue impl_conv a v rm = (None, rm') /\
    holdingRegisters rm' !! Z.to_nat idx = Some (Z.shiftr raw 16) /\
    holdingRegisters rm' !! Z.to_nat (idx + 1) = Some (raw mod 2 ^ 16) /\
    (forall j : nat, j <> Z.to_nat idx -> j <> Z.to_nat (idx + 1) ->
       holdingRegisters rm' !! j = holdingRegisters rm !! j) /\
    length (holdingRegisters rm') = length (holdingRegisters rm) /\
    coils rm' = coils rm /\ discreteInputs rm' = discreteInputs rm /\
    inputRegisters rm' = inputRegisters rm /\ definitions rm' = definitions rm /\
    word32 (holdingRegisters rm' !!! Z.to_nat idx)
           (holdingRegisters rm' !!! Z.to_nat (idx + 1)) = raw /\
    GetScaledValue a rm' = ((decode32 meta raw, None), rm').
Proof.
  intros Ha Hdef Htwo Hlen idx raw.
  pose proof (holdingIndex_range a Ha) as Hidx. fold idx in Hidx, Hlen.
  pose proof (raw32_range impl_conv meta v) as Hraw. fold raw in Hraw.
  split; [exact Hraw|]. split.
  { intros Hf. unfold raw, raw32. rewrite Hf. reflexivity. }
  pose proof (stored_words impl_conv meta v Htwo) as Hw. cbv zeta in Hw. fold raw in Hw.
  set (rm' := set_holdingRegisters rm
                (store2 (holdingRegisters rm) idx (Z.shiftr raw 16) (wrap_uint16 raw))).
  assert (Hset : SetScaledValue impl_conv a v rm = (None, rm')).
  { unfold SetScaledValue. rewrite Hdef. fold idx.
    replace (idx <? 0) with false by (symmetry; apply Z.ltb_ge; lia).
    replace (len (holdingRegisters rm) <=? idx + 1) with false
      by (symmetry; apply Z.leb_gt; lia).
    unfold rm'.
    destruct (MetaDataType meta); try discriminate Htwo;
      destruct Hw as [-> ->]; reflexivity. }
  assert (Hhi : holdingRegisters rm' !! Z.to_nat idx = Some (Z.shiftr raw 16))
    by (apply store2_lookup_hi; lia).
  assert (Hlo : holdingRegisters rm' !! Z.to_nat (idx + 1) = Some (wrap_uint16 raw))
    by (apply store2_lookup_lo; lia).
  assert (Hword : word32 (holdingRegisters rm' !!! Z.to_nat idx)
                         (holdingRegisters rm' !!! Z.to_nat (idx + 1)) = raw).
  { rewrite (lookup_total_of_lookup _ _ _ Hhi), (lookup_total_of_lookup _ _ _ Hlo).
    rewrite <- (word32_split raw) at 3 by exact Hraw. f_equal.
    unfold wrap_uint16. rewrite Z.shiftr_div_pow2 by lia.
    symmetry. apply Z.mod_small. Z.div_mod_to_equations. lia. }
  exists rm'. split; [exact Hset|]. split; [exact Hhi|]. split; [exact Hlo|].
  split; [intros j H1 H2; apply store2_lookup_other; assumption|].
  split; [apply store2_length|]. do 4 (split; [reflexivity|]).
  split; [exact Hword|].
  assert (Hlen' : len (holdingRegisters rm') = len (holdingRegisters rm))
    by (unfold len; f_equal; apply store2_length).
  assert (Hdef' : definitions rm' !! a = Some meta) by exact Hdef.
  unfold GetScaledValue. rewrite Hdef', Hlen'. fold idx.
  replace (idx <? 0) with false by (symmetry; apply Z.ltb_ge; lia).
  replace (len (holdingRegisters rm) <=? idx + 1) with false
    by (symmetry; apply Z.leb_gt; lia).
  rewrite Hword. unfold decode32.
  destruct (MetaDataType meta); try discriminate Htwo; reflexivity.
Qed.

Lemma SetScaledValue_second_word_outside (impl_conv : IntType -> float64 -> Z)
    (rm : RegisterMap) (a : Z) (meta : RegisterMeta) (v : float64) :
  0 <= a < 65536 ->
  definitions rm !! a = Some meta ->
  RegisterCount (MetaDataType meta) = 2 ->
  len (holdingRegisters rm) <= holdingIndex a + 1 ->
  SetScaledValue impl_conv a v rm = (Some (ErrAddress RegisterTypeHoldingRegister a), rm) /\
  GetScaledValue a rm =
    ((S754_zero false, Some (ErrAddress RegisterTypeHoldingRegister a)), rm).
Proof.
  intros Ha Hdef Htwo Hlen.
  pose proof (holdingIndex_range a Ha) as Hidx.
  unfold SetScaledValue, GetScaledValue. rewrite Hdef.
  replace (holdingIndex a <? 0) with false by (symmetry; apply Z.ltb_ge; lia).
  replace (len (holdingRegisters rm) <=? holdingIndex a + 1) with true
    by (symmetry; apply Z.leb_le; lia).
  destruct (MetaDataType meta); try discriminate Htwo; split; reflexivity.
Qed.

(** C5 (amended). For an address defined with a two-word type (U32, I32,
    F32): when its two offsets lie inside the holding space,
    [SetScaledValue] writes exactly two consecutive registers, the upper 16
    bits of the 32-bit raw value at the lower offset and the lower 16 bits
    at the next, and changes nothing else; [GetScaledValue] rebuilds the
    same raw value from the two words, high word first, and decodes it;
    for F32 the raw value is the binary32 bit pattern of the value, the
    scale unused.  When the second offset is outside the holding space
    (also when the first one is inside), [SetScaledValue] returns the
    address error and writes nothing, and [GetScaledValue] returns the
    same error. *)
Theorem multi_word_encoding (impl_conv : IntType -> float64 -> Z) (rm : RegisterMap)
    (a : Z) (meta : RegisterMeta) (v : float64) :
  0 <= a < 65536 ->
  definitions rm !! a = Some meta ->
  RegisterCount (MetaDataType meta) = 2 ->
  let idx := holdingIndex a in
  let raw := raw32 impl_conv meta v in
  0 <= raw < 2 ^ 32 /\
  (MetaDataType meta = DataTypeFloat32 -> raw = Float32bits (f32_of_f64 v)) /\
  (idx + 1 < len (holdingRegisters rm) ->
   exists rm',
     SetScaledValue impl_conv a v rm = (None, rm') /\
     holdingRegisters rm' !! Z.to_nat idx = Some (Z.shiftr raw 16) /\
     holdingRegisters rm' !! Z.to_nat (idx + 1) = Some (raw mod 2 ^ 16) /\
     (forall j : nat, j <> Z.to_nat idx -> j <> Z.to_nat (idx + 1) ->
        holdingRegisters rm' !! j = holdingRegisters rm !! j) /\
     length (holdingRegisters rm') = length (holdingRegisters rm) /\
     coils rm' = coils rm /\ discreteInputs rm' = discreteInputs rm /\
     inputRegisters rm' = inputRegisters rm /\ definitions rm' = definitions rm /\
     word32 (holdingRegisters rm' !!! Z.to_nat idx)
            (holdingRegisters rm' !!! Z.to_nat (idx + 1)) = raw /\
     GetScaledValue a rm' = ((decode32 meta raw, None), rm')) /\
  (len (holdingRegisters rm) <= idx + 1 ->
   SetScaledValue impl_conv a v rm = (Some (ErrAddress RegisterTypeHoldingRegister a), rm) /\
   GetScaledValue a rm =
     ((S754_zero false, Some (ErrAddress RegisterTypeHoldingRegister a)), rm)).
Proof.
  intros Ha Hdef Htwo idx raw.
  split; [apply raw32_range|]. split.
  { intros Hf. unfold raw, raw32. rewrite Hf. reflexivity. }
  split.
  - intros Hlen.
    destruct (SetScaledValue_two_words impl_conv rm a meta v Ha Hdef Htwo Hlen)
      as (_ & _ & H). exact H.
  - intros Hlen. exact (SetScaledValue_second_word_outside impl_conv rm a meta v Ha Hdef Htwo Hlen).
Qed.

Lemma multi_word_as_stated_fails : ~ multi_word_as_stated.
Proof.
  intros H.
  specialize (H (fun _ _ => 0) edge_map 3
                (mkRegisterMeta 3 "Edge" DataTypeUint32 (f64_of_Z 1) "" true
                   (S754_zero false) (S754_zero false))
                (f64_of_Z 7) ltac:(lia) ltac:(vm_compute; reflexivity) eq_refl
                ltac:(vm_compute; reflexivity)).
  vm_compute in H. destruct H as [H _]. discriminate H.
Qed.

Lemma multi_word_encoding_witness :
  exists rm',
    SetScaledValue (fun _ _ => 0) 40004 (f64_of_Z 305419896) (DefaultRegisterMap (fun _ _ => 0))
      = (None, rm') /\
    holdingRegisters rm' !! 3%nat = Some 4660 /\
    holdingRegisters rm' !! 4%nat = Some 22136.
Proof.
  destruct (multi_word_encoding (fun _ _ => 0) (DefaultRegisterMap (fun _ _ => 0)) 40004
              (mkRegisterMeta 40004 "TotalEnergy" DataTypeUint32 (f64_of_Z 1) "kWh" false
                 (S754_zero false) (S754_zero false))
              (f64_of_Z 305419896))
    as (_ & _ & H & _); [lia | vm_compute; reflexivity | reflexivity |].
  destruct H as (rm' & Hs & Hhi & Hlo & _); [vm_compute; reflexivity|].
  exists rm'. split; [exact Hs|]. split; [exact Hhi | exact Hlo].
Defined.

Section Shape.
Variables prec emax : Z.

Lemma binary_round_aux_signed sx mx ex lx :
  0 <= mx -> signed_as sx (binary_round_aux prec emax sx mx ex lx).
Proof.
  intros Hmx. unfold binary_round_aux.
  destruct (shr_fexp_spec prec emax mx ex lx Hmx) as [S1m _].
  destruct (shr_fexp prec emax mx ex lx) as [mrs' e'].
  cbn [fst] in S1m.
  pose proof (round_nearest_even_bounds (shr_m mrs') (loc_of_shr_record mrs')) as Hb.
  set (m2 := round_nearest_even (shr_m mrs') (loc_of_shr_record mrs')) in *.
  assert (0 <= shr_m mrs').
  { rewrite S1m. apply Z.div_pos; [lia | apply Z.pow_pos_nonneg; lia]. }
  destruct (shr_fexp_spec prec emax m2 e' loc_Exact ltac:(lia)) as [S2m _].
  destruct (shr_fexp prec emax m2 e' loc_Exact) as [mrs'' e''].
  cbn [fst] in S2m.
  assert (0 <= shr_m mrs'').
  { rewrite S2m. apply Z.div_pos; [lia | apply Z.pow_pos_nonneg; lia]. }
  destruct (shr_m mrs'') as [|p|p]; try lia; cbn; [reflexivity|].
  destruct (e'' <=? emax - prec); reflexivity.
Qed.

End Shape.

Lemma f64_mul_signed (sx sy : bool) mx ex my ey :
  signed_as (xorb sx sy) (f64_mul (S754_finite sx mx ex) (S754_finite sy my ey)).
Proof. cbn [f64_mul SFmul]. apply binary_round_aux_signed. lia. Qed.

Lemma shiftl_half (m e : Z) : Z.shiftl m e = Z.shiftl m (e + 1) / 2.
Proof.
  destruct (Z.le_gt_cases 0 e) as [He|He].
  - rewrite !Z.shiftl_mul_pow2 by lia. rewrite Z.pow_add_r by lia.
    change (2 ^ 1) with 2. rewrite Z.mul_assoc. symmetry. apply Z.div_mul. lia.
  - rewrite !Z.shiftl_div_pow2 by lia.
    replace (- e) with (- (e + 1) + 1) by lia.
    rewrite Z.pow_add_r by lia. change (2 ^ 1) with 2.
    rewrite Z.div_div; [reflexivity | apply Z.pow_nonzero; lia | lia].
Qed.

Lemma f64_leb_zero_cases f :
  f64_leb f64_zero f = true ->
  match f with
  | S754_zero _ => True
  | S754_finite s _ _ | S754_infinity s => s = false
  | S754_nan => False
  end.
Proof. destruct f as [s|[]| |[] m e]; cbn; try discriminate; auto. Qed.

Lemma f64_ltb_zero_cases f :
  f64_ltb f64_zero f = true ->
  match f with
  | S754_finite s _ _ | S754_infinity s => s = false
  | _ => False
  end.
Proof. destruct f as [s|[]| |[] m e]; cbn; try discriminate; auto. Qed.

Lemma trunc_round_nonneg f t :
  f64_leb f64_zero f = true -> f64_trunc f = Some t ->
  0 <= t /\ exists r, f64_round f = Some r /\ r - 1 <= t <= r.
Proof.
  intros Hs Ht. apply f64_leb_zero_cases in Hs.
  destruct f as [s|s| |s m e]; cbn [f64_trunc f64_round] in *; try discriminate.
  - injection Ht as <-. split; [lia|]. exists 0. split; [reflexivity | lia].
  - subst s. cbn [cond_Zopp] in *. injection Ht as <-.
    rewrite (shiftl_half (Z.pos m) e).
    assert (0 <= Z.shiftl (Z.pos m) (e + 1)) by (apply Z.shiftl_nonneg; lia).
    split; [Z.div_mod_to_equations; lia|].
    eexists. split; [reflexivity|]. Z.div_mod_to_equations. lia.
Qed.

Lemma f64_mul_nonneg x s :
  f64_leb f64_zero x = true -> f64_ltb f64_zero s = true ->
  forall t, f64_trunc (f64_mul x s) = Some t -> f64_leb f64_zero (f64_mul x s) = true.
Proof.
  intros Hx Hs t Ht. apply f64_leb_zero_cases in Hx. apply f64_ltb_zero_cases in Hs.
  destruct x as [sx|sx| |sx mx ex], s as [ss|ss| |ss ms es];
    try contradiction; subst; try discriminate Ht; try reflexivity.
  pose proof (f64_mul_signed false false mx ex ms es) as Hsg.
  destruct (f64_mul (S754_finite false mx ex) (S754_finite false ms es)) as [r|r| |r mr er];
    cbn in Hsg; try contradiction; subst; try discriminate Ht; reflexivity.
Qed.

(** C4 (amended). For an address defined as U16 with scale [s > 0] and a
    value [x >= 0] whose product [x * s] truncates to [t <= 0xFFFF]:
    [SetScaledValue] stores [t], the product with its fraction discarded
    (the code does not round), [GetScaledValue] returns [t / s], and [t] is
    [round (x * s)] or one below it. *)
Theorem scaled_quantisation (impl_conv : IntType -> float64 -> Z) (rm : RegisterMap)
    (a : Z) (meta : RegisterMeta) (x : float64) (t : Z) :
  0 <= a < 65536 ->
  definitions rm !! a = Some meta ->
  MetaDataType meta = DataTypeUint16 ->
  holdingIndex a < len (holdingRegisters rm) ->
  f64_ltb f64_zero (Scale meta) = true ->
  f64_leb f64_zero x = true ->
  f64_trunc (f64_mul x (Scale meta)) = Some t ->
  t <= 65535 ->
  exists rm',
    SetScaledValue impl_conv a x rm = (None, rm') /\
    holdingRegisters rm' !! Z.to_nat (holdingIndex a) = Some t /\
    GetScaledValue a rm' = ((f64_div (f64_of_Z t) (Scale meta), None), rm') /\
    exists r, f64_round (f64_mul x (Scale meta)) = Some r /\ r - 1 <= t <= r.
Proof.
  intros Ha Hdef Hty Hlen Hs Hx Ht Hmax.
  pose proof (holdingIndex_range a Ha) as Hidx.
  pose proof (f64_mul_nonneg x (Scale meta) Hx Hs t Ht) as Hnn.
  destruct (trunc_round_nonneg _ t Hnn Ht) as [Ht0 Hr].
  set (rm' := set_holdingRegisters rm (<[Z.to_nat (holdingIndex a) := t]> (holdingRegisters rm))).
  assert (Hset : SetScaledValue impl_conv a x rm = (None, rm')).
  { unfold SetScaledValue. rewrite Hdef, Hty.
    replace (holdingIndex a <? 0) with false by (symmetry; apply Z.ltb_ge; lia).
    replace (len (holdingRegisters rm) <=? holdingIndex a) with false
      by (symmetry; apply Z.leb_gt; lia).
    unfold float_to_int. rewrite Ht. cbn [int_fits].
    replace (0 <=? t) with true by (symmetry; apply Z.leb_le; lia).
    replace (t <=? 65535) with true by (symmetry; apply Z.leb_le; lia).
    reflexivity. }
  assert (Hget : holdingRegisters rm' !! Z.to_nat (holdingIndex a) = Some t).
  { apply list_lookup_insert_eq. unfold len in Hlen. lia. }
  exists rm'. split; [exact Hset|]. split; [exact Hget|]. split; [|exact Hr].
  assert (Hlen' : len (holdingRegisters rm') = len (holdingRegisters rm))
    by (unfold len; f_equal; apply length_insert).
  assert (Hdef' : definitions rm' !! a = Some meta) by exact Hdef.
  unfold GetScaledValue. rewrite Hdef', Hty, Hlen'.
  replace (holdingIndex a <? 0) with false by (symmetry; apply Z.ltb_ge; lia).
  replace (len (holdingRegisters rm) <=? holdingIndex a) with false
    by (symmetry; apply Z.leb_gt; lia).
  rewrite (lookup_total_of_lookup _ _ _ Hget). reflexivity.
Qed.

Lemma quantisation_as_stated_fails : ~ quantisation_as_stated.
Proof.
  intros H.
  specialize (H (fun _ _ => 0) unit_scale_map 2
                (mkRegisterMeta 2 "Raw" DataTypeUint16 (f64_of_Z 1) "" true
                   (S754_zero false) (S754_zero false))
                (f64_lit 1 2) ltac:(lia) ltac:(vm_compute; reflexivity) eq_refl
                ltac:(vm_compute; reflexivity) eq_refl eq_refl eq_refl).
  destruct H as (r & Hr & Hlt).
  vm_compute in Hr. injection Hr as <-. vm_compute in Hlt. discriminate Hlt.
Qed.

Lemma scaled_quantisation_witness :
  exists rm',
    SetScaledValue (fun _ _ => 0) 40002 (f64_lit 1234 100) (DefaultRegisterMap (fun _ _ => 0))
      = (None, rm') /\
    holdingRegisters rm' !! 1%nat = Some 1234.
Proof.
  destruct (scaled_quantisation (fun _ _ => 0) (DefaultRegisterMap (fun _ _ => 0)) 40002
              (mkRegisterMeta 40002 "LineCurrent" DataTypeUint16 (f64_of_Z 100) "A" false
                 (S754_zero false) (S754_zero false))
              (f64_lit 1234 100) 1234)
    as (rm' & Hs & Hg & _);
    [lia | vm_compute; reflexivity | reflexivity | vm_compute; reflexivity
    | reflexivity | reflexivity | vm_compute; reflexivity | lia |].
  exists rm'. split; [exact Hs | exact Hg].
Defined.

Section Format2.

Variables prec emax : Z.
Hypothesis Hprec : 0 < prec.

Local Abbreviation fexp := (fexp prec emax).
Local Abbreviation emin := (emin prec emax).

Lemma canonical_iff m e :
  canonical_mantissa prec emax m e = true <-> fexp (Zdigits2 (Z.pos m) + e) = e.
Proof. unfold canonical_mantissa. cbn [Zdigits2]. apply Z.eqb_eq. Qed.

Lemma canonical_facts m e :
  canonical_mantissa prec emax m e = true ->
  emin <= e /\ Zdigits2 (Z.pos m) <= prec /\ (emin < e -> Zdigits2 (Z.pos m) = prec).
Proof.
  rewrite canonical_iff. unfold SpecFloat.fexp. lia.
Qed.

Lemma div_small_digits M k : 0 < M -> 0 <= k -> M / 2 ^ k <= 0 -> Zdigits2 M <= k.
Proof.
  intros HM Hk Hq.
  assert (Hp : 0 < 2 ^ k) by (apply Z.pow_pos_nonneg; lia).
  assert (M < 2 ^ k).
  { destruct (Z.lt_ge_cases M (2 ^ k)) as [?|Hge]; [assumption|].
    pose proof (Z.div_le_mono _ _ (2 ^ k) Hp Hge) as Hd.
    rewrite Z.div_same in Hd by lia. lia. }
  destruct (Z.le_gt_cases (Zdigits2 M) k) as [?|Hgt]; [assumption|].
  pose proof (Zdigits2_bounds M HM) as [Hlo _].
  assert (2 ^ k <= 2 ^ (Zdigits2 M - 1)) by (apply Z.pow_le_mono_r; lia).
  lia.
Qed.

(** *** Division *)

Lemma SFdiv_core_binary_spec m1 e1 m2 e2 :
  0 < m1 -> 0 < m2 ->
  let '(q, e', l) := SFdiv_core_binary prec emax m1 e1 m2 e2 in
  0 <= q /\ e' <= fexp (Zdigits2 q + e').
Proof.
  intros H1 H2. unfold SFdiv_core_binary.
  set (d1 := Zdigits2 m1). set (d2 := Zdigits2 m2).
  set (e' := Z.min (fexp (d1 + e1 - (d2 + e2))) (e1 - e2)).
  set (s := e1 - e2 - e').
  assert (Hs : 0 <= s) by (unfold s, e'; lia).
  set (m' := match s with Z.pos _ => Z.shiftl m1 s | 0 => m1 | Z.neg _ => 0 end).
  assert (Hm' : m' = m1 * 2 ^ s).
  { unfold m'. destruct s as [|p|p]; try lia.
    apply Z.shiftl_mul_pow2. lia. }
  assert (Hps : 0 < 2 ^ s) by (apply Z.pow_pos_nonneg; lia).
  assert (Hm'p : 0 < m') by nia.
  pose proof (Z_div_mod m' m2 ltac:(lia)) as Hdm.
  destruct (Z.div_eucl m' m2) as [q r]. destruct Hdm as [Hq Hr].
  assert (Hq0 : 0 <= q) by nia.
  split; [exact Hq0|].
  assert (Hdm' : Zdigits2 m' = d1 + s).
  { rewrite Hm'. apply Zdigits2_mul_pow2; lia. }
  pose proof (Zdigits2_bounds m' Hm'p) as [Hlo' Hhi'].
  pose proof (Zdigits2_bounds m2 H2) as [Hlo2 Hhi2]. fold d2 in Hlo2, Hhi2.
  rewrite Hdm' in Hlo', Hhi'.
  pose proof (Zdigits2_pos m1 H1) as Hd1p. fold d1 in Hd1p.
  pose proof (Zdigits2_pos m2 H2) as Hd2p. fold d2 in Hd2p.
  destruct (Z.eq_dec q 0) as [->|Hqn].
  - (* the quotient vanishes: the exponent is at most [emin] *)
    cbn [Zdigits2]. rewrite Z.add_0_l.
    assert (m' < m2) by lia.
    assert (d1 + s <= d2).
    { destruct (Z.le_gt_cases (d1 + s) d2) as [?|Hgt]; [assumption|].
      assert (2 ^ d2 <= 2 ^ (d1 + s - 1)) by (apply Z.pow_le_mono_r; lia). lia. }
    unfold e', s in *. unfold SpecFloat.fexp in *. lia.
  - assert (Hqp : 0 < q) by lia.
    assert (Hdq : d1 + s - d2 <= Zdigits2 q).
    { pose proof (Zdigits2_pos q Hqp).
      destruct (Z.le_gt_cases (d1 + s - d2) 0) as [?|Hpos]; [lia|].
      destruct (Z.le_gt_cases (d1 + s - d2) (Zdigits2 q)) as [?|Hgt]; [assumption|].
      exfalso. pose proof (Zdigits2_bounds q Hqp) as [_ Hhiq].
      assert (2 ^ Zdigits2 q <= 2 ^ (d1 + s - d2 - 1)) by (apply Z.pow_le_mono_r; lia).
      assert (Hsplit : 2 ^ (d1 + s - 1) = 2 ^ (d1 + s - d2 - 1) * 2 ^ d2).
      { rewrite <- Z.pow_add_r by lia. f_equal. lia. }
      assert (q + 1 <= 2 ^ (d1 + s - d2 - 1)) by lia.
      assert (m' < (q + 1) * m2) by nia.
      assert ((q + 1) * m2 < 2 ^ (d1 + s - d2 - 1) * 2 ^ d2) by nia.
      lia. }
    pose proof (fexp_mono prec emax (d1 + e1 - (d2 + e2)) (Zdigits2 q + e')
                  ltac:(unfold s in *; lia)).
    unfold e' in *. lia.
Qed.

Lemma SFdiv_valid x y : valid_binary prec emax (SFdiv prec emax x y) = true.
Proof.
  destruct x as [sx|sx| |sx mx ex], y as [sy|sy| |sy my ey]; try reflexivity.
  cbn [SFdiv].
  pose proof (SFdiv_core_binary_spec (Z.pos mx) ex (Z.pos my) ey ltac:(lia) ltac:(lia)) as H.
  destruct (SFdiv_core_binary prec emax (Z.pos mx) ex (Z.pos my) ey) as [[q e'] l].
  destruct H as [Hq He].
  destruct (binary_round_aux_spec prec emax Hprec (xorb sx sy) q e' l Hq He) as (m2 & _ & Hp).
  eapply packed_valid. exact Hp.
Qed.

Lemma SFdiv_signed sx mx ex sy my ey :
  signed_as (xorb sx sy)
    (SFdiv prec emax (S754_finite sx mx ex) (S754_finite sy my ey)).
Proof.
  cbn [SFdiv].
  pose proof (SFdiv_core_binary_spec (Z.pos mx) ex (Z.pos my) ey ltac:(lia) ltac:(lia)) as H.
  destruct (SFdiv_core_binary prec emax (Z.pos mx) ex (Z.pos my) ey) as [[q e'] l].
  destruct H as [Hq _]. apply binary_round_aux_signed. exact Hq.
Qed.

(** *** Order of canonical floats *)

Lemma SFleb_finite m1 e1 m2 e2 :
  SFleb (S754_finite false m1 e1) (S754_finite false m2 e2) = true <->
  e1 < e2 \/ (e1 = e2 /\ Z.pos m1 <= Z.pos m2).
Proof.
  unfold SFleb, SFcompare.
  destruct (Z.compare_spec e1 e2) as [He|He|He].
  - rewrite Pos.compare_cont_spec. cbn [Pos.switch_Eq].
    destruct (Pos.compare_spec m1 m2) as [Hm|Hm|Hm]; split; intros H; try discriminate;
      try reflexivity; try lia.
  - split; [lia | reflexivity].
  - split; [discriminate | lia].
Qed.

(** *** Addition of a non-negative float *)

Lemma SFadd_finite_ge mx ex md ed :
  canonical_mantissa prec emax mx ex = true ->
  let r := SFadd prec emax (S754_finite false mx ex) (S754_finite false md ed) in
  valid_binary prec emax r = true /\
  f64_nonneg r = true /\
  SFleb (S754_finite false mx ex) r = true.
Proof.
  intros Hc r. unfold r. cbn [SFadd cond_Zopp].
  set (ez := Z.min ex ed).
  pose proof (shl_align_spec mx ex ez) as Ha.
  pose proof (shl_align_spec md ed ez) as Hb.
  destruct (shl_align mx ex ez) as [a ea]. destruct (shl_align md ed ez) as [b eb].
  cbn [fst]. destruct Ha as [Hea Ha]. destruct Hb as [Heb Hb].
  replace ea with ez in * by (unfold ez in *; lia).
  change (Z.pos a + Z.pos b) with (Z.pos (a + b)). cbn [binary_normalize].
  destruct (binary_round_spec prec emax Hprec false (a + b) ez) as (m2 & Hm2 & Hp).
  cbv zeta in Hm2.
  split; [eapply packed_valid; exact Hp|].
  apply canonical_iff in Hc as Hcx.
  destruct (canonical_facts mx ex Hc) as (Hemin & _ & _).
  set (M := Z.pos (a + b)) in *.
  assert (HMa : Z.pos a <= M) by (unfold M; lia).
  assert (Hpz : 0 < 2 ^ (ex - ez)) by (apply Z.pow_pos_nonneg; unfold ez; lia).
  assert (Hda : Zdigits2 (Z.pos a) = Zdigits2 (Z.pos mx) + (ex - ez)).
  { rewrite Ha. apply Zdigits2_mul_pow2; unfold ez; lia. }
  pose proof (Zdigits2_mono (Z.pos a) M ltac:(lia) HMa) as HdM.
  set (e1 := fexp (Zdigits2 M + ez)) in *.
  assert (He1 : ex <= e1).
  { rewrite <- Hcx. apply fexp_mono. lia. }
  assert (Hez : ez <= ex) by (unfold ez; lia).
  replace (ez <=? e1) with true in Hm2 by (symmetry; apply Z.leb_le; lia).
  assert (Hp1 : 0 < 2 ^ (e1 - ez)) by (apply Z.pow_pos_nonneg; lia).
  destruct Hp as [[Hz _]|(m3 & e3 & Hm2p & Hm3 & He3 & Hc3 & Hr)].
  - (* the sum cannot round to zero *)
    exfalso. subst m2.
    assert (HMp : 0 < M) by (unfold M; lia).
    assert (Hd0 : Zdigits2 M <= e1 - ez) by (apply div_small_digits; lia).
    assert (e1 = emin) by (apply fexp_small; fold e1; lia).
    assert (e1 = ex) by lia.
    assert (Z.pos mx <= M / 2 ^ (e1 - ez)).
    { replace (e1 - ez) with (ex - ez) by lia.
      apply Z.div_le_lower_bound; [lia|]. lia. }
    lia.
  - destruct Hr as [[-> Hb3]|[-> _]]; [|split; reflexivity].
    split; [reflexivity|]. apply SFleb_finite.
    destruct (Z.eq_dec ex e3) as [Heq|Hne]; [right | left; lia].
    split; [exact Heq|].
    assert (e1 = ex) by lia.
    replace (e3 - e1) with 0 in Hm3 by lia. rewrite Z.mul_1_r in Hm3.
    assert (Z.pos mx <= M / 2 ^ (e1 - ez)).
    { replace (e1 - ez) with (ex - ez) by lia.
      apply Z.div_le_lower_bound; [lia|]. lia. }
    lia.
Qed.

End Format2.

Lemma f64_format : 0 < 53.
Proof. lia. Qed.

Lemma f64_leb_refl x : f64_nonneg x = true -> f64_leb x x = true.
Proof.
  destruct x as [s|[]| |[] m e]; cbn; try discriminate; try reflexivity.
  intros _. apply (SFleb_finite m e m e). right. split; [reflexivity | lia].
Qed.

Lemma f64_leb_zero_l s x : f64_nonneg x = true -> f64_leb (S754_zero s) x = true.
Proof. destruct x as [s'|[]| |[] m e]; cbn; try discriminate; reflexivity. Qed.

Lemma f64_leb_trans x y z :
  f64_nonneg x = true -> f64_nonneg y = true -> f64_nonneg z = true ->
  f64_leb x y = true -> f64_leb y z = true -> f64_leb x z = true.
Proof.
  destruct x as [sx|[]| |[] mx ex], y as [sy|[]| |[] my ey], z as [sz|[]| |[] mz ez];
    cbn [f64_nonneg negb]; try (intros; discriminate); intros _ _ _;
    try (intros _ _; reflexivity);
    try (intros H1 H2; cbn in H1, H2; discriminate).
  unfold f64_leb. rewrite !SFleb_finite. lia.
Qed.

(** Adding a non-negative float to a non-negative float never yields a
    smaller one. *)
Lemma f64_add_ge x d :
  valid_binary 53 1024 x = true -> f64_nonneg x = true ->
  valid_binary 53 1024 d = true -> f64_nonneg d = true ->
  valid_binary 53 1024 (f64_add x d) = true /\
  f64_nonneg (f64_add x d) = true /\
  f64_leb x (f64_add x d) = true.
Proof.
  intros Hvx Hx Hvd Hd.
  destruct x as [sx|[]| |[] mx ex]; try discriminate Hx;
    destruct d as [sd|[]| |[] md ed]; try discriminate Hd.
  - (* zero + zero *)
    cbn. destruct sx, sd; cbn; repeat split; reflexivity.
  - cbn. repeat split; reflexivity.
  - cbn [f64_add SFadd]. split; [exact Hvd|]. split; reflexivity.
  - cbn. repeat split; reflexivity.
  - cbn. repeat split; reflexivity.
  - cbn. repeat split; reflexivity.
  - cbn [f64_add SFadd]. split; [exact Hvx|]. split; [reflexivity|].
    apply (f64_leb_refl (S754_finite false mx ex)). reflexivity.
  - cbn. repeat split; reflexivity.
  - cbn [valid_binary] in Hvx. unfold bounded in Hvx.
    apply andb_true_iff in Hvx as [Hc _].
    exact (SFadd_finite_ge 53 1024 f64_format mx ex md ed Hc).
Qed.

Lemma shiftl_le_mono a b n : 0 <= a <= b -> Z.shiftl a n <= Z.shiftl b n.
Proof.
  intros H. destruct (Z.le_gt_cases 0 n) as [Hn|Hn].
  - rewrite !Z.shiftl_mul_pow2 by lia.
    apply Z.mul_le_mono_nonneg_r; [apply Z.pow_nonneg; lia | lia].
  - rewrite !Z.shiftl_div_pow2 by lia.
    apply Z.div_le_mono; [apply Z.pow_pos_nonneg; lia | lia].
Qed.

(** Truncation is monotone on canonical non-negative floats. *)
Lemma f64_trunc_mono x y ty :
  valid_binary 53 1024 x = true -> f64_nonneg x = true ->
  valid_binary 53 1024 y = true -> f64_nonneg y = true ->
  f64_leb x y = true -> f64_trunc y = Some ty ->
  exists tx, f64_trunc x = Some tx /\ 0 <= tx <= ty.
Proof.
  intros Hvx Hx Hvy Hy Hle Hty.
  destruct y as [sy|[]| |[] my ey]; try discriminate Hy; try discriminate Hty.
  - (* y is zero: so is x *)
    cbn in Hty. injection Hty as <-.
    destruct x as [sx|[]| |[] mx ex]; try discriminate Hx; try discriminate Hle.
    exists 0. split; [reflexivity | lia].
  - cbn [f64_trunc cond_Zopp] in Hty. injection Hty as <-.
    destruct x as [sx|[]| |[] mx ex]; try discriminate Hx; try discriminate Hle.
    + exists 0. split; [reflexivity|]. split; [lia|]. apply Z.shiftl_nonneg. lia.
    + exists (Z.shiftl (Z.pos mx) ex). split; [reflexivity|].
      split; [apply Z.shiftl_nonneg; lia|].
      apply (SFleb_finite mx ex my ey) in Hle.
      cbn [valid_binary] in Hvx, Hvy. unfold bounded in Hvx, Hvy.
      apply andb_true_iff in Hvx as [Hcx _]. apply andb_true_iff in Hvy as [Hcy _].
      destruct (canonical_facts 53 1024 mx ex Hcx) as (Hminx & Hdx & _).
      destruct (canonical_facts 53 1024 my ey Hcy) as (_ & _ & Hdy).
      destruct Hle as [Hlt|[-> Hm]]; [|apply shiftl_le_mono; lia].
      specialize (Hdy ltac:(lia)).
      pose proof (Zdigits2_bounds (Z.pos mx) ltac:(lia)) as [_ Hhix].
      pose proof (Zdigits2_bounds (Z.pos my) ltac:(lia)) as [Hloy _].
      rewrite Hdy in Hloy.
      assert (Z.pos mx < 2 ^ 53).
      { eapply Z.lt_le_trans; [exact Hhix|]. apply Z.pow_le_mono_r; lia. }
      replace ey with ((ey - ex) + ex) by lia.
      rewrite <- Z.shiftl_shiftl by lia.
      apply shiftl_le_mono. split; [lia|].
      rewrite Z.shiftl_mul_pow2 by lia.
      assert (2 ^ 1 <= 2 ^ (ey - ex)) by (apply Z.pow_le_mono_r; lia).
      change (2 ^ 1) with 2 in *. change (2 ^ (53 - 1)) with 4503599627370496 in Hloy.
      change (2 ^ 53) with 9007199254740992 in *. nia.
Qed.

Lemma shr_exact_nat n m :
  Nat.iter n shr_1 (Build_shr_record (Z.pos m * 2 ^ Z.of_nat n) false false) =
  Build_shr_record (Z.pos m) false false.
Proof.
  induction n as [|n IH].
  - cbn [Nat.iter nat_rect]. f_equal. cbn. lia.
  - rewrite Nat.iter_succ_r.
    assert (Hp : 0 < 2 ^ Z.of_nat n) by (apply Z.pow_pos_nonneg; lia).
    replace (Z.pos m * 2 ^ Z.of_nat (S n)) with (2 * (Z.pos m * 2 ^ Z.of_nat n))
      by (rewrite Nat2Z.inj_succ, Z.pow_succ_r; lia).
    destruct (Z.pos m * 2 ^ Z.of_nat n) as [|p|p] eqn:E; try lia.
    change (2 * Z.pos p) with (Z.pos p~0). cbn [shr_1 orb]. exact IH.
Qed.

Lemma shr_pos mrs e p : shr mrs e (Z.pos p) = (iter_pos shr_1 p mrs, e + Z.pos p).
Proof. reflexivity. Qed.

(** Multiplying by 1.0 is exact. *)
Lemma f64_mul_one x :
  valid_binary 53 1024 x = true -> f64_nonneg x = true -> f64_mul x f64_one = x.
Proof.
  intros Hv Hx.
  change f64_one with (S754_finite false 4503599627370496 (-52)).
  destruct x as [sx|[]| |[] m e]; try discriminate Hx.
  - cbn. destruct sx; reflexivity.
  - reflexivity.
  - cbn [valid_binary] in Hv. unfold bounded in Hv.
    apply andb_true_iff in Hv as [Hc Hb]. apply Z.leb_le in Hb.
    apply (canonical_iff 53 1024) in Hc as Hc'.
    cbn [f64_mul SFmul xorb].
    assert (Hm : Z.pos (m * 4503599627370496) = Z.pos m * 2 ^ Z.of_nat (Pos.to_nat 52))
      by (rewrite positive_nat_Z; lia).
    assert (Hd : Zdigits2 (Z.pos (m * 4503599627370496)) = Zdigits2 (Z.pos m) + 52).
    { rewrite Hm, positive_nat_Z. apply Zdigits2_mul_pow2; lia. }
    unfold binary_round_aux, shr_fexp.
    rewrite Hd.
    replace (Zdigits2 (Z.pos m) + 52 + (e + -52)) with (Zdigits2 (Z.pos m) + e) by lia.
    rewrite Hc'. replace (e - (e + -52)) with 52 by lia.
    cbn [shr_record_of_loc]. rewrite shr_pos, iter_pos_nat, Hm, shr_exact_nat.
    cbn [shr_m loc_of_shr_record round_nearest_even shr_record_of_loc].
    replace (e + -52 + 52) with e by lia. rewrite Hc'.
    replace (e - e) with 0 by lia. cbn [shr shr_m].
    replace (e <=? 1024 - 53) with true by (symmetry; apply Z.leb_le; lia).
    reflexivity.
Qed.

(** The energy increment of a tick is not negative when power and elapsed
    time are not. *)
Lemma increment_nonneg power elapsed :
  f64_nonneg_fin power = true -> f64_nonneg_fin elapsed = true ->
  f64_nonneg (f64_div (f64_mul power elapsed) (f64_of_Z 1000)) = true.
Proof.
  intros Hp He.
  change (f64_of_Z 1000) with (S754_finite false 8796093022208000 (-43)).
  assert (Hm : f64_nonneg (f64_mul power elapsed) = true).
  { destruct power as [sp|sp| |[] mp ep]; try discriminate Hp;
      destruct elapsed as [se|se| |[] me ee]; try discriminate He; try reflexivity.
    pose proof (f64_mul_signed false false mp ep me ee) as Hs. cbn [xorb] in Hs.
    destruct (f64_mul (S754_finite false mp ep) (S754_finite false me ee)) as [s|s| |s m e];
      cbn in Hs |- *; try contradiction; subst; reflexivity. }
  destruct (f64_mul power elapsed) as [s|[]| |[] m e]; try discriminate Hm; try reflexivity.
  pose proof (SFdiv_signed 53 1024 f64_format false m e false 8796093022208000 (-43)) as Hs.
  cbn [xorb] in Hs. unfold f64_div.
  destruct (SFdiv 53 1024 (S754_finite false m e) (S754_finite false 8796093022208000 (-43)))
    as [s|s| |s m' e']; cbn in Hs |- *; try contradiction; subst; reflexivity.
Qed.

(** ** Bounds on floats *)

Lemma pow2_split (a b : Z) : 0 <= a -> 0 <= b -> 2 ^ (a + b) = 2 ^ a * 2 ^ b.
Proof. intros. apply Z.pow_add_r; assumption. Qed.

Lemma lt_pow2_digits m n : 0 < m -> 0 <= n -> m < 2 ^ n <-> Zdigits2 m <= n.
Proof.
  intros Hm Hn. pose proof (Zdigits2_bounds m Hm) as [Hlo Hhi]. split.
  - intros H. destruct (Z.le_gt_cases (Zdigits2 m) n) as [?|Hgt]; [assumption|].
    assert (2 ^ n <= 2 ^ (Zdigits2 m - 1)) by (apply Z.pow_le_mono_r; lia). lia.
  - intros H. assert (2 ^ Zdigits2 m <= 2 ^ n) by (apply Z.pow_le_mono_r; lia). lia.
Qed.

Lemma le_pow2_mono k k' x : k <= k' -> le_pow2 k x -> le_pow2 k' x.
Proof.
  intros Hk. destruct x as [s|s| |s m e]; cbn; try tauto. intros [He Hm].
  split; [lia|]. assert (2 ^ (k - e) <= 2 ^ (k' - e)) by (apply Z.pow_le_mono_r; lia). lia.
Qed.

Lemma le_lt_pow2 k x : le_pow2 k x -> lt_pow2 (k + 1) x.
Proof.
  destruct x as [s|s| |s m e]; cbn [le_pow2 lt_pow2]; try tauto. intros [He Hm].
  assert (Z.pos m < 2 ^ (k + 1 - e)).
  { replace (k + 1 - e) with (k - e + 1) by lia. rewrite Z.pow_add_r by lia. lia. }
  apply lt_pow2_digits in H; lia.
Qed.

Lemma lt_le_pow2 k x : lt_pow2 k x -> le_pow2 k x.
Proof.
  destruct x as [s|s| |s m e]; cbn [le_pow2 lt_pow2]; try tauto. intros H.
  pose proof (Zdigits2_pos (Z.pos m) ltac:(lia)) as Hd.
  split; [lia|]. apply Z.lt_le_incl. apply lt_pow2_digits; lia.
Qed.

(** What rounding returns when the integer it rounded to is at most
    [2^(k - e1)]. *)
Lemma packed_le_pow2 s m2 e1 r k :
  packed 53 1024 s m2 e1 r ->
  m2 <= 2 ^ (k - e1) -> e1 <= k -> k <= 971 ->
  valid_binary 53 1024 r = true /\ le_pow2 k r /\
  (r = S754_zero s \/ exists m e, r = S754_finite s m e).
Proof.
  intros Hp Hm He Hk. split; [eapply packed_valid; exact Hp|].
  destruct Hp as [[_ ->]|(m3 & e3 & Hpos & Hval & Hee & Hc & Hr)].
  - split; [exact I | left; reflexivity].
  - assert (He3 : e3 <= k).
    { destruct (Z.le_gt_cases e3 k) as [?|Hgt]; [assumption|]. exfalso.
      assert (2 ^ (k - e1) < 2 ^ (e3 - e1)) by (apply Z.pow_lt_mono_r; lia).
      assert (0 < 2 ^ (e3 - e1)) by (apply Z.pow_pos_nonneg; lia). nia. }
    assert (Hm3 : Z.pos m3 <= 2 ^ (k - e3)).
    { replace (k - e1) with ((k - e3) + (e3 - e1)) in Hm by lia.
      rewrite Z.pow_add_r in Hm by lia.
      assert (0 < 2 ^ (e3 - e1)) by (apply Z.pow_pos_nonneg; lia).
      assert (0 < 2 ^ (k - e3)) by (apply Z.pow_pos_nonneg; lia). nia. }
    destruct Hr as [[-> _]|[-> Hinf]]; [|cbn in Hinf; lia].
    split; [split; assumption | right; eauto].
Qed.

Lemma round_aux_le_pow2 s mx ex l k :
  0 <= mx -> ex <= SpecFloat.fexp 53 1024 (Zdigits2 mx + ex) ->
  ex <= k -> mx < 2 ^ (k - ex) -> -1074 <= k <= 971 ->
  let r := binary_round_aux 53 1024 s mx ex l in
  valid_binary 53 1024 r = true /\ le_pow2 k r /\
  (r = S754_zero s \/ exists m e, r = S754_finite s m e).
Proof.
  intros Hmx Hpre Hek Hlt Hk r.
  destruct (binary_round_aux_spec 53 1024 f64_format s mx ex l Hmx Hpre) as (m2 & Hm2 & Hp).
  cbv zeta in Hm2. set (e1 := SpecFloat.fexp 53 1024 (Zdigits2 mx + ex)) in *.
  assert (He1 : e1 <= k).
  { unfold e1, SpecFloat.fexp, emin. destruct (Z.eq_dec mx 0) as [->|Hnz]; [cbn; lia|].
    assert (Zdigits2 mx <= k - ex) by (apply lt_pow2_digits; lia). lia. }
  apply (packed_le_pow2 s m2 e1 _ k Hp); try lia.
  assert (Hq : mx / 2 ^ (e1 - ex) < 2 ^ (k - e1)).
  { apply Z.div_lt_upper_bound; [apply Z.pow_pos_nonneg; lia|].
    rewrite <- Z.pow_add_r by lia. replace (e1 - ex + (k - e1)) with (k - ex) by lia. exact Hlt. }
  lia.
Qed.

Lemma round_le_pow2 s mx ex k :
  ex <= k -> Z.pos mx < 2 ^ (k - ex) -> -1074 <= k <= 971 ->
  let r := binary_round 53 1024 s mx ex in
  valid_binary 53 1024 r = true /\ le_pow2 k r /\
  (r = S754_zero s \/ exists m e, r = S754_finite s m e).
Proof.
  intros Hek Hlt Hk r.
  destruct (binary_round_spec 53 1024 f64_format s mx ex) as (m2 & Hm2 & Hp).
  cbv zeta in Hm2. set (e1 := SpecFloat.fexp 53 1024 (Zdigits2 (Z.pos mx) + ex)) in *.
  assert (He1 : e1 <= k).
  { unfold e1, SpecFloat.fexp, emin.
    assert (Zdigits2 (Z.pos mx) <= k - ex) by (apply lt_pow2_digits; lia). lia. }
  apply (packed_le_pow2 s m2 e1 _ k Hp); try lia.
  destruct (Z.leb_spec ex e1) as [Hle|Hgt].
  - assert (Hq : Z.pos mx / 2 ^ (e1 - ex) < 2 ^ (k - e1)).
    { apply Z.div_lt_upper_bound; [apply Z.pow_pos_nonneg; lia|].
      rewrite <- Z.pow_add_r by lia. replace (e1 - ex + (k - e1)) with (k - ex) by lia.
      exact Hlt. }
    lia.
  - assert (Hq : Z.pos mx * 2 ^ (ex - e1) < 2 ^ (k - e1)).
    { replace (k - e1) with ((k - ex) + (ex - e1)) by lia. rewrite Z.pow_add_r by lia.
      assert (0 < 2 ^ (ex - e1)) by (apply Z.pow_pos_nonneg; lia). nia. }
    lia.
Qed.

Lemma SFltb_finite m1 e1 m2 e2 :
  SFltb (S754_finite false m1 e1) (S754_finite false m2 e2) = true <->
  e1 < e2 \/ (e1 = e2 /\ Z.pos m1 < Z.pos m2).
Proof.
  unfold SFltb, SFcompare.
  destruct (Z.compare_spec e1 e2) as [He|He|He].
  - rewrite Pos.compare_cont_spec. cbn [Pos.switch_Eq].
    destruct (Pos.compare_spec m1 m2) as [Hm|Hm|Hm]; split; intros H; try discriminate;
      try reflexivity; try lia.
  - split; [lia | reflexivity].
  - split; [discriminate | lia].
Qed.

Lemma valid_finite s m e :
  valid_binary 53 1024 (S754_finite s m e) = true ->
  canonical_mantissa 53 1024 m e = true.
Proof.
  cbn [valid_binary]. unfold bounded. intros H. apply andb_true_iff in H. apply H.
Qed.

(** A canonical float with [|x| <= 2^k] is below [2^k] or is [2^k]. *)
Lemma le_pow2_cases k s m e :
  valid_binary 53 1024 (S754_finite s m e) = true -> -1022 <= k ->
  le_pow2 k (S754_finite s m e) ->
  lt_pow2 k (S754_finite s m e) \/ (Z.pos m = 2 ^ 52 /\ e = k - 52).
Proof.
  intros Hv Hk [He Hm]. apply valid_finite in Hv.
  apply (canonical_iff 53 1024) in Hv.
  destruct (Z.eq_dec (Z.pos m) (2 ^ (k - e))) as [Heq|Hne].
  - right.
    assert (Hd : Zdigits2 (Z.pos m) = k - e + 1).
    { apply Zdigits2_unique; [|lia]. replace (k - e + 1 - 1) with (k - e) by lia.
      rewrite Heq. split; [lia|]. apply Z.pow_lt_mono_r; lia. }
    rewrite Hd in Hv. unfold SpecFloat.fexp, emin in Hv.
    assert (e = k - 52) by lia. subst e. split; [|reflexivity].
    rewrite Heq. f_equal. lia.
  - left. cbn [lt_pow2].
    assert (Zdigits2 (Z.pos m) <= k - e) by (apply lt_pow2_digits; lia). lia.
Qed.

Lemma Zdigits2_mul_ge m n : 0 < m -> 0 < n -> Zdigits2 m + Zdigits2 n - 1 <= Zdigits2 (m * n).
Proof.
  intros Hm Hn.
  pose proof (Zdigits2_bounds m Hm) as [Hlm _].
  pose proof (Zdigits2_bounds n Hn) as [Hln _].
  pose proof (Zdigits2_bounds (m * n) ltac:(nia)) as [_ Hh].
  pose proof (Zdigits2_pos m Hm). pose proof (Zdigits2_pos n Hn).
  destruct (Z.le_gt_cases (Zdigits2 m + Zdigits2 n - 1) (Zdigits2 (m * n))) as [?|Hgt];
    [assumption|]. exfalso.
  assert (2 ^ Zdigits2 (m * n) <= 2 ^ (Zdigits2 m - 1 + (Zdigits2 n - 1)))
    by (apply Z.pow_le_mono_r; lia).
  rewrite Z.pow_add_r in H1 by lia.
  assert (0 < 2 ^ (Zdigits2 m - 1)) by (apply Z.pow_pos_nonneg; lia).
  assert (0 < 2 ^ (Zdigits2 n - 1)) by (apply Z.pow_pos_nonneg; lia).
  nia.
Qed.

(** The product of two canonical mantissas needs no alignment before it
    is rounded. *)
Lemma mul_pre mx ex my ey :
  canonical_mantissa 53 1024 mx ex = true -> canonical_mantissa 53 1024 my ey = true ->
  ex + ey <= SpecFloat.fexp 53 1024 (Zdigits2 (Z.pos (mx * my)) + (ex + ey)).
Proof.
  intros Hx Hy.
  destruct (canonical_facts 53 1024 mx ex Hx) as (Hex & Hdx & Hnx).
  destruct (canonical_facts 53 1024 my ey Hy) as (Hey & Hdy & Hny).
  pose proof (Zdigits2_mul_ge (Z.pos mx) (Z.pos my) ltac:(lia) ltac:(lia)) as Hd.
  change (Z.pos mx * Z.pos my) with (Z.pos (mx * my)) in Hd.
  pose proof (Zdigits2_pos (Z.pos mx) ltac:(lia)).
  pose proof (Zdigits2_pos (Z.pos my) ltac:(lia)).
  unfold SpecFloat.fexp, emin in *. lia.
Qed.

Lemma le_pow2_e k s m e : le_pow2 k (S754_finite s m e) -> e <= k.
Proof. intros [H _]. exact H. Qed.

Lemma lt_pow2_lt k s m e : lt_pow2 k (S754_finite s m e) -> e < k /\ Z.pos m < 2 ^ (k - e).
Proof.
  cbn [lt_pow2]. intros H. pose proof (Zdigits2_pos (Z.pos m) ltac:(lia)).
  split; [lia|]. apply lt_pow2_digits; lia.
Qed.

(** A product stays within the product of the bounds of its factors, and
    is zero or positive when they are. *)
Lemma f64_mul_bound a b x y :
  valid_binary 53 1024 x = true -> valid_binary 53 1024 y = true ->
  (le_pow2 a x /\ lt_pow2 b y) \/ (lt_pow2 a x /\ le_pow2 b y) ->
  -1074 <= a + b <= 971 ->
  valid_binary 53 1024 (f64_mul x y) = true /\
  le_pow2 (a + b) (f64_mul x y) /\
  (f64_nonneg_fin x = true -> f64_nonneg_fin y = true -> f64_nonneg_fin (f64_mul x y) = true).
Proof.
  intros Hvx Hvy Hb Hk.
  destruct x as [sx|sx| |sx mx ex]; try (cbn in Hb; tauto);
    destruct y as [sy|sy| |sy my ey]; try (cbn in Hb; tauto);
    try (cbn; repeat split; reflexivity).
  cbn [f64_mul SFmul].
  apply valid_finite in Hvx, Hvy.
  assert (Hlt : ex + ey <= a + b /\ Z.pos (mx * my) < 2 ^ (a + b - (ex + ey))).
  { replace (a + b - (ex + ey)) with ((a - ex) + (b - ey)) by lia.
    destruct Hb as [[Hx Hy]|[Hx Hy]].
    - destruct Hx as [Hxe Hxm]. apply lt_pow2_lt in Hy as [Hye Hym].
      rewrite Z.pow_add_r by lia. split; [lia|].
      change (Z.pos (mx * my)) with (Z.pos mx * Z.pos my). nia.
    - destruct Hy as [Hye Hym]. apply lt_pow2_lt in Hx as [Hxe Hxm].
      rewrite Z.pow_add_r by lia. split; [lia|].
      change (Z.pos (mx * my)) with (Z.pos mx * Z.pos my). nia. }
  destruct Hlt as [Hle Hlt].
  destruct (round_aux_le_pow2 (xorb sx sy) (Z.pos (mx * my)) (ex + ey) loc_Exact (a + b)
              ltac:(lia) (mul_pre mx ex my ey Hvx Hvy) Hle Hlt Hk) as (Hv & Hb' & Hs).
  split; [exact Hv|]. split; [exact Hb'|].
  intros Hnx Hny. destruct sx, sy; try discriminate. cbn [xorb] in Hs |- *.
  destruct Hs as [->|(m & e & ->)]; reflexivity.
Qed.

(** Normalising an integer mantissa below [2^(k - e)]. *)
Lemma normalize_le_pow2 M ez k :
  ez <= k -> Z.abs M < 2 ^ (k - ez) -> -1074 <= k <= 971 ->
  let r := binary_normalize 53 1024 M ez false in
  valid_binary 53 1024 r = true /\ le_pow2 k r /\
  (0 <= M -> f64_nonneg_fin r = true).
Proof.
  intros He HM Hk. destruct M as [|p|p]; cbn [binary_normalize].
  - repeat split.
  - destruct (round_le_pow2 false p ez k He ltac:(lia) Hk) as (Hv & Hb & Hs).
    split; [exact Hv|]. split; [exact Hb|]. intros _.
    destruct Hs as [->|(m & e & ->)]; reflexivity.
  - destruct (round_le_pow2 true p ez k He ltac:(lia) Hk) as (Hv & Hb & Hs).
    split; [exact Hv|]. split; [exact Hb|]. lia.
Qed.

Lemma f64_of_Z_bound n k :
  0 <= n < 2 ^ k -> 0 <= k <= 971 ->
  valid_binary 53 1024 (f64_of_Z n) = true /\ le_pow2 k (f64_of_Z n) /\
  f64_nonneg_fin (f64_of_Z n) = true.
Proof.
  intros Hn Hk. unfold f64_of_Z.
  destruct (normalize_le_pow2 n 0 k ltac:(lia) ltac:(rewrite Z.sub_0_r; lia) ltac:(lia))
    as (Hv & Hb & Hs).
  repeat split; try assumption. apply Hs. lia.
Qed.

Ltac align_operands mx ex my ey ez a b Ha Hb :=
  pose proof (shl_align_spec mx ex ez) as Ha;
  pose proof (shl_align_spec my ey ez) as Hb;
  destruct (shl_align mx ex ez) as [a ?ea]; destruct (shl_align my ey ez) as [b ?eb];
  cbn [fst]; destruct Ha as [-> Ha]; destruct Hb as [-> Hb].

(** The sum of two floats that are zero or positive. *)
Lemma f64_add_bound a b x y :
  valid_binary 53 1024 x = true -> valid_binary 53 1024 y = true ->
  f64_nonneg_fin x = true -> f64_nonneg_fin y = true ->
  le_pow2 a x -> le_pow2 b y -> -1074 <= Z.max a b + 2 <= 971 ->
  valid_binary 53 1024 (f64_add x y) = true /\
  le_pow2 (Z.max a b + 2) (f64_add x y) /\
  f64_nonneg_fin (f64_add x y) = true.
Proof.
  intros Hvx Hvy Hnx Hny Hbx Hby Hk.
  destruct x as [sx|sx| |[] mx ex]; try discriminate Hnx;
    destruct y as [sy|sy| |[] my ey]; try discriminate Hny.
  - destruct sx, sy; cbn; repeat split.
  - cbn [f64_add SFadd]. split; [exact Hvy|]. split; [|reflexivity].
    eapply le_pow2_mono; [|exact Hby]. lia.
  - cbn [f64_add SFadd]. split; [exact Hvx|]. split; [|reflexivity].
    eapply le_pow2_mono; [|exact Hbx]. lia.
  - cbn [f64_add SFadd cond_Zopp]. set (ez := Z.min ex ey).
    align_operands mx ex my ey ez p q Hp Hq.
    replace (Z.min ex ez) with ez in * by (unfold ez; lia).
    replace (Z.min ey ez) with ez in * by (unfold ez; lia).
    destruct Hbx as [Hxe Hxm]. destruct Hby as [Hye Hym].
    set (c := Z.max a b + 2) in *.
    assert (Hpb : Z.pos p <= 2 ^ (c - 2 - ez)).
    { rewrite Hp. replace (c - 2 - ez) with ((c - 2 - ex) + (ex - ez)) by lia.
      rewrite Z.pow_add_r by (unfold ez, c; lia).
      assert (2 ^ (a - ex) <= 2 ^ (c - 2 - ex)) by (apply Z.pow_le_mono_r; unfold c; lia).
      assert (0 < 2 ^ (ex - ez)) by (apply Z.pow_pos_nonneg; unfold ez; lia).
      apply Z.mul_le_mono_nonneg_r; lia. }
    assert (Hqb : Z.pos q <= 2 ^ (c - 2 - ez)).
    { rewrite Hq. replace (c - 2 - ez) with ((c - 2 - ey) + (ey - ez)) by lia.
      rewrite Z.pow_add_r by (unfold ez, c; lia).
      assert (2 ^ (b - ey) <= 2 ^ (c - 2 - ey)) by (apply Z.pow_le_mono_r; unfold c; lia).
      assert (0 < 2 ^ (ey - ez)) by (apply Z.pow_pos_nonneg; unfold ez; lia).
      apply Z.mul_le_mono_nonneg_r; lia. }
    assert (Hc : 2 ^ (c - ez) = 4 * 2 ^ (c - 2 - ez)).
    { replace (c - ez) with (2 + (c - 2 - ez)) by lia.
      rewrite Z.pow_add_r by (unfold ez, c; lia). reflexivity. }
    destruct (normalize_le_pow2 (Z.pos p + Z.pos q) ez c
                ltac:(unfold ez, c; lia) ltac:(lia) Hk) as (Hv & Hb & Hs).
    repeat split; try assumption. apply Hs. lia.
Qed.

(** [1 + x] for [|x| <= 1] is zero or positive, and at most 2. *)
Lemma one_plus_bound x :
  valid_binary 53 1024 x = true -> le_pow2 0 x ->
  valid_binary 53 1024 (f64_add f64_one x) = true /\
  le_pow2 2 (f64_add f64_one x) /\
  f64_nonneg_fin (f64_add f64_one x) = true.
Proof.
  intros Hv Hb. change f64_one with (S754_finite false 4503599627370496 (-52)).
  destruct x as [s|s| |s m e]; try (cbn in Hb; tauto).
  - cbn. repeat split; lia.
  - cbn [f64_add SFadd cond_Zopp]. set (ez := Z.min (-52) e).
    align_operands 4503599627370496%positive (-52) m e ez p q Hp Hq.
    replace (Z.min (-52) ez) with ez in * by (unfold ez; lia).
    replace (Z.min e ez) with ez in * by (unfold ez; lia).
    destruct Hb as [He Hm]. rewrite Z.sub_0_l in Hm.
    assert (Hp' : Z.pos p = 2 ^ (- ez)).
    { rewrite Hp. change (Z.pos 4503599627370496) with (2 ^ 52).
      rewrite <- Z.pow_add_r by (unfold ez; lia). f_equal. lia. }
    assert (Hq' : Z.pos q <= 2 ^ (- ez)).
    { rewrite Hq. replace (- ez) with (- e + (e - ez)) by lia.
      rewrite Z.pow_add_r by (unfold ez; lia).
      assert (0 < 2 ^ (e - ez)) by (apply Z.pow_pos_nonneg; unfold ez; lia). nia. }
    assert (Hc : 2 ^ (2 - ez) = 4 * 2 ^ (- ez)).
    { replace (2 - ez) with (2 + - ez) by lia.
      rewrite Z.pow_add_r by (unfold ez; lia). reflexivity. }
    assert (0 < 2 ^ (- ez)) by (apply Z.pow_pos_nonneg; unfold ez; lia).
    destruct (normalize_le_pow2 (Z.pos p + cond_Zopp s (Z.pos q)) ez 2
                ltac:(unfold ez; lia) ltac:(destruct s; cbn [cond_Zopp]; lia) ltac:(lia))
      as (Hv' & Hb' & Hs).
    repeat split; try assumption. apply Hs. destruct s; cbn [cond_Zopp]; lia.
Qed.

(** [u - 1] for [0 <= u <= 2] has [|u - 1| <= 1]. *)
Lemma sub_one_bound u :
  valid_binary 53 1024 u = true -> f64_nonneg_fin u = true -> le_pow2 1 u ->
  valid_binary 53 1024 (f64_sub u f64_one) = true /\ le_pow2 0 (f64_sub u f64_one).
Proof.
  intros Hv Hn Hb. change f64_one with (S754_finite false 4503599627370496 (-52)).
  destruct u as [s|s| |[] m e]; try discriminate Hn.
  - cbn. repeat split; lia.
  - destruct (le_pow2_cases 1 false m e Hv ltac:(lia) Hb) as [Hlt|[Hm He]].
    + cbn [f64_sub SFsub cond_Zopp]. set (ez := Z.min e (-52)).
      align_operands m e 4503599627370496%positive (-52) ez p q Hp Hq.
      replace (Z.min e ez) with ez in * by (unfold ez; lia).
      replace (Z.min (-52) ez) with ez in * by (unfold ez; lia).
      apply lt_pow2_lt in Hlt as [He Hm].
      assert (Hq' : Z.pos q = 2 ^ (- ez)).
      { rewrite Hq. change (Z.pos 4503599627370496) with (2 ^ 52).
        rewrite <- Z.pow_add_r by (unfold ez; lia). f_equal. lia. }
      assert (Hp' : Z.pos p < 2 * 2 ^ (- ez)).
      { rewrite Hp. replace (- ez) with (- e + (e - ez)) by lia.
        rewrite Z.pow_add_r by (unfold ez; lia).
        replace (1 - e) with (1 + - e) in Hm by lia. rewrite Z.pow_add_r in Hm by lia.
        change (2 ^ 1) with 2 in Hm.
        assert (0 < 2 ^ (e - ez)) by (apply Z.pow_pos_nonneg; unfold ez; lia). nia. }
      destruct (normalize_le_pow2 (Z.pos p - Z.pos q) ez 0
                  ltac:(unfold ez; lia) ltac:(rewrite Z.sub_0_l; lia) ltac:(lia))
        as (Hv' & Hb' & _).
      split; assumption.
    + assert (m = 4503599627370496%positive) by (apply Pos2Z.inj; exact Hm).
      subst m e. vm_compute. repeat split; intros; discriminate.
Qed.

(** A draw in [[0, 1)]. *)
Lemma draw_ok_bound r :
  draw_ok r = true ->
  valid_binary 53 1024 r = true /\ f64_nonneg_fin r = true /\ lt_pow2 0 r.
Proof.
  unfold draw_ok. intros H. apply andb_true_iff in H as [H Hlt].
  apply andb_true_iff in H as [Hv Hle]. split; [exact Hv|].
  change f64_one with (S754_finite false 4503599627370496 (-52)) in Hlt.
  destruct r as [s|[]| |[] m e]; try discriminate Hle; try discriminate Hlt.
  - split; [reflexivity | exact I].
  - split; [reflexivity|]. cbn [lt_pow2].
    apply SFltb_finite in Hlt. apply valid_finite in Hv.
    destruct (canonical_facts 53 1024 m e Hv) as (_ & Hd & _).
    destruct Hlt as [He|[He Hm]]; [lia|].
    change (Z.pos 4503599627370496) with (2 ^ 52) in Hm.
    assert (Zdigits2 (Z.pos m) <= 52) by (apply lt_pow2_digits; lia). lia.
Qed.

(** The variance the normal update works with: the configured one, or the
    default when that is zero. *)
Lemma variance_bound v :
  valid_binary 53 1024 v = true -> f64_leb f64_zero v = true -> f64_leb v f64_one = true ->
  let v' := if f64_eqb v f64_zero then f64_lit 5 1000 else v in
  valid_binary 53 1024 v' = true /\ le_pow2 0 v'.
Proof.
  intros Hv Hlo Hhi v'. unfold v'.
  destruct (f64_eqb v f64_zero); [vm_compute; repeat split; intros; discriminate|].
  split; [exact Hv|].
  change f64_one with (S754_finite false 4503599627370496 (-52)) in Hhi.
  destruct v as [s|[]| |[] m e]; try discriminate Hlo; try discriminate Hhi.
  - exact I.
  - apply SFleb_finite in Hhi. apply valid_finite in Hv.
    destruct (canonical_facts 53 1024 m e Hv) as (_ & Hd & _).
    cbn [le_pow2]. rewrite Z.sub_0_l.
    change (Z.pos 4503599627370496) with (2 ^ 52) in Hhi.
    destruct Hhi as [He|[He Hm]].
    + split; [lia|].
      assert (Z.pos m < 2 ^ 53) by (apply lt_pow2_digits; lia).
      assert (2 ^ 53 <= 2 ^ (- e)) by (apply Z.pow_le_mono_r; lia). lia.
    + subst e. split; [lia|]. exact Hm.
Qed.

(** [base * (1 + (r*2 - 1) * variance)] for a draw in [[0, 1)] and a
    variance of at most 1 is zero or positive. *)
Lemma fluctuate_bound a base r variance :
  valid_binary 53 1024 base = true -> f64_nonneg_fin base = true -> lt_pow2 a base ->
  draw_ok r = true ->
  valid_binary 53 1024 variance = true -> le_pow2 0 variance ->
  -1074 <= a + 2 <= 971 ->
  valid_binary 53 1024 (fluctuate base r variance) = true /\
  le_pow2 (a + 2) (fluctuate base r variance) /\
  f64_nonneg_fin (fluctuate base r variance) = true.
Proof.
  intros Hvb Hnb Hbb Hr Hvv Hbv Hk. unfold fluctuate.
  destruct (draw_ok_bound r Hr) as (Hvr & Hnr & Hbr).
  assert (Hv2 : valid_binary 53 1024 (f64_of_Z 2) = true) by (vm_compute; reflexivity).
  assert (Hb2 : le_pow2 1 (f64_of_Z 2)) by (vm_compute; split; intros; discriminate).
  destruct (f64_mul_bound 0 1 r (f64_of_Z 2) Hvr Hv2 (or_intror (conj Hbr Hb2)) ltac:(lia))
    as (Hvu & Hbu & Hnu).
  specialize (Hnu Hnr eq_refl). cbn [Z.add] in Hbu.
  set (u := f64_mul r (f64_of_Z 2)) in *.
  destruct (sub_one_bound u Hvu Hnu Hbu) as (Hvt & Hbt).
  set (t := f64_sub u f64_one) in *.
  assert (Hx : valid_binary 53 1024 (f64_mul t variance) = true /\
               le_pow2 0 (f64_mul t variance)).
  { destruct variance as [sv|sv| |sv mv ev]; try (cbn in Hbv; tauto).
    - destruct (f64_mul_bound 0 0 t (S754_zero sv) Hvt Hvv (or_introl (conj Hbt I)) ltac:(lia))
        as (H1 & H2 & _). split; assumption.
    - destruct (le_pow2_cases 0 sv mv ev Hvv ltac:(lia) Hbv) as [Hlt|[Hm He]].
      + destruct (f64_mul_bound 0 0 t _ Hvt Hvv (or_introl (conj Hbt Hlt)) ltac:(lia))
          as (H1 & H2 & _). split; assumption.
      + destruct t as [st|st| |st mt et];
          [cbn; split; [reflexivity | exact I] | contradiction Hbt | contradiction Hbt |].
        destruct (le_pow2_cases 0 st mt et Hvt ltac:(lia) Hbt) as [Hlt|[Hmt Het]].
        * destruct (f64_mul_bound 0 0 _ _ Hvt Hvv (or_intror (conj Hlt Hbv)) ltac:(lia))
            as (H1 & H2 & _). split; assumption.
        * assert (mv = 4503599627370496%positive) by (apply Pos2Z.inj; exact Hm).
          assert (mt = 4503599627370496%positive) by (apply Pos2Z.inj; exact Hmt).
          subst mv mt ev et.
          destruct st, sv; vm_compute; repeat split; intros; discriminate. }
  destruct Hx as [Hvx Hbx].
  destruct (one_plus_bound _ Hvx Hbx) as (Hvf & Hbf & Hnf).
  destruct (f64_mul_bound a 2 base _ Hvb Hvf (or_intror (conj Hbb Hbf)) Hk)
    as (Hvz & Hbz & Hnz).
  repeat split; try assumption. apply Hnz; assumption.
Qed.

Lemma SFdiv_core_binary_le m1 e1 m2 e2 :
  0 < m1 -> 0 < m2 ->
  let '(q, e', l) := SFdiv_core_binary 53 1024 m1 e1 m2 e2 in
  e' <= e1 - e2 /\ q * m2 <= m1 * 2 ^ (e1 - e2 - e').
Proof.
  intros H1 H2. unfold SFdiv_core_binary.
  set (d1 := Zdigits2 m1). set (d2 := Zdigits2 m2).
  set (e' := Z.min (SpecFloat.fexp 53 1024 (d1 + e1 - (d2 + e2))) (e1 - e2)).
  set (s := e1 - e2 - e').
  assert (Hs : 0 <= s) by (unfold s, e'; lia).
  set (m' := match s with Z.pos _ => Z.shiftl m1 s | 0 => m1 | Z.neg _ => 0 end).
  assert (Hm' : m' = m1 * 2 ^ s).
  { unfold m'. destruct s as [|p|p]; try lia.
    apply Z.shiftl_mul_pow2. lia. }
  pose proof (Z_div_mod m' m2 ltac:(lia)) as Hdm.
  destruct (Z.div_eucl m' m2) as [q r]. destruct Hdm as [Hq Hr].
  split; [unfold e'; lia|]. fold s. rewrite <- Hm'. lia.
Qed.

(** A quotient by a positive normal float: zero or positive, and within
    the quotient of the bounds. *)
Lemma f64_div_bound a x my ey :
  valid_binary 53 1024 x = true -> f64_nonneg_fin x = true -> le_pow2 a x ->
  canonical_mantissa 53 1024 my ey = true -> 2 ^ 52 <= Z.pos my ->
  -1022 <= a -> -1074 <= a - ey - 51 <= 971 ->
  let r := f64_div x (S754_finite false my ey) in
  valid_binary 53 1024 r = true /\ le_pow2 (a - ey - 51) r /\ f64_nonneg_fin r = true.
Proof.
  intros Hv Hn Hb Hcy Hmy Ha Hk r. unfold r.
  destruct x as [sx|sx| |[] mx ex]; try discriminate Hn.
  - cbn. repeat split.
  - cbn [f64_div SFdiv xorb].
    pose proof (SFdiv_core_binary_spec 53 1024 f64_format (Z.pos mx) ex (Z.pos my) ey
                  ltac:(lia) ltac:(lia)) as Hs.
    pose proof (SFdiv_core_binary_le (Z.pos mx) ex (Z.pos my) ey ltac:(lia) ltac:(lia)) as Hl.
    destruct (SFdiv_core_binary 53 1024 (Z.pos mx) ex (Z.pos my) ey) as [[q e'] l].
    destruct Hs as [Hq Hpre]. destruct Hl as [He' Hqm].
    destruct Hb as [Hxe Hxm]. apply valid_finite in Hv.
    destruct (canonical_facts 53 1024 mx ex Hv) as (Hemin & Hdx & Hnx).
    unfold emin in *.
    assert (Hex : ex <= a - 52).
    { destruct (Z.eq_dec ex (-1074)) as [->|Hne]; [lia|].
      specialize (Hnx ltac:(lia)).
      pose proof (Zdigits2_bounds (Z.pos mx) ltac:(lia)) as [Hlo _]. rewrite Hnx in Hlo.
      change (53 - 1) with 52 in Hlo.
      destruct (Z.le_gt_cases 52 (a - ex)) as [?|Hgt]; [lia|].
      assert (2 ^ (a - ex) < 2 ^ 52) by (apply Z.pow_lt_mono_r; lia). lia. }
    set (k := a - ey - 51) in *.
    assert (Hqb : q < 2 ^ (k - e')).
    { assert (Hp1 : 0 < 2 ^ (ex - ey - e')) by (apply Z.pow_pos_nonneg; lia).
      assert (H1 : q * 2 ^ 52 <= 2 ^ (a - ex) * 2 ^ (ex - ey - e')).
      { etransitivity; [apply Z.mul_le_mono_nonneg_l; [exact Hq | exact Hmy]|].
        etransitivity; [exact Hqm|]. apply Z.mul_le_mono_nonneg_r; lia. }
      rewrite <- Z.pow_add_r in H1 by lia.
      replace (a - ex + (ex - ey - e')) with ((k - e' - 1) + 52) in H1 by (unfold k; lia).
      rewrite Z.pow_add_r in H1 by (unfold k; lia).
      replace (k - e') with ((k - e' - 1) + 1) by lia.
      rewrite Z.pow_add_r by (unfold k; lia). change (2 ^ 1) with 2.
      assert (0 < 2 ^ (k - e' - 1)) by (apply Z.pow_pos_nonneg; unfold k; lia).
      assert (q <= 2 ^ (k - e' - 1)).
      { apply (Z.mul_le_mono_pos_r _ _ (2 ^ 52)); [reflexivity | exact H1]. }
      lia. }
    destruct (round_aux_le_pow2 false q e' l k Hq Hpre ltac:(unfold k; lia) Hqb Hk)
      as (Hv' & Hb' & Hs).
    split; [exact Hv'|]. split; [exact Hb'|].
    destruct Hs as [->|(m & e & ->)]; reflexivity.
Qed.

(** A duration that is zero or positive is a number of hours that is zero
    or positive. *)
Lemma Hours_nonneg d : 0 <= d < 2 ^ 63 -> f64_nonneg_fin (Hours d) = true.
Proof.
  intros Hd. unfold Hours, Hour.
  rewrite Z.quot_div_nonneg, Z.rem_mod_nonneg by lia.
  assert (Hh : 0 <= d / 3600000000000 < 2 ^ 22).
  { split; [apply Z.div_pos; lia|]. apply Z.div_lt_upper_bound; lia. }
  pose proof (Z.mod_pos_bound d 3600000000000 ltac:(lia)) as Hn.
  destruct (f64_of_Z_bound (d / 3600000000000) 22 Hh ltac:(lia)) as (Hv1 & Hb1 & Hn1).
  destruct (f64_of_Z_bound (d mod 3600000000000) 42 ltac:(lia) ltac:(lia)) as (Hv2 & Hb2 & Hn2).
  assert (HC : f64_of_Z 3600000000000 = S754_finite false 7372800000000000 (-11))
    by (vm_compute; reflexivity).
  rewrite HC.
  assert (Hcan : canonical_mantissa 53 1024 7372800000000000 (-11) = true) by (vm_compute; reflexivity).
  assert (Hbig : 2 ^ 52 <= Z.pos 7372800000000000) by lia.
  pose proof (f64_div_bound 42 _ 7372800000000000 (-11) Hv2 Hn2 Hb2 Hcan Hbig
              ltac:(lia) ltac:(lia)) as H3.
  cbv zeta in H3. destruct H3 as (Hv3 & Hb3 & Hn3).
  replace (42 - -11 - 51) with 2 in Hb3 by lia.
  destruct (f64_add_bound 22 2 _ _ Hv1 Hv3 Hn1 Hn3 Hb1 Hb3 ltac:(lia)) as (_ & _ & H).
  exact H.
Qed.

Lemma Normal_elapsed_nonneg env n :
  lastUpdate n <= now_since env -> f64_nonneg_fin (Normal_elapsed env n) = true.
Proof.
  intros H. unfold Normal_elapsed, time_Since. apply Hours_nonneg. lia.
Qed.

(** With the base values of the first update, draws in [[0, 1)] and a
    variance of at most 1, the power of a tick is zero or positive. *)
Lemma Normal_power_nonneg env params n :
  baseVoltage n = f64_of_Z 220 -> baseCurrent n = f64_lit 155 10 ->
  draws_ok env = true ->
  (let v := VoltageVariance params in
   let v' := if f64_eqb v f64_zero then f64_lit 5 1000 else v in
   valid_binary 53 1024 v' = true /\ le_pow2 0 v') ->
  f64_nonneg_fin (Normal_power env params n) = true.
Proof.
  intros Hbv Hbc Hd [Hvv Hbvar]. unfold draws_ok in Hd.
  apply andb_true_iff in Hd as [Hd Hrc]. apply andb_true_iff in Hd as [Hrv _].
  unfold Normal_power, Normal_voltage, Normal_current. rewrite Hbv, Hbc.
  assert (V1 : valid_binary 53 1024 (f64_of_Z 220) = true) by (vm_compute; reflexivity).
  assert (N1 : f64_nonneg_fin (f64_of_Z 220) = true) by (vm_compute; reflexivity).
  assert (B1 : lt_pow2 8 (f64_of_Z 220)) by (vm_compute; intros; discriminate).
  assert (V2 : valid_binary 53 1024 (f64_lit 155 10) = true) by (vm_compute; reflexivity).
  assert (N2 : f64_nonneg_fin (f64_lit 155 10) = true) by (vm_compute; reflexivity).
  assert (B2 : lt_pow2 4 (f64_lit 155 10)) by (vm_compute; intros; discriminate).
  assert (V3 : valid_binary 53 1024 (f64_lit 2 100) = true) by (vm_compute; reflexivity).
  assert (B3 : le_pow2 0 (f64_lit 2 100)) by (vm_compute; split; intros; discriminate).
  assert (V4 : valid_binary 53 1024 (f64_lit 95 100) = true) by (vm_compute; reflexivity).
  assert (N4 : f64_nonneg_fin (f64_lit 95 100) = true) by (vm_compute; reflexivity).
  assert (B4 : lt_pow2 0 (f64_lit 95 100)) by (vm_compute; intros; discriminate).
  destruct (fluctuate_bound 8 _ (rand_voltage env) _ V1 N1 B1 Hrv Hvv Hbvar ltac:(lia))
    as (Hv1 & Hb1 & Hn1).
  destruct (fluctuate_bound 4 _ (rand_current env) _ V2 N2 B2 Hrc V3 B3 ltac:(lia))
    as (Hv2 & Hb2 & Hn2).
  apply le_lt_pow2 in Hb2.
  destruct (f64_mul_bound (8 + 2) (4 + 2 + 1) _ _ Hv1 Hv2 (or_introl (conj Hb1 Hb2)) ltac:(lia))
    as (Hv3 & Hb3 & Hn3).
  specialize (Hn3 Hn1 Hn2).
  destruct (f64_mul_bound (8 + 2 + (4 + 2 + 1)) 0 _ _ Hv3 V4
              (or_introl (conj Hb3 B4)) ltac:(lia))
    as (_ & _ & Hn4).
  apply Hn4; [exact Hn3 | exact N4].
Qed.

(** ** The energy meter *)

Lemma SetScaledValue_frame impl_conv a v rm :
  let rm' := snd (SetScaledValue impl_conv a v rm) in
  definitions rm' = definitions rm /\
  length (holdingRegisters rm') = length (holdingRegisters rm) /\
  forall j : nat, j <> Z.to_nat (holdingIndex a) -> j <> Z.to_nat (holdingIndex a + 1) ->
    holdingRegisters rm' !! j = holdingRegisters rm !! j.
Proof.
  unfold SetScaledValue.
  destruct (definitions rm !! a) as [meta|].
  - destruct (holdingIndex a <? 0); [cbn; auto|].
    destruct (MetaDataType meta);
      match goal with
      | |- context [if ?b then _ else _] => destruct b
      end; cbn [snd definitions holdingRegisters set_holdingRegisters];
      repeat split; try reflexivity;
      try (apply length_insert); try (apply store2_length);
      intros j H1 H2;
      first [ apply list_lookup_insert_ne; congruence
            | apply store2_lookup_other; assumption ].
  - destruct ((holdingIndex a <? 0) || (len (holdingRegisters rm) <=? holdingIndex a));
      cbn [snd definitions holdingRegisters set_holdingRegisters];
      repeat split; try reflexivity; try (apply length_insert);
      intros j H1 H2; apply list_lookup_insert_ne; congruence.
Qed.

Lemma lookup_total_eq (l k : list Z) (j : nat) : l !! j = k !! j -> l !!! j = k !!! j.
Proof. intros H. rewrite !list_lookup_total_alt, H. reflexivity. Qed.

Lemma SetScaledValue_keeps_defined impl_conv a v rm :
  energy_register_defined rm ->
  energy_register_defined (snd (SetScaledValue impl_conv a v rm)).
Proof.
  destruct (SetScaledValue_frame impl_conv a v rm) as (Hd & Hl & _).
  intros (meta & H1 & H2 & H3 & H4). exists meta. rewrite Hd. unfold len. rewrite Hl.
  repeat split; assumption.
Qed.

(** A write to an address whose two offsets are away from 3 and 4 leaves
    the energy meter alone. *)
Lemma SetScaledValue_keeps_meter impl_conv a v rm :
  holdingIndex a + 1 < 3 \/ 4 < holdingIndex a ->
  TotalEnergy_raw (snd (SetScaledValue impl_conv a v rm)) = TotalEnergy_raw rm.
Proof.
  intros Ha. destruct (SetScaledValue_frame impl_conv a v rm) as (_ & _ & Hj).
  unfold TotalEnergy_raw.
  rewrite (lookup_total_eq _ _ _ (Hj (Z.to_nat 3) ltac:(lia) ltac:(lia))).
  rewrite (lookup_total_eq _ _ _ (Hj (Z.to_nat 4) ltac:(lia) ltac:(lia))).
  reflexivity.
Qed.

Lemma SetScaledValue_energy impl_conv e rm :
  energy_register_defined rm ->
  let rm' := snd (SetScaledValue impl_conv 40004 e rm) in
  energy_register_defined rm' /\
  TotalEnergy_raw rm' = float_to_int impl_conv TUint32 (f64_mul e f64_one).
Proof.
  intros (meta & Hdef & Hty & Hsc & Hlen) rm'.
  destruct (SetScaledValue_two_words impl_conv rm 40004 meta e ltac:(lia) Hdef
              ltac:(rewrite Hty; reflexivity) Hlen)
    as (_ & _ & rm1 & Hset & _ & _ & _ & Hl & _ & _ & _ & Hd & Hw & _).
  unfold rm'. rewrite Hset. cbn [snd]. split.
  - exists meta. rewrite Hd. unfold len. rewrite Hl. repeat split; assumption.
  - unfold TotalEnergy_raw. change (holdingIndex 40004) with 3 in Hw.
    change (3 + 1) with 4 in Hw. rewrite Hw. unfold raw32. rewrite Hty, Hsc. reflexivity.
Qed.

Lemma Normal_init_energy env n : energy (Normal_init env n) = energy n.
Proof. unfold Normal_init. destruct (f64_eqb (baseVoltage n) f64_zero); reflexivity. Qed.

Lemma method_bind_snd {A B} (m : method A) (k : method B) rm :
  snd ((m ;;; k) rm) = snd (k (snd (m rm))).
Proof. unfold method_bind. destruct (m rm). reflexivity. Qed.

Lemma Normal_Update_spec impl_conv env params n rm :
  energy_register_defined rm ->
  let e' := Normal_energy env params (Normal_init env n) in
  energy (fst (Normal_Update impl_conv env params n rm)) = e' /\
  energy_register_defined (snd (Normal_Update impl_conv env params n rm)) /\
  TotalEnergy_raw (snd (Normal_Update impl_conv env params n rm)) =
    float_to_int impl_conv TUint32 (f64_mul e' f64_one).
Proof.
  intros Hdef e'. unfold Normal_Update. cbn [fst snd energy].
  split; [reflexivity|].
  rewrite !method_bind_snd.
  set (n1 := Normal_init env n) in *.
  set (r1 := snd (SetScaledValue impl_conv 40001 _ rm)).
  set (r2 := snd (SetScaledValue impl_conv 40002 _ r1)).
  set (r3 := snd (SetScaledValue impl_conv 40003 _ r2)).
  assert (H3 : energy_register_defined r3)
    by (do 3 apply SetScaledValue_keeps_defined; exact Hdef).
  destruct (SetScaledValue_energy impl_conv e' r3 H3) as (H4 & H4v).
  set (r4 := snd (SetScaledValue impl_conv 40004 _ r3)) in *.
  split.
  - do 2 apply SetScaledValue_keeps_defined. exact H4.
  - rewrite !SetScaledValue_keeps_meter by (vm_compute; right; reflexivity).
    exact H4v.
Qed.

Lemma VoltageSag_init_normal env params s :
  sag_normalScenario (VoltageSag_init env params s) = sag_normalScenario s.
Proof. unfold VoltageSag_init. destruct (startTime s); reflexivity. Qed.

(** What a tick does to the accumulator it updates and to the energy
    meter, whichever the scenario. *)
Lemma step_spec impl_conv ty t hs rm :
  energy_register_defined rm ->
  let e' := Normal_energy (fst t) (inner_params ty (snd t))
              (Normal_init (fst t) (accumulator ty hs)) in
  let st' := step impl_conv ty t (hs, rm) in
  energy (accumulator ty (fst st')) = e' /\
  energy_register_defined (snd st') /\
  TotalEnergy_raw (snd st') = float_to_int impl_conv TUint32 (f64_mul e' f64_one).
Proof.
  intros Hdef. destruct t as [env params]. unfold step. cbn [fst snd].
  destruct ty; cbn [Update accumulator inner_params].
  - pose proof (Normal_Update_spec impl_conv env params (hNormal hs) rm Hdef) as H.
    destruct (Normal_Update impl_conv env params (hNormal hs) rm) as [n r]. exact H.
  - unfold VoltageSag_Update.
    rewrite VoltageSag_init_normal.
    pose proof (Normal_Update_spec impl_conv env params_inner
                  (sag_normalScenario (hVoltageSag hs)) rm Hdef) as H.
    destruct (Normal_Update impl_conv env params_inner
                (sag_normalScenario (hVoltageSag hs)) rm) as [n r].
    cbn [fst snd] in H. destruct H as (He & Hd & Hr).
    cbn [startTime duration sagFactor].
    match goal with |- context [if ?b then _ else _] => destruct b end;
      cbn [fst snd accumulator hVoltageSag sag_normalScenario].
    + split; [exact He|]. split.
      * do 2 apply SetScaledValue_keeps_defined. exact Hd.
      * rewrite !SetScaledValue_keeps_meter; [exact Hr | vm_compute; left; reflexivity
                                              | vm_compute; right; reflexivity].
    + auto.
  - unfold Jitter_Update.
    pose proof (Normal_Update_spec impl_conv env params_inner (jit_normalScenario (hJitter hs)) rm Hdef) as H.
    destruct (Normal_Update impl_conv env params_inner (jit_normalScenario (hJitter hs)) rm) as [n r].
    exact H.
  - unfold PacketLoss_Update.
    pose proof (Normal_Update_spec impl_conv env params_inner (pl_normalScenario (hPacketLoss hs)) rm Hdef) as H.
    destruct (Normal_Update impl_conv env params_inner (pl_normalScenario (hPacketLoss hs)) rm) as [n r].
    exact H.
Qed.

(** One accumulation: adding the energy of a tick whose power and elapsed
    time are zero or positive gives an energy that is no smaller. *)
Lemma Normal_energy_ge env params n :
  valid_binary 53 1024 (energy n) = true -> f64_nonneg (energy n) = true ->
  f64_nonneg_fin (Normal_power env params n) = true ->
  f64_nonneg_fin (Normal_elapsed env n) = true ->
  valid_binary 53 1024 (Normal_energy env params n) = true /\
  f64_nonneg (Normal_energy env params n) = true /\
  f64_leb (energy n) (Normal_energy env params n) = true.
Proof.
  intros Hv Hn Hp He. unfold Normal_energy. apply f64_add_ge; try assumption.
  - apply (SFdiv_valid 53 1024 f64_format).
  - apply increment_nonneg; assumption.
Qed.

(** Truncation to the meter's 32 bits keeps the order, as long as the
    larger energy still fits. *)
Lemma float_to_int_mono impl_conv x y t :
  valid_binary 53 1024 x = true -> f64_nonneg x = true ->
  valid_binary 53 1024 y = true -> f64_nonneg y = true ->
  f64_leb x y = true -> f64_trunc y = Some t -> t <= 4294967295 ->
  float_to_int impl_conv TUint32 x <= float_to_int impl_conv TUint32 y.
Proof.
  intros Hvx Hx Hvy Hy Hle Ht Hmax.
  destruct (f64_trunc_mono x y t Hvx Hx Hvy Hy Hle Ht) as (tx & Htx & Hr).
  unfold float_to_int. rewrite Ht, Htx. cbn [int_fits].
  replace (0 <=? tx) with true by (symmetry; apply Z.leb_le; lia).
  replace (tx <=? 4294967295) with true by (symmetry; apply Z.leb_le; lia).
  replace (0 <=? t) with true by (symmetry; apply Z.leb_le; lia).
  replace (t <=? 4294967295) with true by (symmetry; apply Z.leb_le; lia).
  cbn. lia.
Qed.

Lemma Normal_init_bases env n :
  standard_bases n ->
  baseVoltage (Normal_init env n) = f64_of_Z 220 /\
  baseCurrent (Normal_init env n) = f64_lit 155 10.
Proof.
  unfold Normal_init. intros [H|[H1 H2]].
  - rewrite H. split; reflexivity.
  - destruct (f64_eqb (baseVoltage n) f64_zero); [split; reflexivity | split; assumption].
Qed.

Lemma Normal_Update_bases impl_conv env params n rm :
  baseVoltage (fst (Normal_Update impl_conv env params n rm)) =
    baseVoltage (Normal_init env n) /\
  baseCurrent (fst (Normal_Update impl_conv env params n rm)) =
    baseCurrent (Normal_init env n).
Proof. split; reflexivity. Qed.

(** A tick leaves the accumulator it updates with the base values the
    initialisation gave it. *)
Lemma step_bases impl_conv ty t hs rm :
  let n1 := Normal_init (fst t) (accumulator ty hs) in
  let st' := step impl_conv ty t (hs, rm) in
  baseVoltage (accumulator ty (fst st')) = baseVoltage n1 /\
  baseCurrent (accumulator ty (fst st')) = baseCurrent n1.
Proof.
  destruct t as [env params]. unfold step. cbn [fst snd].
  destruct ty; cbn [Update accumulator].
  - pose proof (Normal_Update_bases impl_conv env params (hNormal hs) rm) as H.
    destruct (Normal_Update impl_conv env params (hNormal hs) rm) as [n r]. exact H.
  - unfold VoltageSag_Update.
    rewrite VoltageSag_init_normal.
    pose proof (Normal_Update_bases impl_conv env params_inner
                  (sag_normalScenario (hVoltageSag hs)) rm) as H.
    destruct (Normal_Update impl_conv env params_inner
                (sag_normalScenario (hVoltageSag hs)) rm) as [n r].
    cbn [fst snd] in H. cbn [startTime duration sagFactor].
    match goal with |- context [if ?b then _ else _] => destruct b end;
      cbn [fst snd accumulator hVoltageSag sag_normalScenario]; exact H.
  - unfold Jitter_Update.
    pose proof (Normal_Update_bases impl_conv env params_inner
                  (jit_normalScenario (hJitter hs)) rm) as H.
    destruct (Normal_Update impl_conv env params_inner (jit_normalScenario (hJitter hs)) rm)
      as [n r].
    exact H.
  - unfold PacketLoss_Update.
    pose proof (Normal_Update_bases impl_conv env params_inner
                  (pl_normalScenario (hPacketLoss hs)) rm) as H.
    destruct (Normal_Update impl_conv env params_inner (pl_normalScenario (hPacketLoss hs)) rm)
      as [n r].
    exact H.
Qed.

(** The variance the normal update of a tick works with is at most 1. *)
Lemma inner_variance_bound ty params :
  variance_ok ty params = true ->
  let v := VoltageVariance (inner_params ty params) in
  let v' := if f64_eqb v f64_zero then f64_lit 5 1000 else v in
  valid_binary 53 1024 v' = true /\ le_pow2 0 v'.
Proof.
  intros H.
  assert (Hin : let v := VoltageVariance params_inner in
                let v' := if f64_eqb v f64_zero then f64_lit 5 1000 else v in
                valid_binary 53 1024 v' = true /\ le_pow2 0 v')
    by (vm_compute; split; [reflexivity | split; intros; discriminate]).
  destruct ty; cbn [inner_params]; try exact Hin.
  cbn [variance_ok] in H. cbv zeta in H.
  apply andb_true_iff in H as [H Hhi]. apply andb_true_iff in H as [Hv Hlo].
  apply variance_bound; assumption.
Qed.

(** The power and the elapsed time of a tick are zero or positive: the
    two draws that enter the power are in [[0, 1)], the voltage swings by
    at most its own size, and the clock has not gone back. *)
Lemma tick_power_elapsed ty t n :
  standard_bases n -> draws_ok (fst t) = true -> variance_ok ty (snd t) = true ->
  lastUpdate (Normal_init (fst t) n) <= now_since (fst t) ->
  let n1 := Normal_init (fst t) n in
  f64_nonneg_fin (Normal_power (fst t) (inner_params ty (snd t)) n1) = true /\
  f64_nonneg_fin (Normal_elapsed (fst t) n1) = true.
Proof.
  intros Hb Hd Hv Hl n1.
  destruct (Normal_init_bases (fst t) n Hb) as [Hbv Hbc]. split.
  - apply Normal_power_nonneg; try assumption. apply inner_variance_bound. exact Hv.
  - apply Normal_elapsed_nonneg. exact Hl.
Qed.

Lemma tick_step impl_conv ty t st :
  meter_state impl_conv ty st -> standard_bases (accumulator ty (fst st)) ->
  tick_ok ty t (fst st) = true ->
  meter_state impl_conv ty (step impl_conv ty t st) /\
  standard_bases (accumulator ty (fst (step impl_conv ty t st))) /\
  f64_leb (energy (accumulator ty (fst st)))
          (energy (accumulator ty (fst (step impl_conv ty t st)))) = true.
Proof.
  destruct st as [hs rm]. unfold meter_state. cbn [fst snd].
  intros (Hv & Hn & Hdef & Hraw) Hb Hok.
  unfold tick_ok, tick_given, elapsed_ok in Hok.
  apply andb_true_iff in Hok as [Hok Hvar]. apply andb_true_iff in Hok as [Hd Hl].
  apply Z.leb_le in Hl.
  destruct (tick_power_elapsed ty t _ Hb Hd Hvar Hl) as [Hp He].
  destruct (step_spec impl_conv ty t hs rm Hdef) as (He' & Hd' & Hr').
  destruct (step_bases impl_conv ty t hs rm) as (Hbv' & Hbc').
  destruct (Normal_init_bases (fst t) _ Hb) as [Hbv Hbc].
  set (n1 := Normal_init (fst t) (accumulator ty hs)) in *.
  assert (Hen : energy n1 = energy (accumulator ty hs)) by apply Normal_init_energy.
  destruct (Normal_energy_ge (fst t) (inner_params ty (snd t)) n1) as (Hv1 & Hn1 & Hle);
    try assumption; try (rewrite Hen; assumption).
  rewrite He', Hr'. rewrite Hen in Hle.
  rewrite (f64_mul_one _ Hv1 Hn1).
  split; [repeat split; assumption|]. split; [|exact Hle].
  right. rewrite Hbv', Hbc'. split; assumption.
Qed.




(** ** Bulk writes *)

Lemma copy_into_outside {A} (l : list A) lo (src : list A) (j : nat) :
  0 <= lo -> lo + len src <= len l ->
  (j < Z.to_nat lo \/ Z.to_nat (lo + len src) <= j)%nat ->
  copy_into l lo (lo + len src) src !! j = l !! j.
Proof.
  unfold len. intros Hlo Hhi Hj. unfold copy_into.
  assert (Hs : length (slice l lo (lo + Z.of_nat (length src))) = length src).
  { unfold slice. rewrite length_take, length_drop. lia. }
  rewrite (copy_same_length _ _ Hs).
  assert (Ht : length (take (Z.to_nat lo) l) = Z.to_nat lo)
    by (rewrite length_take; lia).
  destruct Hj as [Hj|Hj].
  - rewrite lookup_app_l by lia. apply lookup_take_lt. lia.
  - rewrite lookup_app_r by lia. rewrite lookup_app_r by lia.
    rewrite lookup_drop. f_equal. lia.
Qed.

Lemma read_after_copy_into {A} (z : A) (l : list A) lo (src : list A) :
  0 <= lo -> lo + len src <= len l ->
  let l' := copy_into l lo (lo + len src) src in
  copy (replicate (Z.to_nat (len src)) z) (slice l' lo (lo + len src)) = src.
Proof.
  intros Hlo Hhi l'. destruct (copy_into_slice l lo src Hlo Hhi) as [Hs _].
  fold l' in Hs. rewrite Hs. unfold len. rewrite Nat2Z.id. apply copy_make.
Qed.

(** X1. [WriteHoldingRegisters] is all or nothing.  When the translated
    range runs past the holding space it returns an error and the map is
    as before; otherwise every value is stored, [ReadHoldingRegisters] of
    the same address and count returns exactly the values written, and
    every cell outside the range is as before. *)
Theorem write_registers_read_back (rm : RegisterMap) (a : Z) (values : list Z) :
  0 <= a < 65536 ->
  let idx := holdingIndex a in
  let n := len values in
  (len (holdingRegisters rm) < idx + n ->
     exists e, WriteHoldingRegisters a values rm = (Some e, rm)) /\
  (idx + n <= len (holdingRegisters rm) ->
     exists rm',
       WriteHoldingRegisters a values rm = (None, rm') /\
       ReadHoldingRegisters a n rm' = ((Some values, None), rm') /\
       length (holdingRegisters rm') = length (holdingRegisters rm) /\
       (forall j : nat, (j < Z.to_nat idx \/ Z.to_nat (idx + n) <= j)%nat ->
          holdingRegisters rm' !! j = holdingRegisters rm !! j) /\
       coils rm' = coils rm /\ discreteInputs rm' = discreteInputs rm /\
       inputRegisters rm' = inputRegisters rm /\ definitions rm' = definitions rm).
Proof.
  intros Ha idx n. pose proof (holdingIndex_range a Ha) as Hr. fold idx in Hr.
  subst n. unfold WriteHoldingRegisters, ReadHoldingRegisters. fold idx.
  replace (idx <? 0) with false by (symmetry; apply Z.ltb_ge; lia). cbn [orb].
  split; intros Hlen.
  - replace (len (holdingRegisters rm) <? idx + len values) with true
      by (symmetry; apply Z.ltb_lt; lia).
    eexists. reflexivity.
  - replace (len (holdingRegisters rm) <? idx + len values) with false
      by (symmetry; apply Z.ltb_ge; lia).
    eexists. split; [reflexivity|]. cbn [holdingRegisters set_holdingRegisters].
    destruct (copy_into_slice (holdingRegisters rm) idx values ltac:(lia) Hlen) as [_ Hl].
    unfold len at 1. rewrite Hl. fold (len (holdingRegisters rm)).
    replace (len (holdingRegisters rm) <? idx + len values) with false
      by (symmetry; apply Z.ltb_ge; lia).
    rewrite (read_after_copy_into 0 (holdingRegisters rm) idx values ltac:(lia) Hlen).
    repeat split; try reflexivity; try exact Hl.
    intros j Hj. apply copy_into_outside; [lia | exact Hlen | exact Hj].
Qed.

Lemma write_registers_read_back_witness :
  exists rm',
    WriteHoldingRegisters 40010 [7; 8; 9] (NewRegisterMap 4 4 4 16) = (None, rm') /\
    ReadHoldingRegisters 40010 3 rm' = ((Some [7; 8; 9], None), rm').
Proof.
  destruct (write_registers_read_back (NewRegisterMap 4 4 4 16) 40010 [7; 8; 9]) as [_ H];
    [lia|].
  destruct H as (rm' & Hw & Hr & _); [vm_compute; discriminate|].
  exists rm'. split; [exact Hw | exact Hr].
Defined.

(** X2. [WriteCoils] is all or nothing in the same way, with the coil
    address taken as it is: past the coil space it returns an error and
    changes nothing; otherwise [ReadCoils] of the same address and count
    returns the values written and every other coil is as before. *)
Theorem write_coils_read_back (rm : RegisterMap) (a : Z) (values : list bool) :
  0 <= a < 65536 ->
  let n := len values in
  (len (coils rm) < a + n ->
     exists e, WriteCoils a values rm = (Some e, rm)) /\
  (a + n <= len (coils rm) ->
     exists rm',
       WriteCoils a values rm = (None, rm') /\
       ReadCoils a n rm' = ((Some values, None), rm') /\
       length (coils rm') = length (coils rm) /\
       (forall j : nat, (j < Z.to_nat a \/ Z.to_nat (a + n) <= j)%nat ->
          coils rm' !! j = coils rm !! j) /\
       holdingRegisters rm' = holdingRegisters rm /\ discreteInputs rm' = discreteInputs rm /\
       inputRegisters rm' = inputRegisters rm /\ definitions rm' = definitions rm).
Proof.
  intros Ha n. subst n. unfold WriteCoils, ReadCoils.
  split; intros Hlen.
  - replace (len (coils rm) <? a + len values) with true by (symmetry; apply Z.ltb_lt; lia).
    eexists. reflexivity.
  - replace (len (coils rm) <? a + len values) with false by (symmetry; apply Z.ltb_ge; lia).
    eexists. split; [reflexivity|]. cbn [coils set_coils].
    destruct (copy_into_slice (coils rm) a values ltac:(lia) Hlen) as [_ Hl].
    unfold len at 1. rewrite Hl. fold (len (coils rm)).
    replace (len (coils rm) <? a + len values) with false by (symmetry; apply Z.ltb_ge; lia).
    rewrite (read_after_copy_into false (coils rm) a values ltac:(lia) Hlen).
    repeat split; try reflexivity; try exact Hl.
    intros j Hj. apply copy_into_outside; [lia | exact Hlen | exact Hj].
Qed.

Lemma write_coils_read_back_witness :
  exists rm',
    WriteCoils 2 [true; false; true] (NewRegisterMap 8 4 4 4) = (None, rm') /\
    ReadCoils 2 3 rm' = ((Some [true; false; true], None), rm').
Proof.
  destruct (write_coils_read_back (NewRegisterMap 8 4 4 4) 2 [true; false; true]) as [_ H];
    [lia|].
  destruct H as (rm' & Hw & Hr & _); [vm_compute; discriminate|].
  exists rm'. split; [exact Hw | exact Hr].
Defined.

(** X3. The simulation-side setters of the read-only spaces:
    [SetInputRegister] and [SetDiscreteInput] at an address inside the
    space succeed, the matching single read returns the value set and every
    other cell is as before; at an address past the space they return an
    error and change nothing. *)
Theorem input_spaces_round_trip (rm : RegisterMap) (a v : Z) (b : bool) :
  0 <= a ->
  (if a <? len (inputRegisters rm)
   then exists rm',
          SetInputRegister a v rm = (None, rm') /\
          ReadInputRegister a rm' = ((v, None), rm') /\
          length (inputRegisters rm') = length (inputRegisters rm) /\
          (forall j : nat, j <> Z.to_nat a -> inputRegisters rm' !! j = inputRegisters rm !! j) /\
          coils rm' = coils rm /\ discreteInputs rm' = discreteInputs rm /\
          holdingRegisters rm' = holdingRegisters rm /\ definitions rm' = definitions rm
   else SetInputRegister a v rm = (Some (ErrAddress RegisterTypeInputRegister a), rm) /\
        ReadInputRegister a rm = ((0, Some (ErrAddress RegisterTypeInputRegister a)), rm)) /\
  (if a <? len (discreteInputs rm)
   then exists rm',
          SetDiscreteInput a b rm = (None, rm') /\
          ReadDiscreteInput a rm' = ((b, None), rm') /\
          length (discreteInputs rm') = length (discreteInputs rm) /\
          (forall j : nat, j <> Z.to_nat a -> discreteInputs rm' !! j = discreteInputs rm !! j) /\
          coils rm' = coils rm /\ inputRegisters rm' = inputRegisters rm /\
          holdingRegisters rm' = holdingRegisters rm /\ definitions rm' = definitions rm
   else SetDiscreteInput a b rm = (Some (ErrAddress RegisterTypeDiscreteInput a), rm) /\
        ReadDiscreteInput a rm = ((false, Some (ErrAddress RegisterTypeDiscreteInput a)), rm)).
Proof.
  intros Ha. split.
  - unfold SetInputRegister, ReadInputRegister.
    destruct (Z.ltb_spec a (len (inputRegisters rm))) as [Hlt|Hge].
    + replace (len (inputRegisters rm) <=? a) with false by (symmetry; apply Z.leb_gt; lia).
      eexists. split; [reflexivity|]. cbn [inputRegisters set_inputRegisters].
      unfold len in *. rewrite length_insert.
      replace (Z.of_nat (length (inputRegisters rm)) <=? a) with false
        by (symmetry; apply Z.leb_gt; lia).
      rewrite list_lookup_total_insert_eq by lia.
      repeat split; try reflexivity.
      intros j Hj. apply list_lookup_insert_ne. congruence.
    + replace (len (inputRegisters rm) <=? a) with true by (symmetry; apply Z.leb_le; lia).
      split; reflexivity.
  - unfold SetDiscreteInput, ReadDiscreteInput.
    destruct (Z.ltb_spec a (len (discreteInputs rm))) as [Hlt|Hge].
    + replace (len (discreteInputs rm) <=? a) with false by (symmetry; apply Z.leb_gt; lia).
      eexists. split; [reflexivity|]. cbn [discreteInputs set_discreteInputs].
      unfold len in *. rewrite length_insert.
      replace (Z.of_nat (length (discreteInputs rm)) <=? a) with false
        by (symmetry; apply Z.leb_gt; lia).
      rewrite list_lookup_total_insert_eq by lia.
      repeat split; try reflexivity.
      intros j Hj. apply list_lookup_insert_ne. congruence.
    + replace (len (discreteInputs rm) <=? a) with true by (symmetry; apply Z.leb_le; lia).
      split; reflexivity.
Qed.

Lemma input_spaces_round_trip_witness :
  exists rm',
    SetInputRegister 2 513 (NewRegisterMap 4 4 4 4) = (None, rm') /\
    ReadInputRegister 2 rm' = ((513, None), rm').
Proof.
  destruct (input_spaces_round_trip (NewRegisterMap 4 4 4 4) 2 513 true ltac:(lia))
    as [H _].
  vm_compute (2 <? len (inputRegisters (NewRegisterMap 4 4 4 4))) in H.
  destruct H as (rm' & Hs & Hr & _). exists rm'. split; [exact Hs | exact Hr].
Defined.

(** X4. A holding register has two addresses: for an offset [k] below
    40001 the plain address [k] and the Modbus-style address [40001 + k]
    translate to the same cell, so a write through either one is read back
    through both. *)
Theorem holding_address_alias (rm : RegisterMap) (k v : Z) :
  0 <= k <= 25534 -> k < len (holdingRegisters rm) ->
  holdingIndex (40001 + k) = k /\ holdingIndex k = k /\
  exists rm',
    WriteHoldingRegister (40001 + k) v rm = (None, rm') /\
    WriteHoldingRegister k v rm = (None, rm') /\
    ReadHoldingRegister k rm' = ((v, None), rm') /\
    ReadHoldingRegister (40001 + k) rm' = ((v, None), rm').
Proof.
  intros Hk Hlen.
  assert (H1 : holdingIndex (40001 + k) = k).
  { unfold holdingIndex, wrap_uint16.
    replace (40001 <=? 40001 + k) with true by (symmetry; apply Z.leb_le; lia).
    replace (40001 + k - 40001) with k by lia. apply Z.mod_small. lia. }
  assert (H2 : holdingIndex k = k).
  { unfold holdingIndex.
    replace (40001 <=? k) with false by (symmetry; apply Z.leb_gt; lia). reflexivity. }
  split; [exact H1|]. split; [exact H2|].
  unfold WriteHoldingRegister, ReadHoldingRegister. rewrite H1, H2.
  replace (k <? 0) with false by (symmetry; apply Z.ltb_ge; lia).
  replace (len (holdingRegisters rm) <=? k) with false by (symmetry; apply Z.leb_gt; lia).
  cbn [orb]. eexists. split; [reflexivity|]. split; [reflexivity|].
  cbn [holdingRegisters set_holdingRegisters]. unfold len in *. rewrite length_insert.
  replace (Z.of_nat (length (holdingRegisters rm)) <=? k) with false
    by (symmetry; apply Z.leb_gt; lia).
  rewrite list_lookup_total_insert_eq by lia. split; reflexivity.
Qed.

Lemma holding_address_alias_witness :
  exists rm',
    WriteHoldingRegister 40003 77 (NewRegisterMap 4 4 4 4) = (None, rm') /\
    ReadHoldingRegister 2 rm' = ((77, None), rm').
Proof.
  destruct (holding_address_alias (NewRegisterMap 4 4 4 4) 2 77)
    as (_ & _ & rm' & Hw & _ & Hr & _); [lia | vm_compute; reflexivity |].
  exists rm'. split; [exact Hw | exact Hr].
Defined.

(** ** Wire encodings *)

Lemma foldl_seq_snoc {A} (f : A -> nat -> A) a n :
  foldl f a (seq 0 (S n)) = f (foldl f a (seq 0 n)) n.
Proof. rewrite seq_S, foldl_app. reflexivity. Qed.

Lemma foldl_imap_snoc {A B} (f : B -> nat * A -> B) b (l : list A) (x : A) :
  foldl f b (imap (fun i a => (i, a)) (l ++ [x])) =
  f (foldl f b (imap (fun i a => (i, a)) l)) (length l, x).
Proof. rewrite imap_app, foldl_app. cbn. rewrite Nat.add_0_r. reflexivity. Qed.

(** *** Registers *)

Lemma put_registers_spec (l : list Z) (bytes : list Z) :
  (length l * 2 <= length bytes)%nat ->
  let res := foldl (fun bytes ir => PutUint16 bytes (fst ir * 2)%nat (snd ir)) bytes
               (imap (fun i reg => (i, reg)) l) in
  length res = length bytes /\
  (forall (i : nat) r, l !! i = Some r ->
     res !! (i * 2)%nat = Some (wrap_uint8 (Z.shiftr r 8)) /\
     res !! S (i * 2) = Some (wrap_uint8 r)) /\
  (forall p : nat, (length l * 2 <= p)%nat -> res !! p = bytes !! p).
Proof.
  induction l as [|x l IH] using rev_ind; intros Hlen res.
  - subst res. cbn. split; [reflexivity|]. split; [intros i r H; discriminate|auto].
  - rewrite length_app in Hlen. cbn [length] in Hlen.
    destruct (IH ltac:(lia)) as (Hl & Hin & Hout). clear IH.
    subst res. rewrite foldl_imap_snoc. cbn [fst snd].
    set (prev := foldl _ bytes (imap _ l)) in *.
    unfold PutUint16. split; [rewrite !length_insert; exact Hl|]. split.
    + intros i r Hi. destruct (decide (i = length l)) as [->|Hne].
      * rewrite lookup_app_r in Hi by lia. rewrite Nat.sub_diag in Hi.
        injection Hi as <-. split.
        -- rewrite list_lookup_insert_ne by lia. apply list_lookup_insert_eq. lia.
        -- apply list_lookup_insert_eq. rewrite length_insert. lia.
      * assert (Hlt : (i < length l)%nat).
        { apply lookup_lt_Some in Hi. rewrite length_app in Hi. cbn in Hi. lia. }
        rewrite lookup_app_l in Hi by lia.
        rewrite !list_lookup_insert_ne by lia. apply Hin. exact Hi.
    + intros p Hp. rewrite length_app in Hp. cbn [length] in Hp.
      rewrite !list_lookup_insert_ne by lia. apply Hout. lia.
Qed.

Lemma RegistersToBytes_spec (registers : list Z) :
  length (RegistersToBytes registers) = (length registers * 2)%nat /\
  forall (i : nat) r, registers !! i = Some r ->
    RegistersToBytes registers !! (i * 2)%nat = Some (wrap_uint8 (Z.shiftr r 8)) /\
    RegistersToBytes registers !! S (i * 2) = Some (wrap_uint8 r).
Proof.
  destruct (put_registers_spec registers (replicate (length registers * 2)%nat 0))
    as (Hl & Hin & _).
  { rewrite length_replicate. lia. }
  rewrite length_replicate in Hl. split; [exact Hl | exact Hin].
Qed.

Lemma get_registers_spec (data : list Z) (n : nat) (regs : list Z) :
  (n <= length regs)%nat ->
  let res := foldl (fun registers i => <[i := Uint16 data (i * 2)%nat]> registers) regs
               (seq 0 n) in
  length res = length regs /\
  (forall i : nat, (i < n)%nat -> res !! i = Some (Uint16 data (i * 2)%nat)) /\
  (forall i : nat, (n <= i)%nat -> res !! i = regs !! i).
Proof.
  induction n as [|n IH]; intros Hn res.
  - subst res. cbn. split; [reflexivity|]. split; [intros; lia | auto].
  - destruct (IH ltac:(lia)) as (Hl & Hin & Hout). clear IH.
    subst res. rewrite foldl_seq_snoc. set (prev := foldl _ regs (seq 0 n)) in *.
    split; [rewrite length_insert; exact Hl|]. split.
    + intros i Hi. destruct (decide (i = n)) as [->|Hne].
      * apply list_lookup_insert_eq. lia.
      * rewrite list_lookup_insert_ne by lia. apply Hin. lia.
    + intros i Hi. rewrite list_lookup_insert_ne by lia. apply Hout. lia.
Qed.

Lemma BytesToRegisters_spec (data : list Z) :
  length (BytesToRegisters data) = (length data / 2)%nat /\
  forall i : nat, (i < length data / 2)%nat ->
    BytesToRegisters data !! i = Some (Uint16 data (i * 2)%nat).
Proof.
  destruct (get_registers_spec data (length data / 2)%nat
              (replicate (length data / 2)%nat 0)) as (Hl & Hin & _).
  { rewrite length_replicate. lia. }
  rewrite length_replicate in Hl. split; [exact Hl | exact Hin].
Qed.

Lemma uint16_join (r : Z) :
  0 <= r < 65536 ->
  Z.lor (wrap_uint8 r) (wrap_uint16 (Z.shiftl (wrap_uint8 (Z.shiftr r 8)) 8)) = r.
Proof.
  intros Hr. unfold wrap_uint8, wrap_uint16.
  rewrite Z.shiftr_div_pow2 by lia. change (2 ^ 8) with 256.
  rewrite (Z.mod_small (r / 256)) by (Z.div_mod_to_equations; lia).
  rewrite Z.shiftl_mul_pow2 by lia. change (2 ^ 8) with 256.
  rewrite (Z.mod_small (r / 256 * 256)) by (Z.div_mod_to_equations; lia).
  change 256 with (2 ^ 8). rewrite <- Z.shiftl_mul_pow2 by lia.
  rewrite <- Z.land_ones by lia. rewrite <- Z.shiftr_div_pow2 by lia.
  rewrite <- Z.ldiff_ones_r by lia. rewrite Z.lor_comm. apply Z.lor_ldiff_and.
Qed.

Lemma uint16_split (hi lo : Z) :
  0 <= hi < 256 -> 0 <= lo < 256 ->
  let r := Z.lor lo (wrap_uint16 (Z.shiftl hi 8)) in
  wrap_uint8 (Z.shiftr r 8) = hi /\ wrap_uint8 r = lo.
Proof.
  intros Hhi Hlo r. subst r. unfold wrap_uint8, wrap_uint16.
  rewrite Z.shiftl_mul_pow2 by lia. change (2 ^ 8) with 256.
  rewrite (Z.mod_small (hi * 256)) by lia.
  assert (Hland : Z.land lo (hi * 256) = 0).
  { apply Z.bits_inj'. intros n Hn. rewrite Z.land_spec, Z.bits_0.
    destruct (Z.lt_ge_cases n 8) as [Hlt|Hge].
    - change 256 with (2 ^ 8). rewrite Z.mul_pow2_bits_low by lia. apply andb_false_r.
    - rewrite (Z.bits_above_log2 lo n); [reflexivity | lia |].
      destruct (Z.eq_dec lo 0) as [->|Hnz]; [cbn; lia|].
      apply Z.log2_lt_pow2; [lia|]. apply Z.lt_le_trans with (2 ^ 8); [lia|].
      apply Z.pow_le_mono_r; lia. }
  assert (Hadd : Z.lor lo (hi * 256) = lo + hi * 256).
  { rewrite <- (Z.lxor_lor _ _ Hland). symmetry. apply Z.add_nocarry_lxor. exact Hland. }
  rewrite Hadd. rewrite Z.shiftr_div_pow2 by lia. change (2 ^ 8) with 256.
  split; Z.div_mod_to_equations; lia.
Qed.

(** X5. Decoding what [RegistersToBytes] encoded gives the registers back:
    the encoding has two bytes per register, high byte first, and
    [BytesToRegisters] of it is the list of registers it came from. *)
Theorem registers_bytes_round_trip (registers : list Z) :
  Forall (fun r => 0 <= r < 65536) registers ->
  length (RegistersToBytes registers) = (length registers * 2)%nat /\
  Forall (fun b => 0 <= b < 256) (RegistersToBytes registers) /\
  BytesToRegisters (RegistersToBytes registers) = registers.
Proof.
  intros Hrange. destruct (RegistersToBytes_spec registers) as [Hlen Hin].
  destruct (BytesToRegisters_spec (RegistersToBytes registers)) as [Hlen' Hin'].
  rewrite Hlen, Nat.div_mul in Hlen', Hin' by lia.
  split; [exact Hlen|]. split.
  - apply Forall_lookup. intros p b Hp.
    assert (Hplt : (p < length registers * 2)%nat)
      by (rewrite <- Hlen; eapply lookup_lt_Some; exact Hp).
    destruct (lookup_lt_is_Some_2 registers (p / 2)%nat) as [r Hr].
    { apply Nat.Div0.div_lt_upper_bound. lia. }
    destruct (Hin _ _ Hr) as [H0 H1].
    pose proof (Nat.div_mod_eq p 2) as Hdm.
    pose proof (Nat.mod_upper_bound p 2 ltac:(lia)) as Hm.
    assert (Hb : b = wrap_uint8 (Z.shiftr r 8) \/ b = wrap_uint8 r).
    { destruct (decide (p mod 2 = 0)%nat) as [Hz|Hnz].
      - left. replace (p / 2 * 2)%nat with p in H0 by lia. congruence.
      - right. replace (S (p / 2 * 2)) with p in H1 by lia. congruence. }
    unfold wrap_uint8 in Hb. destruct Hb as [-> | ->]; apply Z.mod_pos_bound; lia.
  - apply list_eq. intros i. destruct (registers !! i) as [r|] eqn:Hr.
    + assert (Hi : (i < length registers)%nat) by (eapply lookup_lt_Some; exact Hr).
      rewrite (Hin' i Hi). destruct (Hin i r Hr) as [H0 H1].
      unfold Uint16.
      rewrite (list_lookup_total_correct _ _ _ H0), (list_lookup_total_correct _ _ _ H1).
      f_equal. apply uint16_join.
      exact (proj1 (Forall_lookup _ _) Hrange i r Hr).
    + apply lookup_ge_None. apply lookup_ge_None in Hr. lia.
Qed.

Lemma registers_bytes_round_trip_witness :
  BytesToRegisters (RegistersToBytes [258; 65535; 0]) = [258; 65535; 0].
Proof.
  apply (registers_bytes_round_trip [258; 65535; 0]).
  repeat constructor; lia.
Defined.

(** X6. Encoding what [BytesToRegisters] decoded gives back the bytes it
    read: all of them for an even length, all but the last one for an odd
    length, the last byte of an odd-length input being ignored. *)
Theorem bytes_registers_round_trip (data : list Z) :
  Forall (fun b => 0 <= b < 256) data ->
  length (BytesToRegisters data) = (length data / 2)%nat /\
  RegistersToBytes (BytesToRegisters data) = take (length data / 2 * 2)%nat data.
Proof.
  intros Hrange. destruct (BytesToRegisters_spec data) as [Hlen Hin].
  destruct (RegistersToBytes_spec (BytesToRegisters data)) as [Hlen' Hin'].
  rewrite Hlen in Hlen'. split; [exact Hlen|].
  pose proof (Nat.div_mod_eq (length data) 2) as Hdm.
  apply list_eq. intros p.
  destruct (decide (p < length data / 2 * 2)%nat) as [Hp|Hp].
  - rewrite lookup_take_lt by lia.
    pose proof (Nat.div_mod_eq p 2) as Hpm.
    pose proof (Nat.mod_upper_bound p 2 ltac:(lia)) as Hm.
    assert (Hi : (p / 2 < length data / 2)%nat)
      by (apply Nat.Div0.div_lt_upper_bound; lia).
    destruct (Hin' _ _ (Hin _ Hi)) as [H0 H1].
    destruct (lookup_lt_is_Some_2 data (p / 2 * 2)%nat ltac:(lia)) as [hi Hhi].
    destruct (lookup_lt_is_Some_2 data (S (p / 2 * 2)) ltac:(lia)) as [lo Hlo].
    unfold Uint16 in H0, H1.
    rewrite (list_lookup_total_correct _ _ _ Hhi), (list_lookup_total_correct _ _ _ Hlo)
      in H0, H1.
    destruct (uint16_split hi lo
                (proj1 (Forall_lookup _ _) Hrange _ _ Hhi)
                (proj1 (Forall_lookup _ _) Hrange _ _ Hlo)) as [Eh El].
    cbv zeta in Eh, El. rewrite Eh in H0. rewrite El in H1.
    destruct (decide (p mod 2 = 0)%nat) as [Hz|Hnz].
    + assert (Hpe : p = (p / 2 * 2)%nat) by lia. rewrite Hpe, H0, Hhi. reflexivity.
    + assert (Hpe : p = S (p / 2 * 2)) by lia. rewrite Hpe, H1, Hlo. reflexivity.
  - rewrite lookup_take_ge by lia. apply lookup_ge_None. lia.
Qed.

Lemma bytes_registers_round_trip_witness :
  RegistersToBytes (BytesToRegisters [1; 2; 3; 4; 5]) = [1; 2; 3; 4].
Proof.
  apply (bytes_registers_round_trip [1; 2; 3; 4; 5]).
  repeat constructor; lia.
Defined.

(** *** Coils *)

Lemma bit_mask (m : nat) : (m < 8)%nat -> wrap_uint8 (Z.shiftl 1 (Z.of_nat m)) = 2 ^ Z.of_nat m.
Proof.
  intros Hm. unfold wrap_uint8. rewrite Z.shiftl_1_l. apply Z.mod_small.
  split; [apply Z.pow_nonneg; lia|]. change 256 with (2 ^ 8). apply Z.pow_lt_mono_r; lia.
Qed.

Lemma land_bit (b : Z) (m : nat) :
  negb (Z.land b (2 ^ Z.of_nat m) =? 0) = Z.testbit b (Z.of_nat m).
Proof.
  assert (H : Z.land b (2 ^ Z.of_nat m) =
              if Z.testbit b (Z.of_nat m) then 2 ^ Z.of_nat m else 0).
  { apply Z.bits_inj'. intros n Hn. rewrite Z.land_spec, Z.pow2_bits_eqb by lia.
    destruct (Z.eqb_spec (Z.of_nat m) n) as [<-|Hne].
    - destruct (Z.testbit b (Z.of_nat m)).
      + rewrite Z.pow2_bits_true by lia. reflexivity.
      + rewrite Z.bits_0. reflexivity.
    - rewrite andb_false_r. destruct (Z.testbit b (Z.of_nat m)).
      + rewrite Z.pow2_bits_false by lia. reflexivity.
      + rewrite Z.bits_0. reflexivity. }
  rewrite H. destruct (Z.testbit b (Z.of_nat m)).
  - pose proof (Z.pow_pos_nonneg 2 (Z.of_nat m) ltac:(lia) ltac:(lia)).
    destruct (Z.eqb_spec (2 ^ Z.of_nat m) 0); [lia | reflexivity].
  - reflexivity.
Qed.

Lemma coil_bit_snoc (l : list bool) (x : bool) (q : nat) (j : Z) :
  coil_bit (l ++ [x]) q j =
  coil_bit l q j || ((0 <=? j) && (j <? 8) && Nat.eqb (q * 8 + Z.to_nat j) (length l) && x).
Proof.
  unfold coil_bit. destruct ((0 <=? j) && (j <? 8)); [|reflexivity]. cbn [andb].
  destruct (Nat.eqb_spec (q * 8 + Z.to_nat j) (length l)) as [He|Hne].
  - rewrite He, lookup_app_r, Nat.sub_diag by lia. cbn.
    rewrite (proj2 (lookup_ge_None l (length l))) by lia. reflexivity.
  - cbn [andb]. rewrite orb_false_r.
    destruct (decide (q * 8 + Z.to_nat j < length l)%nat) as [Hlt|Hge].
    + rewrite lookup_app_l by lia. reflexivity.
    + rewrite (proj2 (lookup_ge_None (l ++ [x]) _)) by (rewrite length_app; cbn; lia).
      rewrite (proj2 (lookup_ge_None l _)) by lia. reflexivity.
Qed.

Lemma pack_coils_spec (l : list bool) (bytes : list Z) :
  (length l <= length bytes * 8)%nat ->
  let res :=
    foldl (fun bytes ic =>
             let i := fst ic in
             if snd ic : bool
             then <[(i / 8)%nat := Z.lor (bytes !!! (i / 8)%nat)
                                      (wrap_uint8 (Z.shiftl 1 (Z.of_nat (i mod 8))))]> bytes
             else bytes)
          bytes (imap (fun i coil => (i, coil)) l) in
  length res = length bytes /\
  forall (q : nat) (j : Z), (q < length bytes)%nat ->
    Z.testbit (res !!! q) j = Z.testbit (bytes !!! q) j || coil_bit l q j.
Proof.
  induction l as [|x l IH] using rev_ind; intros Hlen res.
  - subst res. cbn. split; [reflexivity|]. intros q j _.
    unfold coil_bit. rewrite lookup_nil. cbn. rewrite andb_false_r, orb_false_r. reflexivity.
  - rewrite length_app in Hlen. cbn [length] in Hlen.
    destruct (IH ltac:(lia)) as (Hl & Hbits). clear IH.
    subst res. rewrite foldl_imap_snoc. cbn [fst snd].
    set (prev := foldl _ bytes (imap _ l)) in *.
    set (k := length l) in *.
    pose proof (Nat.div_mod_eq k 8) as Hdm.
    pose proof (Nat.mod_upper_bound k 8 ltac:(lia)) as Hm.
    destruct x.
    + split; [rewrite length_insert; exact Hl|].
      intros q j Hq. rewrite coil_bit_snoc. fold k. rewrite andb_true_r.
      destruct (decide (q = k / 8)%nat) as [->|Hne].
      * rewrite list_lookup_total_insert_eq by lia.
        rewrite Z.lor_spec, (Hbits _ j Hq), <- orb_assoc. f_equal. f_equal.
        rewrite bit_mask by lia.
        destruct (Z.leb_spec 0 j) as [Hj0|Hj0]; cbn [andb].
        -- rewrite Z.pow2_bits_eqb by lia.
           destruct (Z.ltb_spec j 8) as [Hj8|Hj8]; cbn [andb].
           ++ destruct (Z.eqb_spec (Z.of_nat (k mod 8)) j), (Nat.eqb_spec (k / 8 * 8 + Z.to_nat j) k);
                try reflexivity; lia.
           ++ destruct (Z.eqb_spec (Z.of_nat (k mod 8)) j); [lia | reflexivity].
        -- apply Z.testbit_neg_r. lia.
      * rewrite list_lookup_total_insert_ne by lia. rewrite (Hbits _ j Hq). f_equal.
        destruct (Nat.eqb_spec (q * 8 + Z.to_nat j) k) as [He|Hn];
          [|rewrite andb_false_r, orb_false_r; reflexivity].
        destruct (Z.leb_spec 0 j) as [Hj0|Hj0]; [|rewrite orb_false_r; reflexivity].
        destruct (Z.ltb_spec j 8) as [Hj8|Hj8]; [|rewrite orb_false_r; reflexivity].
        exfalso. apply Hne. assert (Hj : (Z.to_nat j < 8)%nat) by lia.
        rewrite <- He. rewrite Nat.add_comm, Nat.div_add by lia.
        rewrite Nat.div_small by lia. reflexivity.
    + split; [exact Hl|]. intros q j Hq. rewrite coil_bit_snoc, andb_false_r, orb_false_r.
      apply Hbits. exact Hq.
Qed.

Lemma CoilsToByte_spec (coils : list bool) :
  length (CoilsToByte coils) = ((length coils + 7) / 8)%nat /\
  forall (q : nat) (j : Z), (q < (length coils + 7) / 8)%nat ->
    Z.testbit (CoilsToByte coils !!! q) j = coil_bit coils q j.
Proof.
  destruct (pack_coils_spec coils (replicate ((length coils + 7) / 8)%nat 0)) as [Hl Hb].
  { rewrite length_replicate.
    pose proof (Nat.div_mod_eq (length coils + 7) 8).
    pose proof (Nat.mod_upper_bound (length coils + 7) 8 ltac:(lia)). lia. }
  rewrite length_replicate in Hl, Hb. split; [exact Hl|].
  intros q j Hq. etransitivity; [exact (Hb q j Hq)|].
  rewrite lookup_total_replicate_2 by lia. rewrite Z.bits_0. reflexivity.
Qed.

Lemma unpack_coils_spec (data : list Z) (n : nat) (coils0 : list bool) :
  (n <= length coils0)%nat ->
  let res :=
    foldl (fun acc i =>
             match acc with
             | Panics => Panics
             | Returns coils =>
                 match data !! (i / 8)%nat with
                 | None => Panics
                 | Some b =>
                     Returns (<[i := negb (Z.land b (wrap_uint8 (Z.shiftl 1 (Z.of_nat (i mod 8))))
                                           =? 0)]> coils)
                 end
             end)
          (Returns coils0) (seq 0 n) in
  if decide (n <= length data * 8)%nat
  then exists coils,
         res = Returns coils /\ length coils = length coils0 /\
         (forall i : nat, (i < n)%nat ->
            coils !! i = Some (Z.testbit (data !!! (i / 8)%nat) (Z.of_nat (i mod 8)))) /\
         (forall i : nat, (n <= i)%nat -> coils !! i = coils0 !! i)
  else res = Panics.
Proof.
  induction n as [|n IH]; intros Hn res.
  - subst res. cbn. destruct (decide (0 <= length data * 8)%nat); [|lia].
    exists coils0. repeat split; auto. intros; lia.
  - specialize (IH ltac:(lia)). cbv zeta in IH. subst res. rewrite foldl_seq_snoc.
    set (prev := foldl _ (Returns coils0) (seq 0 n)) in *.
    pose proof (Nat.div_mod_eq n 8) as Hdm.
    pose proof (Nat.mod_upper_bound n 8 ltac:(lia)) as Hm.
    destruct (decide (S n <= length data * 8)%nat) as [Hle|Hgt].
    + destruct (decide (n <= length data * 8)%nat); [|lia].
      destruct IH as (coils & -> & Hl & Hin & Hout).
      destruct (lookup_lt_is_Some_2 data (n / 8)%nat) as [b Hb].
      { apply Nat.Div0.div_lt_upper_bound. lia. }
      rewrite Hb. eexists. split; [reflexivity|].
      split; [rewrite length_insert; exact Hl|]. split.
      * intros i Hi. destruct (decide (i = n)) as [->|Hne].
        -- rewrite list_lookup_insert_eq by lia. f_equal.
           rewrite bit_mask by lia. rewrite land_bit.
           rewrite (list_lookup_total_correct _ _ _ Hb). reflexivity.
        -- rewrite list_lookup_insert_ne by lia. apply Hin. lia.
      * intros i Hi. rewrite list_lookup_insert_ne by lia. apply Hout. lia.
    + destruct (decide (n <= length data * 8)%nat) as [Hle'|Hgt'].
      * destruct IH as (coils & -> & _).
        assert (Hq : (n / 8 = length data)%nat).
        { assert (n = length data * 8)%nat as -> by lia. apply Nat.div_mul. lia. }
        rewrite (proj2 (lookup_ge_None data (n / 8)%nat)) by lia. reflexivity.
      * rewrite IH. reflexivity.
Qed.

Lemma byte_of_bits (b : Z) :
  (forall j, 8 <= j -> Z.testbit b j = false) -> 0 <= b < 256.
Proof.
  intros H. assert (Hb : b = b mod 2 ^ 8).
  { rewrite <- Z.land_ones by lia. apply Z.bits_inj'. intros n Hn.
    rewrite Z.land_spec, Z.testbit_ones_nonneg by lia.
    destruct (Z.ltb_spec n 8); [rewrite andb_true_r; reflexivity|].
    rewrite andb_false_r. apply H. lia. }
  rewrite Hb. apply Z.mod_pos_bound. lia.
Qed.

(** X7. The packed image of a list of coils has one byte per eight coils,
    rounded up; coil [i] is bit [i mod 8] of byte [i / 8], least
    significant bit first, and every bit that stands for no coil is
    zero. *)
Theorem coils_to_byte_layout (coils : list bool) :
  length (CoilsToByte coils) = ((length coils + 7) / 8)%nat /\
  Forall (fun b => 0 <= b < 256) (CoilsToByte coils) /\
  (forall (i : nat) c, coils !! i = Some c ->
     Z.testbit (CoilsToByte coils !!! (i / 8)%nat) (Z.of_nat (i mod 8)) = c) /\
  (forall (q : nat) (j : Z), (q < (length coils + 7) / 8)%nat ->
     (length coils <= q * 8 + Z.to_nat j)%nat ->
     Z.testbit (CoilsToByte coils !!! q) j = false).
Proof.
  destruct (CoilsToByte_spec coils) as [Hl Hb]. split; [exact Hl|]. split; [|split].
  - apply Forall_lookup. intros q b Hq.
    assert (Hlt : (q < (length coils + 7) / 8)%nat)
      by (rewrite <- Hl; eapply lookup_lt_Some; exact Hq).
    apply byte_of_bits. intros j Hj.
    rewrite <- (list_lookup_total_correct _ _ _ Hq), (Hb q j Hlt).
    unfold coil_bit. destruct (Z.ltb_spec j 8); [lia|]. rewrite andb_false_r. reflexivity.
  - intros i c Hi. assert (Hlt : (i < length coils)%nat) by (eapply lookup_lt_Some; exact Hi).
    pose proof (Nat.div_mod_eq i 8) as Hdm.
    pose proof (Nat.mod_upper_bound i 8 ltac:(lia)) as Hm.
    rewrite Hb by (apply Nat.Div0.div_lt_upper_bound;
                   pose proof (Nat.div_mod_eq (length coils + 7) 8);
                   pose proof (Nat.mod_upper_bound (length coils + 7) 8 ltac:(lia)); lia).
    unfold coil_bit.
    replace (0 <=? Z.of_nat (i mod 8)) with true by (symmetry; apply Z.leb_le; lia).
    replace (Z.of_nat (i mod 8) <? 8) with true by (symmetry; apply Z.ltb_lt; lia).
    rewrite Nat2Z.id. replace (i / 8 * 8 + i mod 8)%nat with i by lia.
    rewrite Hi. reflexivity.
  - intros q j Hq Hpad. rewrite (Hb q j Hq). unfold coil_bit.
    rewrite (proj2 (lookup_ge_None coils _)) by lia. cbn. apply andb_false_r.
Qed.

(** X8. [ByteToCoils] panics exactly when the count is negative or asks
    for more bits than [data] holds; otherwise it returns [count] coils,
    coil [i] being bit [i mod 8] of byte [i / 8]. *)
Theorem byte_to_coils_bounds (data : list Z) (count : Z) :
  (ByteToCoils data count = Panics <-> count < 0 \/ len data * 8 < count) /\
  (0 <= count <= len data * 8 ->
     exists coils,
       ByteToCoils data count = Returns coils /\ len coils = count /\
       forall i : nat, Z.of_nat i < count ->
         coils !! i = Some (Z.testbit (data !!! (i / 8)%nat) (Z.of_nat (i mod 8)))).
Proof.
  unfold ByteToCoils, len.
  destruct (Z.ltb_spec count 0) as [Hneg|Hpos].
  { split; [split; [intros _; left; exact Hneg | reflexivity] | intros [H _]; lia]. }
  pose proof (unpack_coils_spec data (Z.to_nat count) (replicate (Z.to_nat count) false)) as H.
  rewrite length_replicate in H. specialize (H ltac:(lia)). cbv zeta in H.
  destruct (decide (Z.to_nat count <= length data * 8)%nat) as [Hle|Hgt].
  - destruct H as (coils & Hr & Hl & Hin & _). split.
    + split; [intros Hp; congruence | intros [?|?]; lia].
    + intros _. exists coils. split; [exact Hr|]. split; [lia|].
      intros i Hi. apply Hin. lia.
  - split.
    + split; [intros _; right; lia | intros _; exact H].
    + intros [_ Hc]. lia.
Qed.

Lemma byte_to_coils_bounds_witness :
  exists coils, ByteToCoils [5; 1] 10 = Returns coils /\ len coils = 10.
Proof.
  destruct (byte_to_coils_bounds [5; 1] 10) as [_ H].
  destruct H as (coils & Hr & Hl & _); [vm_compute; split; discriminate|].
  exists coils. split; [exact Hr | exact Hl].
Defined.

Lemma ByteToCoils_CoilsToByte (coils : list bool) :
  ByteToCoils (CoilsToByte coils) (len coils) = Returns coils.
Proof.
  destruct (CoilsToByte_spec coils) as [Hl Hb].
  pose proof (Nat.div_mod_eq (length coils + 7) 8) as Hdm.
  pose proof (Nat.mod_upper_bound (length coils + 7) 8 ltac:(lia)) as Hm.
  unfold ByteToCoils, len.
  destruct (Z.ltb_spec (Z.of_nat (length coils)) 0) as [Hneg|_]; [lia|].
  pose proof (unpack_coils_spec (CoilsToByte coils) (length coils)
                (replicate (length coils) false)) as H.
  rewrite length_replicate in H. specialize (H ltac:(lia)). cbv zeta in H.
  rewrite Nat2Z.id.
  destruct (decide (length coils <= length (CoilsToByte coils) * 8)%nat) as [Hle|Hgt]; [|lia].
  destruct H as (res & -> & Hlr & Hin & _). f_equal.
  apply list_eq. intros i. destruct (coils !! i) as [c|] eqn:Hc.
  - assert (Hi : (i < length coils)%nat) by (eapply lookup_lt_Some; exact Hc).
    pose proof (Nat.div_mod_eq i 8) as Hdi.
    pose proof (Nat.mod_upper_bound i 8 ltac:(lia)) as Hmi.
    rewrite (Hin i Hi). f_equal.
    rewrite Hb by (apply Nat.Div0.div_lt_upper_bound; lia).
    unfold coil_bit.
    replace (0 <=? Z.of_nat (i mod 8)) with true by (symmetry; apply Z.leb_le; lia).
    replace (Z.of_nat (i mod 8) <? 8) with true by (symmetry; apply Z.ltb_lt; lia).
    rewrite Nat2Z.id. replace (i / 8 * 8 + i mod 8)%nat with i by lia.
    rewrite Hc. reflexivity.
  - apply lookup_ge_None. apply lookup_ge_None in Hc. lia.
Qed.

(** X9. Unpacking what [CoilsToByte] packed, with the number of coils as
    the count, returns the coils. *)
Theorem coils_byte_round_trip (coils : list bool) :
  ByteToCoils (CoilsToByte coils) (len coils) = Returns coils.
Proof. exact (ByteToCoils_CoilsToByte coils). Qed.

Lemma coils_to_byte_layout_witness :
  Z.testbit (CoilsToByte [true; false; true; false; false; false; false; false; false; true]
               !!! 1%nat) 1 = true.
Proof.
  destruct (coils_to_byte_layout
              [true; false; true; false; false; false; false; false; false; true])
    as (_ & _ & H & _).
  apply (H 9%nat true). reflexivity.
Defined.

(** ** The server's copy of the registers *)

Lemma pack_bits_CoilsToByte (l : list bool) : pack_bits l = CoilsToByte l.
Proof. reflexivity. Qed.

(** X10. [syncRegistersToServer] does nothing without a server; with one,
    the server's register banks become copies of the slave's, its coil and
    discrete-input banks the packed images of the slave's (from which
    [ByteToCoils] gives them back), and the slave's own registers, state
    and counters are untouched. *)
Theorem sync_mirrors_registers (s : Slave) :
  match server s with
  | None => syncRegistersToServer s = s
  | Some srv =>
      exists srv',
        server (syncRegistersToServer s) = Some srv' /\
        srvHoldingRegisters srv' = holdingRegisters (registers s) /\
        srvInputRegisters srv' = inputRegisters (registers s) /\
        srvCoils srv' = CoilsToByte (coils (registers s)) /\
        srvDiscreteInputs srv' = CoilsToByte (discreteInputs (registers s)) /\
        ByteToCoils (srvCoils srv') (len (coils (registers s)))
          = Returns (coils (registers s)) /\
        ByteToCoils (srvDiscreteInputs srv') (len (discreteInputs (registers s)))
          = Returns (discreteInputs (registers s)) /\
        srvListening srv' = srvListening srv /\
        registers (syncRegistersToServer s) = registers s /\
        state (syncRegistersToServer s) = state s /\
        stats (syncRegistersToServer s) = stats s
  end.
Proof.
  unfold syncRegistersToServer. destruct (server s) as [srv|]; [|reflexivity].
  eexists. split; [reflexivity|]. cbn.
  rewrite !copy_make, !pack_bits_CoilsToByte, !ByteToCoils_CoilsToByte.
  repeat split.
Qed.

(** ** What starting and stopping keep *)

Ltac frame_goals :=
  repeat match goal with
         | H : ?x <> ?x |- _ => destruct (H eq_refl)
         | H : _ = _ |- _ => discriminate H
         | |- _ -> _ => intros ?
         | |- _ /\ _ => split
         | |- _ = _ => reflexivity
         | |- exists _, _ => eexists
         end.

(** X11. [Start] and [Stop], from any state, never touch the registers,
    the identity (ID, unit id, port), the scenario or the request counters;
    [Stop] keeps the start time as well and never returns an error.  From
    a state other than Stopped, [Start] fails with ErrAlreadyRunning and
    changes nothing; from a state other than Running, [Stop] changes
    nothing.  A [Start] from Stopped replaces the server by a fresh one
    holding a copy of the registers and sets the start time to the clock,
    also when the bind then fails (the server is then left not listening
    and the updater as it was); [Stop] from Running leaves the slave
    Stopped, with the updater off and the server, if any, closed with its
    banks as they were; and a slave stopped after a start starts again. *)
Theorem start_stop_frame (s : Slave) (listen : option string) (now now' : Z) :
  (let '(err1, s1, _) := Start listen now s in
   registers s1 = registers s /\ ID s1 = ID s /\ UnitID s1 = UnitID s /\ Port s1 = Port s /\
   scenario s1 = scenario s /\ same_counters (stats s1) (stats s) /\
   (state s <> SlaveStateStopped -> err1 = Some ErrAlreadyRunning /\ s1 = s) /\
   (state s = SlaveStateStopped ->
      StartTime (stats s1) = now /\
      exists srv,
        server s1 = Some srv /\
        srvHoldingRegisters srv = holdingRegisters (registers s) /\
        srvInputRegisters srv = inputRegisters (registers s) /\
        srvCoils srv = CoilsToByte (coils (registers s)) /\
        srvDiscreteInputs srv = CoilsToByte (discreteInputs (registers s)) /\
        srvListening srv = match listen with Some _ => false | None => true end /\
        scenarioUpdater s1 = match listen with Some _ => scenarioUpdater s | None => true end)) /\
  (let '(err2, s2, _) := Stop s in
   err2 = None /\
   registers s2 = registers s /\ ID s2 = ID s /\ UnitID s2 = UnitID s /\ Port s2 = Port s /\
   scenario s2 = scenario s /\ stats s2 = stats s /\
   (state s <> SlaveStateRunning -> s2 = s) /\
   (state s = SlaveStateRunning ->
      state s2 = SlaveStateStopped /\ scenarioUpdater s2 = false /\
      match server s with
      | None => server s2 = None
      | Some srv =>
          server s2 = Some (mkServer (srvHoldingRegisters srv) (srvInputRegisters srv)
                              (srvCoils srv) (srvDiscreteInputs srv) false)
      end)) /\
  (state s = SlaveStateStopped ->
   let '(_, s1, _) := Start listen now s in
   let '(_, s2, _) := Stop s1 in
   let '(err3, s3, _) := Start None now' s2 in
   state s2 = SlaveStateStopped /\ registers s2 = registers s /\ stats s2 = stats s1 /\
   ID s2 = ID s /\ UnitID s2 = UnitID s /\ Port s2 = Port s /\ scenario s2 = scenario s /\
   (listen = None ->
      scenarioUpdater s2 = false /\
      exists srv, server s2 = Some srv /\ srvListening srv = false) /\
   err3 = None /\ state s3 = SlaveStateRunning /\ registers s3 = registers s /\
   ID s3 = ID s /\ UnitID s3 = UnitID s /\ Port s3 = Port s /\ scenario s3 = scenario s /\
   same_counters (stats s3) (stats s) /\ StartTime (stats s3) = now').
Proof.
  destruct s as [id port uid st rm srv0 sts sc upd]. unfold same_counters.
  split; [|split].
  - destruct st; destruct listen as [cause|]; cbn;
      rewrite ?copy_make, ?pack_bits_CoilsToByte; frame_goals.
  - destruct st; destruct srv0 as [srv|]; cbn; frame_goals.
  - cbn [state]. intros ->.
    destruct listen as [cause|]; cbn;
      rewrite ?copy_make, ?pack_bits_CoilsToByte; frame_goals.
Qed.

Lemma start_stop_frame_witness :
  (let '(_, s1, _) := Start None 5 test_slave in
   let '(_, s2, _) := Stop s1 in
   let '(err3, s3, _) := Start None 9 s2 in
   err3 = None /\ state s3 = SlaveStateRunning /\ StartTime (stats s3) = 9) /\
  (let '(err1, s1, _) := Start None 5 (set_state test_slave SlaveStateRunning) in
   err1 = Some ErrAlreadyRunning /\ s1 = set_state test_slave SlaveStateRunning).
Proof.
  split.
  - pose proof (start_stop_frame test_slave None 5 9) as (_ & _ & H).
    specialize (H eq_refl).
    destruct (Start None 5 test_slave) as [[e1 s1] w1].
    destruct (Stop s1) as [[e2 s2] w2].
    destruct (Start None 9 s2) as [[e3 s3] w3].
    destruct H as (_ & _ & _ & _ & _ & _ & _ & _ & He & Hs & _ & _ & _ & _ & _ & _ & Ht).
    repeat split; assumption.
  - pose proof (start_stop_frame (set_state test_slave SlaveStateRunning) None 5 9)
      as (H & _ & _).
    destruct (Start None 5 (set_state test_slave SlaveStateRunning)) as [[e1 s1] w1].
    destruct H as (_ & _ & _ & _ & _ & _ & H & _). apply H. discriminate.
Defined.

(** ** The scenario updater *)

(** X12. One run of the scenario updater, whatever the slave's state:
    the registers are updated by the handler of the slave's scenario, with
    the zero parameters when the configuration has none for it; the
    slave's state, counters and scenario are untouched; and, when the
    slave has a server, the server's banks are left equal to the updated
    registers. *)
Theorem updater_keeps_server_in_sync (impl_conv : IntType -> float64 -> Z)
    (config : ScenarioType -> option ScenarioParams) (env : TickEnv)
    (hs : Handlers) (s : Slave) :
  let '(hs', s') := updateByScenario impl_conv config env hs s in
  (hs', registers s') =
    Update impl_conv (scenario s) env (default params_zero (config (scenario s))) hs
      (registers s) /\
  state s' = state s /\ stats s' = stats s /\ scenario s' = scenario s /\
  match server s with
  | None => server s' = None
  | Some srv =>
      exists srv',
        server s' = Some srv' /\
        srvHoldingRegisters srv' = holdingRegisters (registers s') /\
        srvInputRegisters srv' = inputRegisters (registers s') /\
        srvCoils srv' = CoilsToByte (coils (registers s')) /\
        srvDiscreteInputs srv' = CoilsToByte (discreteInputs (registers s')) /\
        srvListening srv' = srvListening srv
  end.
Proof.
  destruct s as [id port uid st rm srv0 sts sc upd].
  unfold updateByScenario. cbn [scenario registers server state stats].
  replace (match config sc with Some p => p | None => params_zero end)
    with (default params_zero (config sc)) by (destruct (config sc); reflexivity).
  destruct (Update impl_conv sc env (default params_zero (config sc)) hs rm) as [hs' rm'].
  unfold syncRegistersToServer. cbn [server set_registers registers].
  destruct srv0 as [srv|]; cbn; [|repeat split].
  repeat split. eexists. rewrite !copy_make. repeat split.
Qed.

(** ** What a handler call keeps *)

Lemma apply_request_keeps (req : request) (rm : RegisterMap) :
  (is_read req = true -> snd (apply_request req rm) = rm) /\
  (forall e, fst (apply_request req rm) = Some e -> snd (apply_request req rm) = rm).
Proof.
  destruct req; cbn [apply_request is_read]; (split; [try discriminate; intros _|intros e]).
  - unfold ReadCoils. destruct (_ <? _); reflexivity.
  - unfold ReadCoils. destruct (_ <? _); [reflexivity | discriminate].
  - unfold ReadDiscreteInputs. destruct (_ <? _); reflexivity.
  - unfold ReadDiscreteInputs. destruct (_ <? _); [reflexivity | discriminate].
  - unfold ReadHoldingRegisters. destruct (_ || _); reflexivity.
  - unfold ReadHoldingRegisters. destruct (_ || _); [reflexivity | discriminate].
  - unfold ReadInputRegisters. destruct (_ <? _); reflexivity.
  - unfold ReadInputRegisters. destruct (_ <? _); [reflexivity | discriminate].
  - destruct (definitions rm !! address) as [m|]; [destruct (negb (Writable m)); [reflexivity|]|];
      unfold WriteCoil; destruct (_ <=? _); try reflexivity; discriminate.
  - destruct (definitions rm !! address) as [m|]; [destruct (negb (Writable m)); [reflexivity|]|];
      unfold WriteHoldingRegister; destruct (_ || _); try reflexivity; discriminate.
  - unfold WriteCoils. destruct (_ <? _); [reflexivity | discriminate].
  - unfold WriteHoldingRegisters. destruct (_ || _); [reflexivity | discriminate].
Qed.

(** X13. A handler call that returns never changes the handler's jitter and
    loss settings, nor the slave's identity, state, scenario or server: a
    write is stored in the slave's register map only, the server's banks
    keep what the last synchronisation copied.  The register map itself is
    unchanged by every read (FC 01 to FC 04), by every dropped request and
    by every request that ends with an error. *)
Theorem handler_call_frame (env : CallEnv) (req : request) (h : RequestHandler) :
  match handle env req h with
  | Panics => True
  | Returns (err, h') =>
      jitterEnabled h' = jitterEnabled h /\ jitterMin h' = jitterMin h /\
      jitterMax h' = jitterMax h /\ packetLossRate h' = packetLossRate h /\
      ID (slave h') = ID (slave h) /\ UnitID (slave h') = UnitID (slave h) /\
      state (slave h') = state (slave h) /\ scenario (slave h') = scenario (slave h) /\
      server (slave h') = server (slave h) /\
      StartTime (stats (slave h')) = StartTime (stats (slave h)) /\
      (is_read req = true \/ shouldDropPacket env h = true \/ err <> None ->
         registers (slave h') = registers (slave h))
  end.
Proof.
  rewrite handle_frame. destruct (applyJitter env h) as [d|]; [|exact I].
  destruct (shouldDropPacket env h) eqn:Hdrop.
  { repeat split. }
  destruct (apply_request_keeps req (registers (slave h))) as [Hread Herr].
  destruct (apply_request req (registers (slave h))) as [[e|] rm]; cbn [fst snd] in *.
  - specialize (Herr e eq_refl). subst rm. repeat split.
  - repeat split. cbn. intros [Hr|[Hd|Hn]]; [auto | discriminate | congruence].
Qed.

(** X14. With jitter off and no positive loss rate, a register written
    through FC 06 at an address that is undefined or defined writable is
    what FC 03 then reads at that address, and both requests are
    counted. *)
Theorem handler_write_then_read (env1 env2 : CallEnv) (h : RequestHandler) (a v : Z) :
  jitterEnabled h = false ->
  f64_leb (packetLossRate h) (S754_zero false) = true ->
  0 <= a < 65536 ->
  holdingIndex a < len (holdingRegisters (registers (slave h))) ->
  (forall m, definitions (registers (slave h)) !! a = Some m -> Writable m = true) ->
  exists h1 h2,
    HandleWriteSingleRegister env1 a v h = Returns (None, h1) /\
    HandleReadHoldingRegisters env2 a 1 h1 = Returns ((Some [v], None), h2) /\
    RequestCount (stats (slave h2)) =
      wrap_uint64 (wrap_uint64 (RequestCount (stats (slave h)) + 1) + 1) /\
    ErrorCount (stats (slave h2)) = ErrorCount (stats (slave h)).
Proof.
  intros Hj Hloss Ha Hlen Hw.
  pose proof (holdingIndex_range a Ha) as Hr.
  unfold HandleWriteSingleRegister, HandleReadHoldingRegisters, applyJitter, shouldDropPacket.
  rewrite Hj, Hloss. cbn [negb]. unfold GetDefinition.
  assert (Hnot : match definitions (registers (slave h)) !! a with
                 | Some m => negb (Writable m) | None => false end = false).
  { destruct (definitions (registers (slave h)) !! a) as [m|] eqn:Hd; [|reflexivity].
    rewrite (Hw m eq_refl). reflexivity. }
  cbn [registers slave with_registers set_slave set_registers].
  replace (set_slave h (set_registers (slave h) (registers (slave h)))) with h
    by (destruct h as [[] ? ? ? ?]; reflexivity).
  rewrite Hnot. unfold WriteHoldingRegister.
  replace (holdingIndex a <? 0) with false by (symmetry; apply Z.ltb_ge; lia).
  replace (len (holdingRegisters (registers (slave h))) <=? holdingIndex a) with false
    by (symmetry; apply Z.leb_gt; lia).
  cbn [orb]. eexists. eexists. split; [reflexivity|].
  cbn [jitterEnabled record with_registers set_slave slave packetLossRate recordRequest
       set_stats set_registers registers negb].
  rewrite Hj, Hloss. cbn [negb]. unfold ReadHoldingRegisters.
  cbn [holdingRegisters set_holdingRegisters]. unfold len in *. rewrite length_insert.
  replace (holdingIndex a <? 0) with false by (symmetry; apply Z.ltb_ge; lia).
  replace (Z.of_nat (length (holdingRegisters (registers (slave h)))) <? holdingIndex a + 1)
    with false by (symmetry; apply Z.ltb_ge; lia).
  cbn [orb].
  assert (Hs : copy (replicate (Z.to_nat 1) 0)
                 (slice (<[Z.to_nat (holdingIndex a) := v]> (holdingRegisters (registers (slave h))))
                    (holdingIndex a) (holdingIndex a + 1)) = [v]).
  { unfold slice. replace (Z.to_nat (holdingIndex a + 1 - holdingIndex a)) with 1%nat by lia.
    rewrite drop_insert_ge by lia. rewrite Nat.sub_diag.
    destruct (drop (Z.to_nat (holdingIndex a)) (holdingRegisters (registers (slave h))))
      as [|x rest] eqn:Hd.
    - apply (f_equal length) in Hd. rewrite length_drop in Hd. cbn in Hd. lia.
    - reflexivity. }
  rewrite Hs. split; [reflexivity|]. split; reflexivity.
Qed.

Lemma handler_write_then_read_witness :
  exists h1 h2,
    HandleWriteSingleRegister test_env 2 4660 (NewRequestHandler test_slave) = Returns (None, h1) /\
    HandleReadHoldingRegisters test_env 2 1 h1 = Returns ((Some [4660], None), h2).
Proof.
  destruct (handler_write_then_read test_env test_env (NewRequestHandler test_slave) 2 4660)
    as (h1 & h2 & H1 & H2 & _).
  - reflexivity.
  - reflexivity.
  - lia.
  - vm_compute. reflexivity.
  - intros m Hm. vm_compute in Hm. discriminate Hm.
  - exists h1, h2. split; [exact H1 | exact H2].
Defined.

(** ** Jitter and loss *)

(** X15. With jitter off [applyJitter] does not sleep.  With jitter on and
    [jitterMin < jitterMax] it sleeps for a duration in
    [[jitterMin, jitterMax)], whatever the random source yields. *)
Theorem jitter_sleep_bounds (env : CallEnv) (h : RequestHandler) :
  (jitterEnabled h = false -> applyJitter env h = Returns 0) /\
  (jitterEnabled h = true ->
   int64_range (jitterMin h) -> int64_range (jitterMax h) ->
   int64_range (jitterMax h - jitterMin h) ->
   jitterMin h < jitterMax h ->
   exists d, applyJitter env h = Returns d /\ jitterMin h <= d < jitterMax h).
Proof.
  unfold applyJitter, Int63n, int64_range. split.
  - intros ->. reflexivity.
  - intros -> Hmin Hmax Hdiff Hlt. cbn [negb].
    rewrite (wrap_int64_small (jitterMax h - jitterMin h)) by lia.
    replace (jitterMax h - jitterMin h <=? 0) with false by (symmetry; apply Z.leb_gt; lia).
    pose proof (Z.mod_pos_bound (rand_Int63 env) (jitterMax h - jitterMin h) ltac:(lia)) as Hr.
    eexists. split; [reflexivity|].
    rewrite wrap_int64_small by lia. lia.
Qed.

Lemma jitter_sleep_bounds_witness :
  exists d,
    applyJitter test_env (SetJitter true (100 * Millisecond) (500 * Millisecond)
                            (NewRequestHandler test_slave)) = Returns d /\
    100 * Millisecond <= d < 500 * Millisecond.
Proof.
  apply (jitter_sleep_bounds test_env
           (SetJitter true (100 * Millisecond) (500 * Millisecond)
              (NewRequestHandler test_slave)));
    try reflexivity; vm_compute; split; congruence.
Defined.

(** X16. The two ends of the loss rate.  A rate that is zero, negative or
    not a number drops nothing.  A rate of one or more drops every request
    (the random draw being below one): each handler then returns no data
    and no error and leaves the handler and the slave's counters as they
    were. *)
Theorem packet_loss_extremes (env : CallEnv) (req : request) (h : RequestHandler) :
  (f64_leb (packetLossRate h) (S754_zero false) = true \/ packetLossRate h = S754_nan ->
   shouldDropPacket env h = false) /\
  (f64_leb f64_one (packetLossRate h) = true ->
   f64_ltb (rand_Float64 env) f64_one = true ->
   shouldDropPacket env h = true /\
   (applyJitter env h <> Panics -> handle env req h = Returns (None, h))).
Proof.
  split.
  - unfold shouldDropPacket. intros [->| ->]; [reflexivity|].
    destruct (rand_Float64 env) as [s|[]| |[] m e]; reflexivity.
  - intros Hrate Hrand.
    assert (Hdrop : shouldDropPacket env h = true).
    { unfold shouldDropPacket. change f64_one with (S754_finite false 4503599627370496 (-52)) in *.
      destruct (packetLossRate h) as [s|[]| |[] m e]; try discriminate Hrate.
      - destruct (rand_Float64 env) as [s'|[]| |[] m' e']; try discriminate Hrand; reflexivity.
      - cbn [f64_leb SFleb SFcompare]. unfold f64_leb, f64_ltb in *.
        apply SFleb_finite in Hrate.
        destruct (rand_Float64 env) as [s'|[]| |[] m' e']; try discriminate Hrand;
          try reflexivity.
        apply SFltb_finite in Hrand. apply SFltb_finite. lia. }
    split; [exact Hdrop|]. intros Hj. rewrite handle_frame, Hdrop.
    destruct (applyJitter env h); [reflexivity | congruence].
Qed.

Lemma packet_loss_extremes_witness :
  handle test_env (ReqWriteSingleRegister 2 7) (SetPacketLoss (f64_of_Z 2) (NewRequestHandler test_slave))
  = Returns (None, SetPacketLoss (f64_of_Z 2) (NewRequestHandler test_slave)).
Proof.
  destruct (packet_loss_extremes test_env (ReqWriteSingleRegister 2 7)
              (SetPacketLoss (f64_of_Z 2) (NewRequestHandler test_slave))) as [_ H].
  destruct H as [_ H]; [reflexivity | reflexivity |]. apply H. discriminate.
Defined.

Lemma handler_call_frame_witness :
  match handle test_env (ReqReadCoils 0 2) (NewRequestHandler test_slave) with
  | Panics => False
  | Returns (_, h') => registers (slave h') = registers test_slave
  end.
Proof.
  pose proof (handler_call_frame test_env (ReqReadCoils 0 2) (NewRequestHandler test_slave)) as H.
  destruct (handle test_env (ReqReadCoils 0 2) (NewRequestHandler test_slave))
    as [[err h']|] eqn:E.
  - destruct H as (_ & _ & _ & _ & _ & _ & _ & _ & _ & _ & H). apply H. left. reflexivity.
  - vm_compute in E. discriminate E.
Defined.

(** ** Scenario names *)

(** X17. Parsing the name of a defined scenario type gives the type back;
    every other value of the type is named ["unknown"], which parses, like
    every string that is not one of the four names, to the normal
    scenario; and a string is the name of what it parses to exactly when
    it is one of the four names. *)
Theorem scenario_names_round_trip :
  (forall t : ScenarioType,
     ParseScenarioType (ScenarioType_String (ScenarioType_code t)) = ScenarioType_code t) /\
  (forall c : Z, c < 0 \/ 3 < c ->
     ScenarioType_String c = "unknown" /\
     ParseScenarioType (ScenarioType_String c) = ScenarioType_code ScenarioNormal) /\
  (forall s : string,
     0 <= ParseScenarioType s <= 3 /\
     (ScenarioType_String (ParseScenarioType s) = s <-> s ∈ scenario_names) /\
     (s ∉ scenario_names -> ParseScenarioType s = ScenarioType_code ScenarioNormal)).
Proof.
  split; [intros []; reflexivity|]. split.
  - intros c Hc. assert (Hs : ScenarioType_String c = "unknown").
    { destruct c as [|p|p]; [lia | | reflexivity].
      do 3 (destruct p as [p|p|]; try reflexivity; try lia). }
    rewrite Hs. split; reflexivity.
  - intros s. unfold ParseScenarioType, scenario_names.
    destruct (String.eqb_spec s "normal") as [->|H0];
      [split; [lia|]; split; [split; [set_solver | reflexivity] | set_solver]|].
    destruct (String.eqb_spec s "voltage_sag") as [->|H1];
      [split; [lia|]; split; [split; [set_solver | reflexivity] | set_solver]|].
    destruct (String.eqb_spec s "jitter") as [->|H2];
      [split; [lia|]; split; [split; [set_solver | reflexivity] | set_solver]|].
    destruct (String.eqb_spec s "packet_loss") as [->|H3];
      [split; [lia|]; split; [split; [set_solver | reflexivity] | set_solver]|].
    split; [lia|]. split; [|reflexivity].
    split; [intros H; cbn in H; congruence|].
    intros Hin. repeat (apply elem_of_cons in Hin as [?|Hin]; [congruence|]).
    apply elem_of_nil in Hin. contradiction.
Qed.

(** ** Voltage sag *)

Lemma binary_normalize_not_nan m e sz : binary_normalize 53 1024 m e sz <> S754_nan.
Proof.
  destruct m as [|p|p]; cbn [binary_normalize]; [discriminate| |];
    match goal with
    | |- binary_round _ _ ?s ?m ?e <> _ =>
        destruct (binary_round_spec 53 1024 f64_format s m e) as (m2 & _ & Hp)
    end;
    destruct Hp as [[_ ->]|(m3 & e3 & _ & _ & _ & _ & [[-> _]|[-> _]])]; discriminate.
Qed.

Lemma f64_sub_nan x y : f64_sub x y = S754_nan -> x = S754_nan \/ y = S754_nan \/
  exists s, x = S754_infinity s /\ y = S754_infinity s.
Proof.
  unfold f64_sub.
  destruct x as [sx|sx| |sx mx ex], y as [sy|sy| |sy my ey]; cbn [SFsub];
    try (intros H; discriminate H); auto;
    try (destruct sx, sy; cbn; intros H;
         first [discriminate H | right; right; eexists; split; reflexivity]).
  intros H. exfalso. eapply binary_normalize_not_nan. exact H.
Qed.

Lemma VoltageSag_Update_fields impl_conv env params s rm :
  let s0 := VoltageSag_init env params s in
  let s' := fst (VoltageSag_Update impl_conv env params s rm) in
  startTime s' = startTime s0 /\ duration s' = duration s0 /\ sagFactor s' = sagFactor s0 /\
  sag_normalScenario s' =
    fst (Normal_Update impl_conv env params_inner (sag_normalScenario s) rm).
Proof.
  unfold VoltageSag_Update. rewrite VoltageSag_init_normal.
  destruct (Normal_Update impl_conv env params_inner (sag_normalScenario s) rm) as [n r].
  cbn [startTime duration sagFactor].
  match goal with |- context [if ?b then _ else _] => destruct b end;
    cbn [fst startTime duration sagFactor sag_normalScenario]; repeat split.
Qed.

(** X18. The update of the voltage-sag scenario latches its parameters.
    When no start is recorded, the state it leaves has the clock as its
    start, the configured duration (ten seconds when zero) and the sag
    factor [1 - variance], replaced by 0.8 unless it lies strictly between
    0 and 1, so that the factor is strictly between 0 and 1 whenever the
    variance is a number.  When a start is recorded, the update leaves
    start, duration and factor as they are, whatever its parameters; so
    every later update keeps what the first one latched.  The inner normal
    scenario is the one its own update leaves. *)
Theorem voltage_sag_latch (impl_conv : IntType -> float64 -> Z) (env : TickEnv)
    (params : ScenarioParams) (s : VoltageSagScenario) (rm : RegisterMap) :
  let s' := fst (VoltageSag_Update impl_conv env params s rm) in
  let f := f64_sub f64_one (VoltageVariance params) in
  (startTime s = None ->
   startTime s' = Some (sag_now_start env) /\
   duration s' = (if Duration params =? 0 then 10 * Second else Duration params) /\
   duration s' <> 0 /\
   sagFactor s' = (if f64_leb f f64_zero || f64_leb f64_one f then f64_lit 8 10 else f) /\
   (sagFactor s' = S754_nan \/
    (f64_ltb f64_zero (sagFactor s') = true /\ f64_ltb (sagFactor s') f64_one = true)) /\
   (VoltageVariance params <> S754_nan -> sagFactor s' <> S754_nan)) /\
  (forall t, startTime s = Some t ->
     startTime s' = Some t /\ duration s' = duration s /\ sagFactor s' = sagFactor s) /\
  sag_normalScenario s' =
    fst (Normal_Update impl_conv env params_inner (sag_normalScenario s) rm) /\
  (forall env' params' rm',
     let s'' := fst (VoltageSag_Update impl_conv env' params' s' rm') in
     startTime s'' = startTime s' /\ duration s'' = duration s' /\
     sagFactor s'' = sagFactor s').
Proof.
  intros s' f.
  destruct (VoltageSag_Update_fields impl_conv env params s rm) as (Hs & Hd & Hf & Hn).
  fold s' in Hs, Hd, Hf, Hn.
  assert (Hkeep : forall e p (x : VoltageSagScenario) r t, startTime x = Some t ->
            let x' := fst (VoltageSag_Update impl_conv e p x r) in
            startTime x' = Some t /\ duration x' = duration x /\ sagFactor x' = sagFactor x).
  { intros e p x r t Hx.
    destruct (VoltageSag_Update_fields impl_conv e p x r) as (H1 & H2 & H3 & _).
    cbv zeta. rewrite H1, H2, H3. unfold VoltageSag_init. rewrite Hx. repeat split. exact Hx. }
  split; [|split; [|split]].
  - intros Hst. rewrite Hs, Hd, Hf. unfold VoltageSag_init. rewrite Hst.
    cbn [startTime duration sagFactor sag_normalScenario]. fold f.
    split; [reflexivity|]. split; [reflexivity|]. split.
    { destruct (Z.eqb_spec (Duration params) 0); [vm_compute; discriminate | assumption]. }
    split; [reflexivity|].
    assert (Hshape : forall g, f64_leb g f64_zero || f64_leb f64_one g = false ->
              g = S754_nan \/ (f64_ltb f64_zero g = true /\ f64_ltb g f64_one = true)).
    { intros g Hg. apply orb_false_iff in Hg. destruct Hg as [H0 H1].
      change f64_one with (S754_finite false 4503599627370496 (-52)) in *.
      destruct g as [sg|[]| |[] mg eg]; try discriminate H0; try discriminate H1; auto.
      right. split; [reflexivity|]. unfold f64_ltb, f64_leb in *.
      apply SFltb_finite.
      destruct (Z.lt_ge_cases eg (-52)) as [He|He]; [left; exact He|].
      assert (Hn' : ~ (-52 < eg \/ (-52 = eg /\ Z.pos 4503599627370496 <= Z.pos mg))).
      { intros Hc. apply SFleb_finite in Hc. congruence. }
      lia. }
    destruct (f64_leb f f64_zero || f64_leb f64_one f) eqn:Hg.
    + split; [right; split; reflexivity | discriminate].
    + split; [apply Hshape; exact Hg|].
      intros Hv Hnan. apply f64_sub_nan in Hnan.
      destruct Hnan as [Hnan|[Hnan|(sg & Hnan & _)]];
        [discriminate Hnan | contradiction | discriminate Hnan].
  - intros t Ht. exact (Hkeep env params s rm t Ht).
  - exact Hn.
  - intros env' params' rm'.
    assert (Hsome : exists t, startTime s' = Some t).
    { rewrite Hs. unfold VoltageSag_init. destruct (startTime s) as [t|] eqn:E.
      - exists t. exact E.
      - eexists. reflexivity. }
    destruct Hsome as [t Ht].
    destruct (Hkeep env' params' s' rm' t Ht) as (H1 & H2 & H3).
    cbv zeta. rewrite H1, H2, H3, Ht. repeat split.
Qed.

Lemma voltage_sag_latch_witness :
  let s' := fst (VoltageSag_Update impl_zero
                   (mkTickEnv 7 7 f64_zero f64_zero f64_zero 8 8 9)
                   (mkScenarioParams true 0 (f64_lit 2 10) f64_zero 0 0 f64_zero)
                   (hVoltageSag init_Handlers) (DefaultRegisterMap impl_zero)) in
  startTime s' = Some 7 /\ sagFactor s' <> S754_nan.
Proof.
  destruct (voltage_sag_latch impl_zero (mkTickEnv 7 7 f64_zero f64_zero f64_zero 8 8 9)
              (mkScenarioParams true 0 (f64_lit 2 10) f64_zero 0 0 f64_zero)
              (hVoltageSag init_Handlers) (DefaultRegisterMap impl_zero)) as [H _].
  destruct (H eq_refl) as (Hs & _ & _ & _ & _ & Hn).
  split; [exact Hs | apply Hn; discriminate].
Defined.

(** ** Reset *)

Lemma Normal_Reset_spec impl_conv now n rm :
  energy_register_defined rm ->
  let r := Normal_Reset impl_conv now n rm in
  energy (fst r) = f64_zero /\ lastUpdate (fst r) = now /\
  baseVoltage (fst r) = baseVoltage n /\
  energy_register_defined (snd r) /\ TotalEnergy_raw (snd r) = 0.
Proof.
  intros Hdef. unfold Normal_Reset. cbn [fst snd energy lastUpdate baseVoltage].
  split; [reflexivity|]. split; [reflexivity|]. split; [reflexivity|].
  rewrite !method_bind_snd.
  set (r1 := snd (SetScaledValue impl_conv 40001 _ rm)).
  set (r2 := snd (SetScaledValue impl_conv 40002 _ r1)).
  set (r3 := snd (SetScaledValue impl_conv 40003 _ r2)).
  assert (H3 : energy_register_defined r3)
    by (do 3 apply SetScaledValue_keeps_defined; exact Hdef).
  destruct (SetScaledValue_energy impl_conv (f64_of_Z 0) r3 H3) as (H4 & H4v).
  split.
  - do 2 apply SetScaledValue_keeps_defined. exact H4.
  - rewrite !SetScaledValue_keeps_meter by (vm_compute; right; reflexivity).
    rewrite H4v. reflexivity.
Qed.

(** X19. [Reset] of any scenario, on a map that defines the energy
    register, sets that scenario's accumulated energy to zero, its last
    update to the clock and the TotalEnergy register to 0, so that the
    accumulator and the register agree again; the voltage-sag reset also
    clears the recorded start, so that the next update latches its
    parameters anew. *)
Theorem reset_restores_meter (impl_conv : IntType -> float64 -> Z) (ty : ScenarioType)
    (now : Z) (hs : Handlers) (rm : RegisterMap) :
  energy_register_defined rm ->
  let st' := Reset impl_conv ty now hs rm in
  energy (accumulator ty (fst st')) = f64_zero /\
  lastUpdate (accumulator ty (fst st')) = now /\
  TotalEnergy_raw (snd st') = 0 /\
  meter_state impl_conv ty st' /\
  (ty = ScenarioVoltageSag -> startTime (hVoltageSag (fst st')) = None).
Proof.
  intros Hdef st'. subst st'.
  assert (Hgen : forall n,
            let r := Normal_Reset impl_conv now n rm in
            energy (fst r) = f64_zero /\ lastUpdate (fst r) = now /\
            TotalEnergy_raw (snd r) = 0 /\
            (valid_binary 53 1024 (energy (fst r)) = true /\
             f64_nonneg (energy (fst r)) = true /\
             energy_register_defined (snd r) /\
             TotalEnergy_raw (snd r) = float_to_int impl_conv TUint32 (energy (fst r)))).
  { intros n. destruct (Normal_Reset_spec impl_conv now n rm Hdef) as (He & Hl & _ & Hd & Hr).
    cbv zeta. rewrite He, Hr. repeat split; try assumption. }
  unfold meter_state.
  destruct ty; cbn [Reset accumulator]; unfold VoltageSag_Reset, Jitter_Reset, PacketLoss_Reset;
    cbn [sag_normalScenario startTime duration sagFactor].
  - specialize (Hgen (hNormal hs)).
    destruct (Normal_Reset impl_conv now (hNormal hs) rm) as [n r]. cbn in *.
    destruct Hgen as (? & ? & ? & ?). repeat split; try assumption; try tauto. discriminate.
  - specialize (Hgen (sag_normalScenario (hVoltageSag hs))).
    destruct (Normal_Reset impl_conv now (sag_normalScenario (hVoltageSag hs)) rm) as [n r].
    cbn in *. destruct Hgen as (? & ? & ? & ?). repeat split; try assumption; tauto.
  - specialize (Hgen (jit_normalScenario (hJitter hs))).
    destruct (Normal_Reset impl_conv now (jit_normalScenario (hJitter hs)) rm) as [n r].
    cbn in *. destruct Hgen as (? & ? & ? & ?). repeat split; try assumption; try tauto.
    discriminate.
  - specialize (Hgen (pl_normalScenario (hPacketLoss hs))).
    destruct (Normal_Reset impl_conv now (pl_normalScenario (hPacketLoss hs)) rm) as [n r].
    cbn in *. destruct Hgen as (? & ? & ? & ?). repeat split; try assumption; try tauto.
    discriminate.
Qed.

Lemma reset_restores_meter_witness :
  let st := run impl_zero ScenarioNormal
              [tick_at (f64_lit 3 4) 0 params_zero; tick_at (f64_lit 1 4) 10 params_zero]
              (init_Handlers, DefaultRegisterMap impl_zero) in
  TotalEnergy_raw (snd st) = 32 /\
  TotalEnergy_raw (snd (Reset impl_zero ScenarioNormal (11 * Hour) (fst st) (snd st))) = 0.
Proof.
  intros st. split; [vm_compute; reflexivity|].
  apply (reset_restores_meter impl_zero ScenarioNormal (11 * Hour) (fst st) (snd st)).
  eexists. split; [vm_compute; reflexivity|]. repeat split; vm_compute; reflexivity.
Defined.

(** ** What a tick touches *)

Lemma SetScaledValue_banks impl_conv a v rm :
  let rm' := snd (SetScaledValue impl_conv a v rm) in
  coils rm' = coils rm /\ discreteInputs rm' = discreteInputs rm /\
  inputRegisters rm' = inputRegisters rm.
Proof.
  unfold SetScaledValue.
  destruct (definitions rm !! a) as [meta|].
  - destruct (holdingIndex a <? 0); [cbn; auto|].
    destruct (MetaDataType meta);
      match goal with
      | |- context [if ?b then _ else _] => destruct b
      end; cbn; auto.
  - destruct ((holdingIndex a <? 0) || (len (holdingRegisters rm) <=? holdingIndex a));
      cbn; auto.
Qed.

Lemma same_outside_refl k rm : same_outside k rm rm.
Proof. unfold same_outside. repeat split. Qed.

Lemma same_outside_trans k a b c :
  same_outside k a b -> same_outside k b c -> same_outside k a c.
Proof.
  unfold same_outside. intros (A1&A2&A3&A4&A5&A6) (B1&B2&B3&B4&B5&B6).
  repeat split; try congruence. intros j Hj. rewrite (B6 j Hj). apply A6. exact Hj.
Qed.

Lemma SetScaledValue_same_outside impl_conv a v rm (k : nat) :
  (Z.to_nat (holdingIndex a + 1) < k)%nat ->
  same_outside k rm (snd (SetScaledValue impl_conv a v rm)).
Proof.
  intros Hk. destruct (SetScaledValue_banks impl_conv a v rm) as (Hc & Hd & Hi).
  destruct (SetScaledValue_frame impl_conv a v rm) as (Hdef & Hl & Hj).
  unfold same_outside. repeat split; try assumption.
  intros j Hjk. apply Hj.
  - assert (Z.to_nat (holdingIndex a) <= Z.to_nat (holdingIndex a + 1))%nat by lia. lia.
  - lia.
Qed.

Lemma six_writes_same_outside impl_conv v1 v2 v3 v4 v5 v6 rm :
  same_outside 8 rm
    (snd ((SetScaledValue impl_conv 40001 v1 ;;;
           SetScaledValue impl_conv 40002 v2 ;;;
           SetScaledValue impl_conv 40003 v3 ;;;
           SetScaledValue impl_conv 40004 v4 ;;;
           SetScaledValue impl_conv 40006 v5 ;;;
           SetScaledValue impl_conv 40007 v6) rm)).
Proof.
  rewrite !method_bind_snd.
  repeat (eapply same_outside_trans;
          [|apply SetScaledValue_same_outside; vm_compute; lia]).
  apply same_outside_refl.
Qed.

(** X20. A scenario update or reset writes holding registers at offsets 0
    to 7 only: the coils, the discrete inputs, the input registers, the
    definitions, the size of the holding space and every holding register
    from offset 8 on are as before. *)
Theorem scenario_touches_eight_registers (impl_conv : IntType -> float64 -> Z)
    (ty : ScenarioType) (t : tick) (now : Z) (hs : Handlers) (rm : RegisterMap) :
  same_outside 8 rm (snd (step impl_conv ty t (hs, rm))) /\
  same_outside 8 rm (snd (Reset impl_conv ty now hs rm)).
Proof.
  destruct t as [env params]. unfold step. cbn [fst snd]. split.
  - destruct ty; cbn [Update]; unfold VoltageSag_Update, Jitter_Update, PacketLoss_Update.
    + pose proof (six_writes_same_outside impl_conv) as H. unfold Normal_Update. cbn. apply H.
    + pose proof (six_writes_same_outside impl_conv) as H. unfold Normal_Update.
      match goal with |- context [if ?b then _ else _] => destruct b end; cbn [snd].
      * eapply same_outside_trans; [eapply same_outside_trans; [apply H|]|];
          apply SetScaledValue_same_outside; vm_compute; lia.
      * apply H.
    + pose proof (six_writes_same_outside impl_conv) as H. unfold Normal_Update. cbn. apply H.
    + pose proof (six_writes_same_outside impl_conv) as H. unfold Normal_Update. cbn. apply H.
  - destruct ty; cbn [Reset]; unfold VoltageSag_Reset, Jitter_Reset, PacketLoss_Reset,
      Normal_Reset; cbn [snd]; apply six_writes_same_outside.
Qed.

Lemma scenario_names_round_trip_witness :
  ParseScenarioType "Voltage_Sag" = ScenarioType_code ScenarioNormal.
Proof.
  destruct scenario_names_round_trip as (_ & _ & H).
  destruct (H "Voltage_Sag") as (_ & _ & Hn). apply Hn.
  intros Hin. repeat (apply elem_of_cons in Hin as [Hin|Hin]; [discriminate Hin|]).
  apply elem_of_nil in Hin. contradiction.
Defined.

(** ** IP ranges *)

Lemma ip_value_snoc l b : ip_value (l ++ [b]) = ip_value l * 256 + b.
Proof. unfold ip_value. rewrite foldl_app. reflexivity. Qed.

Lemma ip_value_range l :
  Forall (fun b => 0 <= b < 256) l -> 0 <= ip_value l < 256 ^ Z.of_nat (length l).
Proof.
  induction l as [|b l IH] using rev_ind; intros H.
  - cbn. lia.
  - apply Forall_app in H. destruct H as [Hl Hb]. apply Forall_inv in Hb.
    specialize (IH Hl). rewrite ip_value_snoc, length_app. cbn [length].
    replace (Z.of_nat (length l + 1)) with (Z.of_nat (length l) + 1) by lia.
    rewrite Z.pow_add_r by lia. change (256 ^ 1) with 256.
    set (M := 256 ^ Z.of_nat (length l)) in *. lia.
Qed.

Lemma ip_value_inj l1 : forall l2,
  length l1 = length l2 ->
  Forall (fun b => 0 <= b < 256) l1 -> Forall (fun b => 0 <= b < 256) l2 ->
  ip_value l1 = ip_value l2 -> l1 = l2.
Proof.
  induction l1 as [|b1 l1 IH] using rev_ind; intros l2 Hlen H1 H2 Hv.
  - destruct l2; [reflexivity | discriminate Hlen].
  - destruct l2 as [|b2 l2 _] using rev_ind.
    { rewrite length_app in Hlen. cbn in Hlen. lia. }
    rewrite !length_app in Hlen. cbn in Hlen.
    apply Forall_app in H1. destruct H1 as [H1 Hb1]. apply Forall_inv in Hb1.
    apply Forall_app in H2. destruct H2 as [H2 Hb2]. apply Forall_inv in Hb2.
    rewrite !ip_value_snoc in Hv.
    assert (ip_value l1 = ip_value l2 /\ b1 = b2) as [Hv' ->] by lia.
    f_equal. apply IH; [lia | assumption | assumption | exact Hv'].
Qed.

Lemma incIP_from_app n l x :
  (n <= length l)%nat -> incIP_from n (l ++ x) = incIP_from n l ++ x.
Proof.
  revert l. induction n as [|j IH]; intros l Hn; [reflexivity|].
  cbn [incIP_from].
  rewrite (lookup_total_app_l l x j) by lia.
  rewrite insert_app_l by lia.
  rewrite (lookup_total_app_l (<[j := _]> l) x j) by (rewrite length_insert; lia).
  destruct (0 <? _); [reflexivity|].
  apply IH. rewrite length_insert. lia.
Qed.

Lemma incIP_snoc l b :
  0 <= b < 256 ->
  incIP (l ++ [b]) = if b <? 255 then l ++ [b + 1] else incIP l ++ [0].
Proof.
  intros Hb. unfold incIP. rewrite length_app. cbn [length].
  replace (length l + 1)%nat with (S (length l)) by lia. cbn [incIP_from].
  rewrite (lookup_total_app_r l [b]) by lia. rewrite Nat.sub_diag.
  rewrite insert_app_r_alt by lia. rewrite Nat.sub_diag. cbn [insert list_insert].
  rewrite (lookup_total_app_r l) by lia. rewrite Nat.sub_diag.
  change ([b] !!! 0%nat) with b.
  change ([wrap_uint8 (b + 1)] !!! 0%nat) with (wrap_uint8 (b + 1)).
  unfold wrap_uint8. destruct (Z.ltb_spec b 255) as [Hlt|Hge].
  - rewrite Z.mod_small by lia.
    replace (0 <? b + 1) with true by (symmetry; apply Z.ltb_lt; lia). reflexivity.
  - replace b with 255 by lia. cbn. apply incIP_from_app. lia.
Qed.

Lemma incIP_spec l :
  Forall (fun b => 0 <= b < 256) l ->
  length (incIP l) = length l /\
  Forall (fun b => 0 <= b < 256) (incIP l) /\
  ip_value (incIP l) = (ip_value l + 1) mod 256 ^ Z.of_nat (length l).
Proof.
  induction l as [|b l IH] using rev_ind; intros H.
  - cbn. repeat split; constructor.
  - apply Forall_app in H. destruct H as [Hl Hb]. apply Forall_inv in Hb.
    destruct (IH Hl) as (IHlen & IHr & IHv). clear IH.
    pose proof (ip_value_range l Hl) as Hr.
    rewrite (incIP_snoc l b Hb). rewrite length_app. cbn [length].
    replace (Z.of_nat (length l + 1)) with (Z.of_nat (length l) + 1) by lia.
    rewrite Z.pow_add_r by lia. change (256 ^ 1) with 256.
    set (M := 256 ^ Z.of_nat (length l)) in *.
    assert (HM : 0 < M) by (apply Z.pow_pos_nonneg; lia).
    destruct (Z.ltb_spec b 255) as [Hlt|Hge].
    + rewrite !length_app. cbn [length]. split; [reflexivity|]. split.
      * apply Forall_app. split; [exact Hl|]. constructor; [lia | constructor].
      * rewrite !ip_value_snoc. rewrite Z.mod_small by lia. lia.
    + replace b with 255 by lia. rewrite !length_app, IHlen. cbn [length].
      split; [reflexivity|]. split.
      * apply Forall_app. split; [exact IHr|]. constructor; [lia | constructor].
      * rewrite !ip_value_snoc, IHv.
        replace (ip_value l * 256 + 255 + 1) with ((ip_value l + 1) * 256) by lia.
        rewrite Z.mul_mod_distr_r by lia. lia.
Qed.

(** X22. [incIP] adds one to an address read as a big-endian number and
    wraps around at the top: the length is kept, every byte stays a byte,
    and the all-ones address goes to the all-zero one. *)
Theorem incIP_increments (ip : list Z) :
  Forall (fun b => 0 <= b < 256) ip ->
  length (incIP ip) = length ip /\
  Forall (fun b => 0 <= b < 256) (incIP ip) /\
  ip_value (incIP ip) = (ip_value ip + 1) mod 256 ^ Z.of_nat (length ip).
Proof. exact (incIP_spec ip). Qed.

Lemma incIP_increments_witness :
  ip_value (incIP [10; 0; 255; 255]) = (ip_value [10; 0; 255; 255] + 1) mod 256 ^ 4 /\
  incIP [255; 255; 255; 255] = [0; 0; 0; 0].
Proof.
  split; [|reflexivity].
  apply (incIP_increments [10; 0; 255; 255]). repeat constructor; lia.
Defined.

Lemma iter_incIP (i : nat) (s : list Z) :
  is_ipv4 s ->
  is_ipv4 (Nat.iter i incIP s) /\
  ip_value (Nat.iter i incIP s) = (ip_value s + Z.of_nat i) mod 2 ^ 32.
Proof.
  intros Hs. induction i as [|i [IH4 IHv]].
  - cbn [Nat.iter nat_rect]. split; [exact Hs|]. destruct Hs as [Hl Hb].
    pose proof (ip_value_range s Hb) as Hr. rewrite Hl in Hr.
    rewrite Z.add_0_r, Z.mod_small; [reflexivity|]. exact Hr.
  - rewrite Nat.iter_succ. destruct IH4 as [Hl Hb].
    destruct (incIP_spec _ Hb) as (Hl' & Hb' & Hv').
    split; [split; [congruence | exact Hb']|].
    rewrite Hv', Hl, IHv. change (256 ^ Z.of_nat 4) with (2 ^ 32).
    rewrite Zplus_mod_idemp_l. f_equal. lia.
Qed.

Lemma expandRange_loop_spec (e : list Z) (d : nat) :
  is_ipv4 e ->
  forall (s : list Z) (acc : list (list Z)) (fuel : nat),
    is_ipv4 s ->
    (ip_value e - ip_value s) mod 2 ^ 32 = Z.of_nat d ->
    (d < fuel)%nat ->
    expandRange_loop fuel s e acc =
      Some (acc ++ ((fun i => Nat.iter i incIP s) <$> seq 0 d)) /\
    Nat.iter d incIP s = e.
Proof.
  intros He. induction d as [|d IH]; intros s acc fuel Hs Hd Hfuel.
  - destruct fuel as [|fuel]; [lia|]. cbn [expandRange_loop].
    assert (Heq : s = e).
    { destruct Hs as [Hls Hbs], He as [Hle Hbe].
      pose proof (ip_value_range s Hbs) as Hrs. pose proof (ip_value_range e Hbe) as Hre.
      rewrite Hls in Hrs. rewrite Hle in Hre. change (256 ^ Z.of_nat 4) with (2 ^ 32) in *.
      apply ip_value_inj; [congruence | assumption | assumption|].
      change (Z.of_nat 0) with 0 in Hd. apply Z.mod_divide in Hd; [|lia].
      destruct Hd as [k Hk]. nia. }
    rewrite bool_decide_eq_true_2 by exact Heq.
    cbn. rewrite app_nil_r. split; [reflexivity | exact Heq].
  - destruct fuel as [|fuel]; [lia|]. cbn [expandRange_loop].
    assert (Hne : s <> e).
    { intros ->. rewrite Z.sub_diag, Z.mod_0_l in Hd by lia. lia. }
    rewrite bool_decide_eq_false_2 by exact Hne.
    destruct (iter_incIP 1 s Hs) as [Hs1 Hv1]. cbn [Nat.iter nat_rect] in Hs1, Hv1.
    destruct (IH (incIP s) (acc ++ [s]) fuel Hs1) as [Hloop Hend]; [|lia|].
    { rewrite Hv1. rewrite Zminus_mod_idemp_r.
      replace (ip_value e - (ip_value s + Z.of_nat 1)) with (ip_value e - ip_value s - 1) by lia.
      rewrite <- Zminus_mod_idemp_l, Hd.
      rewrite Z.mod_small; [lia|].
      pose proof (Z.mod_pos_bound (ip_value e - ip_value s) (2 ^ 32) ltac:(lia)). lia. }
    rewrite Hloop. split.
    + f_equal. rewrite <- app_assoc. f_equal. cbn [seq fmap list_fmap app].
      change (Nat.iter 0 incIP s) with s. f_equal.
      rewrite <- seq_shift. rewrite <- list_fmap_compose. apply list_fmap_ext.
      intros i x _. cbn. rewrite <- Nat.iter_succ_r. reflexivity.
    + rewrite Nat.iter_succ_r. exact Hend.
Qed.

(** X23. [expandRange] on two IPv4 addresses walks from the start address
    upwards, wrapping from 255.255.255.255 to 0.0.0.0, until it meets the
    end address: with enough fuel it returns the [n + 1] addresses
    [start, start + 1, ..., end], where [n] is [end - start] modulo 2^32.
    Equal addresses give that one address; an end address below the start
    is reached the long way round.  If either address is missing the
    result is the error. *)
Theorem expandRange_addresses (s e : list Z) (fuel : nat) :
  is_ipv4 s -> is_ipv4 e ->
  let n := (ip_value e - ip_value s) mod 2 ^ 32 in
  (Z.to_nat n < fuel)%nat ->
  (exists ips,
     expandRange fuel (Some s) (Some e) = Some (Addresses ips) /\
     len ips = n + 1 /\
     Forall is_ipv4 ips /\
     (forall i, 0 <= i <= n ->
        ip_value <$> (ips !! Z.to_nat i) = Some ((ip_value s + i) mod 2 ^ 32)) /\
     ips !! 0%nat = Some s /\ ips !! Z.to_nat n = Some e) /\
  expandRange fuel None (Some e) = Some InvalidRange /\
  expandRange fuel (Some s) None = Some InvalidRange.
Proof.
  intros Hs He n Hfuel.
  pose proof (Z.mod_pos_bound (ip_value e - ip_value s) (2 ^ 32) ltac:(lia)) as Hn. fold n in Hn.
  split; [|split; reflexivity].
  destruct (expandRange_loop_spec e (Z.to_nat n) He s [] fuel Hs ltac:(fold n; lia) Hfuel)
    as [Hloop Hend].
  unfold expandRange. rewrite Hloop. cbn [app].
  set (run := (fun i => Nat.iter i incIP s) <$> seq 0 (Z.to_nat n)).
  assert (Hlen : length run = Z.to_nat n) by (unfold run; rewrite length_fmap, length_seq; lia).
  assert (Hlook : forall i : nat, (i <= Z.to_nat n)%nat ->
            (run ++ [e]) !! i = Some (Nat.iter i incIP s)).
  { intros i Hi. destruct (decide (i < Z.to_nat n)%nat) as [Hlt|Hge].
    - rewrite lookup_app_l by lia. unfold run. rewrite list_lookup_fmap.
      rewrite lookup_seq_lt by lia. reflexivity.
    - assert (i = Z.to_nat n) as -> by lia.
      rewrite lookup_app_r by lia. rewrite Hlen, Nat.sub_diag. cbn. congruence. }
  eexists. split; [reflexivity|]. split; [|split; [|split; [|split]]].
  - unfold len. rewrite length_app, Hlen. cbn. lia.
  - apply Forall_lookup. intros i ip Hip.
    assert (Hi : (i <= Z.to_nat n)%nat).
    { apply lookup_lt_Some in Hip. rewrite length_app, Hlen in Hip. cbn in Hip. lia. }
    rewrite (Hlook i Hi) in Hip. injection Hip as <-. apply iter_incIP. exact Hs.
  - intros i Hi. rewrite (Hlook (Z.to_nat i)) by lia. cbn.
    f_equal. destruct (iter_incIP (Z.to_nat i) s Hs) as [_ Hv]. rewrite Hv. f_equal. lia.
  - rewrite (Hlook 0%nat) by lia. reflexivity.
  - rewrite (Hlook (Z.to_nat n)) by lia. congruence.
Qed.

Lemma expandRange_addresses_witness :
  exists ips,
    expandRange 10 (Some [192; 168; 0; 254]) (Some [192; 168; 1; 1]) = Some (Addresses ips) /\
    len ips = 4 /\ ips !! 3%nat = Some [192; 168; 1; 1].
Proof.
  destruct (expandRange_addresses [192; 168; 0; 254] [192; 168; 1; 1] 10)
    as [(ips & H & Hl & _ & _ & _ & He) _].
  - split; [reflexivity | repeat constructor; lia].
  - split; [reflexivity | repeat constructor; lia].
  - vm_compute. lia.
  - exists ips. split; [exact H|]. split; [exact Hl | exact He].
Defined.

(** ** Bind addresses *)

Section BindIPsFacts.

Context {IP : Type}.
Implicit Types localIPs ips : list IP.

Lemma fill_pass_spec localIPs (Count : Z) : forall tl pre ips,
  localIPs = pre ++ tl ->
  cyclic localIPs ips ->
  (len ips < Count -> tl <> [] -> (length ips mod length localIPs = length pre)%nat) ->
  let r := fill_pass tl ips Count in
  cyclic localIPs r /\
  len r = Z.max (len ips) (Z.min (len ips + len tl) Count).
Proof.
  induction tl as [|ip rest IH]; intros pre ips Hsplit Hcyc Hpos r.
  - subst r. cbn. split; [exact Hcyc|]. unfold len. cbn. lia.
  - subst r. cbn [fill_pass].
    destruct (Z.leb_spec Count (len ips)) as [Hfull|Hroom].
    { split; [exact Hcyc|]. unfold len in *. cbn [length]. lia. }
    specialize (Hpos Hroom ltac:(discriminate)).
    assert (Hk : length localIPs = (length pre + S (length rest))%nat)
      by (rewrite Hsplit, length_app; reflexivity).
    destruct (IH (pre ++ [ip]) (ips ++ [ip])) as [Hc Hl]; clear IH.
    + rewrite <- app_assoc. exact Hsplit.
    + intros i Hi. rewrite length_app in Hi. cbn [length] in Hi.
      destruct (decide (i = length ips)) as [->|Hne].
      * rewrite lookup_app_r by lia. rewrite Nat.sub_diag, Hpos. cbn.
        rewrite Hsplit, lookup_app_r by lia. rewrite Nat.sub_diag. reflexivity.
      * rewrite lookup_app_l by lia. apply Hcyc. lia.
    + intros _ Hrest. rewrite !length_app. cbn [length].
      assert (Hr : (0 < length rest)%nat) by (destruct rest; [contradiction | cbn; lia]).
      pose proof (Nat.div_mod_eq (length ips) (length localIPs)) as Hdm.
      symmetry. apply (Nat.mod_unique _ _ (length ips / length localIPs)); lia.
    + split; [exact Hc|]. rewrite Hl. unfold len in *. rewrite !length_app. cbn [length]. lia.
Qed.

Lemma fill_loop_spec localIPs (Count : Z) :
  localIPs <> [] ->
  forall (fuel : nat) ips,
    cyclic localIPs ips ->
    (len ips < Count -> (length ips mod length localIPs = 0)%nat) ->
    (Z.to_nat (Count - len ips) < fuel)%nat ->
    exists r, fill_loop fuel localIPs ips Count = Some r /\
              cyclic localIPs r /\ len r = Z.max (len ips) Count.
Proof.
  intros Hne. assert (Hk : (0 < length localIPs)%nat) by (destruct localIPs; [contradiction | cbn; lia]).
  induction fuel as [|fuel IH]; intros ips Hcyc Hpos Hfuel; [lia|].
  cbn [fill_loop]. destruct (Z.ltb_spec (len ips) Count) as [Hroom|Hfull].
  - destruct (fill_pass_spec localIPs Count localIPs [] ips eq_refl Hcyc) as [Hc Hl].
    { intros _ _. cbn. apply Hpos. exact Hroom. }
    set (r1 := fill_pass localIPs ips Count) in *.
    assert (Hl1 : len r1 = Z.min (len ips + len localIPs) Count) by (unfold len in *; lia).
    replace (len r1 =? 0) with false by (symmetry; apply Z.eqb_neq; unfold len in *; lia).
    destruct (IH r1 Hc) as (r & Hr & Hrc & Hrl).
    + intros Hlt. assert (Hlen : length r1 = (length ips + length localIPs)%nat)
        by (unfold len in *; lia).
      rewrite Hlen. rewrite <- (Nat.mul_1_l (length localIPs)) at 1.
      rewrite Nat.Div0.mod_add. apply Hpos. exact Hroom.
    + unfold len in *. lia.
    + exists r. split; [exact Hr|]. split; [exact Hrc|]. unfold len in *. lia.
  - exists ips. split; [reflexivity|]. split; [exact Hcyc|]. lia.
Qed.

(** X24. Without configured IP ranges the bind addresses are the local
    addresses repeated in order until there are [Count] of them: address
    [i] is local address [i mod k], so with more slaves than local
    addresses the same address comes back every [k] slaves.  Without any
    local address the single address 0.0.0.0 is returned, and a negative
    [Count] makes the allocation panic. *)
Theorem bind_addresses_cycle (fuel : nat) (anyIP : IP) localIPs (Count : Z) :
  (localIPs = [] -> getBindIPs_local fuel anyIP localIPs Count = Some (Returns [anyIP])) /\
  (localIPs <> [] -> Count < 0 ->
     getBindIPs_local fuel anyIP localIPs Count = Some Panics) /\
  (localIPs <> [] -> 0 <= Count -> (Z.to_nat Count < fuel)%nat ->
     exists ips,
       getBindIPs_local fuel anyIP localIPs Count = Some (Returns ips) /\
       len ips = Count /\
       forall i : nat, Z.of_nat i < Count ->
         ips !! i = localIPs !! (i mod length localIPs)%nat).
Proof.
  unfold getBindIPs_local. split; [intros ->; reflexivity|].
  split; intros Hne HC.
  - replace (len localIPs =? 0) with false
      by (symmetry; apply Z.eqb_neq; destruct localIPs; [contradiction | unfold len; cbn; lia]).
    replace (Count <? 0) with true by (symmetry; apply Z.ltb_lt; lia). reflexivity.
  - intros Hfuel.
    replace (len localIPs =? 0) with false
      by (symmetry; apply Z.eqb_neq; destruct localIPs; [contradiction | unfold len; cbn; lia]).
    replace (Count <? 0) with false by (symmetry; apply Z.ltb_ge; lia).
    destruct (fill_loop_spec localIPs Count Hne fuel []) as (r & Hr & Hc & Hl).
    + intros i Hi. cbn in Hi. lia.
    + intros _. apply Nat.Div0.mod_0_l.
    + unfold len. cbn. lia.
    + rewrite Hr. exists r. split; [reflexivity|].
      change (len (@nil IP)) with 0 in Hl. split; [lia|].
      intros i Hi. apply Hc. unfold len in Hl. lia.
Qed.

End BindIPsFacts.

Lemma bind_addresses_cycle_witness :
  exists ips,
    getBindIPs_local 6 [0; 0; 0; 0] [[10; 0; 0; 1]; [10; 0; 0; 2]] 5 = Some (Returns ips) /\
    len ips = 5 /\ ips !! 4%nat = Some [10; 0; 0; 1].
Proof.
  destruct (bind_addresses_cycle 6 [0; 0; 0; 0] [[10; 0; 0; 1]; [10; 0; 0; 2]] 5)
    as (_ & _ & H).
  destruct H as (ips & Hr & Hl & Hi); [discriminate | lia | vm_compute; lia |].
  exists ips. split; [exact Hr|]. split; [exact Hl|].
  rewrite (Hi 4%nat) by lia. reflexivity.
Defined.

(** ** Validation *)

Section ValidationFacts.

Variable ParseCIDR_ok : string -> bool.
Variable ParseIP_ok : string -> bool.

Lemma IPRange_Validate_ok (r : IPRange) :
  IPRange_Validate ParseCIDR_ok ParseIP_ok r = None <-> range_ok ParseCIDR_ok ParseIP_ok r.
Proof.
  unfold IPRange_Validate, range_ok.
  destruct (String.eqb_spec (Range_CIDR r) "") as [Hc|Hc]; cbn [negb].
  - destruct (String.eqb_spec (Range_Start r) "") as [Hs|Hs]; cbn [orb].
    { split; [discriminate | intros [[? _]|(_ & ? & _)]; contradiction]. }
    destruct (String.eqb_spec (Range_End r) "") as [He|He]; cbn [orb].
    { split; [discriminate | intros [[? _]|(_ & _ & ? & _)]; contradiction]. }
    destruct (ParseIP_ok (Range_Start r)); cbn [negb].
    + destruct (ParseIP_ok (Range_End r)); cbn [negb].
      * split; [intros _; right; repeat split; assumption | reflexivity].
      * split; [discriminate | intros [[? _]|(_ & _ & _ & _ & ?)]; [contradiction | discriminate]].
    + split; [discriminate | intros [[? _]|(_ & _ & _ & ? & _)]; [contradiction | discriminate]].
  - destruct (ParseCIDR_ok (Range_CIDR r)).
    + split; [intros _; left; split; [assumption | reflexivity] | reflexivity].
    + split; [discriminate | intros [[_ ?]|[? _]]; [discriminate | contradiction]].
Qed.

Lemma validate_ranges_ok (ranges : list IPRange) :
  validate_ranges ParseCIDR_ok ParseIP_ok ranges = None <->
  Forall (range_ok ParseCIDR_ok ParseIP_ok) ranges.
Proof.
  induction ranges as [|r rest IH]; cbn [validate_ranges].
  - split; [constructor | reflexivity].
  - destruct (IPRange_Validate ParseCIDR_ok ParseIP_ok r) eqn:Hr.
    + split; [discriminate|]. intros H. apply Forall_inv in H.
      apply IPRange_Validate_ok in H. congruence.
    + rewrite IH. split.
      * intros H. constructor; [apply IPRange_Validate_ok; exact Hr | exact H].
      * intros H. apply Forall_inv_tail in H. exact H.
Qed.

(** X25. [Config.Validate] accepts a configuration exactly when the port
    is between 1 and 65535, the slave count between 1 and 10000, and every
    IP range is acceptable: a range with a CIDR is judged by the CIDR
    alone, its start and end being ignored, and one without needs both a
    start and an end that parse.  Nothing else of the configuration is
    looked at, and a port out of range is reported before anything
    else.  [BaseProvisioner.Validate] accepts a list of ranges exactly
    when every range is acceptable. *)
Theorem config_validate_accepts (c : Config) :
  (Config_Validate ParseCIDR_ok ParseIP_ok c = None <->
     1 <= Server_Port c <= 65535 /\ 1 <= Slaves_Count c <= 10000 /\
     Forall (range_ok ParseCIDR_ok ParseIP_ok) (Network_IPRanges c)) /\
  (Server_Port c < 1 \/ 65535 < Server_Port c ->
     Config_Validate ParseCIDR_ok ParseIP_ok c = Some (ErrInvalidPort (Server_Port c))) /\
  (forall r, Range_CIDR r <> "" ->
     IPRange_Validate ParseCIDR_ok ParseIP_ok r =
       if ParseCIDR_ok (Range_CIDR r) then None else Some (ErrInvalidCIDR (Range_CIDR r))) /\
  (forall ranges,
     BaseProvisioner_Validate ParseCIDR_ok ParseIP_ok ranges = None <->
     Forall (range_ok ParseCIDR_ok ParseIP_ok) ranges).
Proof.
  split; [|split; [|split; [|exact validate_ranges_ok]]].
  - unfold Config_Validate.
    destruct (Z.ltb_spec (Server_Port c) 1) as [P1|P1]; cbn [orb]; [split; [discriminate | lia]|].
    destruct (Z.ltb_spec 65535 (Server_Port c)) as [P2|P2]; [split; [discriminate | lia]|].
    destruct (Z.ltb_spec (Slaves_Count c) 1) as [C1|C1]; [split; [discriminate | lia]|].
    destruct (Z.ltb_spec 10000 (Slaves_Count c)) as [C2|C2]; [split; [discriminate | lia]|].
    pose proof (validate_ranges_ok (Network_IPRanges c)) as Hv.
    destruct (validate_ranges ParseCIDR_ok ParseIP_ok (Network_IPRanges c)).
    + split; [discriminate|]. intros (_ & _ & Hf). apply Hv in Hf. discriminate Hf.
    + split; [|reflexivity]. intros _. repeat split; try lia. apply Hv. reflexivity.
  - intros Hp. unfold Config_Validate.
    destruct (Z.ltb_spec (Server_Port c) 1) as [P1|P1]; cbn [orb]; [reflexivity|].
    destruct (Z.ltb_spec 65535 (Server_Port c)) as [P2|P2]; [reflexivity | lia].
  - intros r Hc. unfold IPRange_Validate.
    destruct (String.eqb_spec (Range_CIDR r) ""); [contradiction | reflexivity].
Qed.

End ValidationFacts.

Lemma config_validate_accepts_witness :
  Config_Validate (fun _ => false) (fun _ => true)
    (mkConfig 0 5 [mkIPRange "10.0.0.1" "10.0.0.9" ""]) = Some (ErrInvalidPort 0).
Proof.
  apply (config_validate_accepts (fun _ => false) (fun _ => true)
           (mkConfig 0 5 [mkIPRange "10.0.0.1" "10.0.0.9" ""])).
  left. cbn. lia.
Defined.

(** ** Scaled access *)

(** X26. [SetScaledValue] and [GetScaledValue] refuse the same addresses
    with the same error, whatever the value: an address can be read as a
    scaled value exactly when it can be written as one.  A refused write
    changes nothing, and a read never changes the map. *)
Theorem scaled_access_agree (impl_conv : IntType -> float64 -> Z) (a : Z) (v : float64)
    (rm : RegisterMap) :
  fst (SetScaledValue impl_conv a v rm) = snd (fst (GetScaledValue a rm)) /\
  snd (GetScaledValue a rm) = rm /\
  (fst (SetScaledValue impl_conv a v rm) <> None ->
     snd (SetScaledValue impl_conv a v rm) = rm /\
     fst (fst (GetScaledValue a rm)) = S754_zero false).
Proof.
  unfold SetScaledValue, GetScaledValue.
  destruct (definitions rm !! a) as [meta|].
  - destruct (holdingIndex a <? 0); [cbn; repeat split; reflexivity|].
    destruct (MetaDataType meta);
      match goal with
      | |- context [if ?b then _ else _] => destruct b
      end; cbn; repeat split; try reflexivity; try congruence.
  - destruct ((holdingIndex a <? 0) || (len (holdingRegisters rm) <=? holdingIndex a));
      cbn; repeat split; try reflexivity; try congruence.
Qed.

Lemma scaled_access_agree_witness :
  fst (SetScaledValue impl_zero 3 (f64_of_Z 7) edge_map) <> None /\
  snd (SetScaledValue impl_zero 3 (f64_of_Z 7) edge_map) = edge_map.
Proof.
  assert (H : fst (SetScaledValue impl_zero 3 (f64_of_Z 7) edge_map) <> None)
    by (vm_compute; discriminate).
  split; [exact H|].
  apply (scaled_access_agree impl_zero 3 (f64_of_Z 7) edge_map). exact H.
Defined.

Lemma wrap_int16_uint16 (i : Z) : -32768 <= i <= 32767 -> wrap_int16 (wrap_uint16 i) = i.
Proof.
  intros Hi. unfold wrap_int16, wrap_signed, wrap_uint16.
  change (2 ^ (16 - 1)) with 32768. change (2 ^ 16) with 65536.
  rewrite Zplus_mod_idemp_l. rewrite Z.mod_small by lia. lia.
Qed.

(** X27. A signed 16-bit register keeps its sign.  [SetScaledValue] on an
    address defined as I16 stores the scaled value, converted to [int16],
    as its two's complement in one register; [GetScaledValue] then returns
    that integer, negative values included, divided by the scale.  When
    the scaled value truncates to an integer between -32768 and 32767 that
    integer is the one stored. *)
Theorem int16_round_trip (impl_conv : IntType -> float64 -> Z) (rm : RegisterMap)
    (a : Z) (meta : RegisterMeta) (v : float64) :
  0 <= a < 65536 ->
  definitions rm !! a = Some meta ->
  MetaDataType meta = DataTypeInt16 ->
  holdingIndex a < len (holdingRegisters rm) ->
  let i := float_to_int impl_conv TInt16 (f64_mul v (Scale meta)) in
  -32768 <= i <= 32767 /\
  (forall t, f64_trunc (f64_mul v (Scale meta)) = Some t -> -32768 <= t <= 32767 -> i = t) /\
  exists rm',
    SetScaledValue impl_conv a v rm = (None, rm') /\
    holdingRegisters rm' !! Z.to_nat (holdingIndex a) =
      Some (if i <? 0 then i + 65536 else i) /\
    GetScaledValue a rm' = ((f64_div (f64_of_Z i) (Scale meta), None), rm').
Proof.
  intros Ha Hdef Hty Hlen i.
  pose proof (holdingIndex_range a Ha) as Hidx.
  pose proof (float_to_int_range impl_conv TInt16 (f64_mul v (Scale meta))) as Hi.
  fold i in Hi. cbn [int_in_range] in Hi.
  split; [lia|]. split.
  { intros t Ht Hr. unfold i, float_to_int. rewrite Ht. cbn [int_fits].
    replace (-32768 <=? t) with true by (symmetry; apply Z.leb_le; lia).
    replace (t <=? 32767) with true by (symmetry; apply Z.leb_le; lia). reflexivity. }
  unfold SetScaledValue, GetScaledValue. rewrite Hdef, Hty.
  replace (holdingIndex a <? 0) with false by (symmetry; apply Z.ltb_ge; lia).
  replace (len (holdingRegisters rm) <=? holdingIndex a) with false
    by (symmetry; apply Z.leb_gt; lia).
  fold i. eexists. split; [reflexivity|].
  cbn [holdingRegisters set_holdingRegisters definitions].
  unfold len in *. rewrite length_insert, Hdef, Hty.
  replace (holdingIndex a <? 0) with false by (symmetry; apply Z.ltb_ge; lia).
  replace (Z.of_nat (length (holdingRegisters rm)) <=? holdingIndex a) with false
    by (symmetry; apply Z.leb_gt; lia).
  rewrite list_lookup_total_insert_eq by lia.
  rewrite wrap_int16_uint16 by lia. split; [|reflexivity].
  rewrite list_lookup_insert_eq by lia. f_equal. unfold wrap_uint16.
  destruct (Z.ltb_spec i 0).
  - replace i with (i + 65536 - 1 * 65536) at 1 by lia.
    rewrite Zminus_mod, Z_mod_mult, Z.sub_0_r, Z.mod_mod by lia. apply Z.mod_small. lia.
  - apply Z.mod_small. lia.
Qed.

Lemma int16_round_trip_witness :
  let rm := snd (DefineRegister 2 "Temperature" DataTypeInt16 (f64_of_Z 10) "C" true
                   (NewRegisterMap 4 4 4 4)) in
  exists rm',
    SetScaledValue impl_zero 2 (f64_lit (-125) 10) rm = (None, rm') /\
    holdingRegisters rm' !! 2%nat = Some 65411 /\
    GetScaledValue 2 rm' = ((f64_div (f64_of_Z (-125)) (f64_of_Z 10), None), rm').
Proof.
  intros rm.
  destruct (int16_round_trip impl_zero rm 2
              (mkRegisterMeta 2 "Temperature" DataTypeInt16 (f64_of_Z 10) "C" true
                 (S754_zero false) (S754_zero false))
              (f64_lit (-125) 10))
    as (_ & Ht & rm' & Hs & Hh & Hg);
    [lia | vm_compute; reflexivity | reflexivity | vm_compute; reflexivity |].
  cbv zeta in Ht, Hh, Hg.
  rewrite (Ht (-125)) in Hh, Hg by (vm_compute; first [reflexivity | split; discriminate]).
  exists rm'. split; [exact Hs|]. split; [exact Hh | exact Hg].
Defined.

